(** * Sensor acquisition, register decoding and durable logging

    A shallow embedding of the MicroPython telemetry agent
    ([ports/stm32/modules/main.py] and [src/SensorRead.py]):

    - the register codec [modbus_registers_to_float];
    - the two acquisition phases [activate_all_sensors] and
      [read_sensor] / [read_all_sensors], run against an arbitrary bus;
    - the record flattener [flatten_sensor_data];
    - the SD-card log [ensure_csv_header], [append_csv_row],
      [append_jsonl_record] and [save_to_sd], run against a file store in
      which every primitive may fail.

    Python dictionaries that are only looked up, counted or sorted are
    finite maps; the profile table and the parameter lists, which are
    iterated in order, are lists.  Exceptions are an explicit result
    type threaded through a state monad, so that [try]/[except] is a
    function of the embedding. *)

From Stdlib Require Import ZArith QArith Floats.SpecFloat.
From Stdlib Require Import Strings.String Strings.Ascii.
From stdpp Require Import gmap strings list fin_maps sorting.

Local Open Scope string_scope.
Local Open Scope Z_scope.
Local Open Scope list_scope.

(** ** Exceptions and results *)

(** The exceptions the modelled code raises or catches.  [BusError] stands
    for whatever the serial driver raises (timeout, bad frame, ...). *)
Inductive exn : Type :=
  | ValueError (msg : string)
  | KeyError (key : string)
  | StructError
  | OSError (errno : Z)
  | BusError (code : Z).

Inductive res (A : Type) : Type :=
  | Ok (a : A)
  | Raise (e : exn).
Arguments Ok {A} a.
Arguments Raise {A} e.

Definition is_ok {A} (r : res A) : bool :=
  match r with Ok _ => true | Raise _ => false end.

(** ** A state monad with exceptions

    A computation takes the state of the outside world and gives a result
    or a raised exception, with the state reached at that point: whatever
    was done before a [raise] stays done. *)
Module Eff.

Definition M (S A : Type) : Type := S → res A * S.

Definition ret {S A} (a : A) : M S A := λ s, (Ok a, s).

Definition raise {S A} (e : exn) : M S A := λ s, (Raise e, s).

Definition bind {S A B} (m : M S A) (k : A → M S B) : M S B :=
  λ s, match m s with
       | (Ok a, s') => k a s'
       | (Raise e, s') => (Raise e, s')
       end.

(** [try: body except e: handler]. *)
Definition try_except {S A} (body : M S A) (handler : exn → M S A) : M S A :=
  λ s, match body s with
       | (Ok a, s') => (Ok a, s')
       | (Raise e, s') => handler e s'
       end.

(** A pure computation that may raise. *)
Definition lift {S A} (r : res A) : M S A := λ s, (r, s).

Definition get {S} : M S S := λ s, (Ok s, s).

Definition modify {S} (f : S → S) : M S unit := λ s, (Ok tt, f s).

End Eff.

(** The monad is used through stdpp's [x ← m; k] and [m;; k]. *)
#[global] Instance eff_ret {S} : MRet (Eff.M S) := λ A, @Eff.ret S A.
#[global] Instance eff_bind {S} : MBind (Eff.M S) := λ A B k m, @Eff.bind S A B m k.

(** ** RegisterCodec: [src/SensorRead.py] *)

(** A Python [float] holding a decoded single-precision value: sign,
    integer mantissa and binary exponent, or a zero, an infinity or a
    NaN. *)
Abbreviation float := spec_float.

(** [struct.pack(">I", v)]: the four bytes of an unsigned 32-bit integer,
    most significant first; values outside the range are refused, as
    CPython does (two 16-bit words never get there). *)
Definition pack_I (v : Z) : res (list Z) :=
  if (0 <=? v) && (v <? 2 ^ 32) then
    Ok [Z.land (Z.shiftr v 24) 255; Z.land (Z.shiftr v 16) 255;
        Z.land (Z.shiftr v 8) 255; Z.land v 255]
  else Raise StructError.

(** The IEEE-754 binary32 datum with bit pattern [bits]: bit 31 is the
    sign, bits 30..23 the biased exponent, bits 22..0 the fraction. *)
Definition binary32_of_bits (bits : Z) : float :=
  let sign := Z.testbit bits 31 in
  let e := Z.land (Z.shiftr bits 23) 255 in
  let m := Z.land bits (2 ^ 23 - 1) in
  if e =? 0 then
    match m with
    | Zpos p => S754_finite sign p (-149)
    | _ => S754_zero sign
    end
  else if e =? 255 then
    if m =? 0 then S754_infinity sign else S754_nan
  else
    match m + 2 ^ 23 with
    | Zpos p => S754_finite sign p (e - 150)
    | _ => S754_nan
    end.

(** [struct.unpack(">f", bytes)[0]]: reads four bytes, most significant
    first, as one binary32. *)
Definition unpack_f (bytes : list Z) : res float :=
  match bytes with
  | [b3; b2; b1; b0] =>
      Ok (binary32_of_bits
            (Z.lor (Z.shiftl b3 24)
               (Z.lor (Z.shiftl b2 16) (Z.lor (Z.shiftl b1 8) b0))))
  | _ => Raise StructError
  end.

Definition modbus_registers_to_float (registers : list Z) : res float :=
  match registers with
  | [reg_high; reg_low] =>
      let raw_value := Z.lor (Z.shiftl reg_high 16) reg_low in
      match pack_I raw_value with
      | Ok bytes => unpack_f bytes
      | Raise e => Raise e
      end
  | _ => Raise (ValueError "Expected 2 registers")
  end.

(** The rational number a finite float denotes, in lowest terms. *)
Definition float_value (f : float) : option Q :=
  match f with
  | S754_zero _ => Some (Qmake 0 1)
  | S754_finite s m e =>
      let n := if s then Zneg m else Zpos m in
      Some (Qred (Qmult (Qmake n 1) (Qpower (Qmake 2 1) e)))
  | _ => None
  end.

(** ** DeviceProfile table: [main.py], [SENSOR_PROFILES] *)

(** One entry of a profile's ["params"] list.  A field is [None] when the
    key is missing from the dictionary (or bound to [None]): that is what
    [param.get] returns in both cases. *)
Record param : Type := mk_param {
  p_name : option string;
  p_addr : option Z;
  p_qty : option Z
}.

Record profile : Type := mk_profile {
  slave_addr : option Z;
  start_register : option Z;
  start_value : option Z;
  warmup_ms : option Z;
  params : option (list param)
}.

Definition float_param (name : string) (addr : Z) : param :=
  mk_param (Some name) (Some addr) (Some 2).

(** The table is iterated with [.items()]; it is kept as the list of its
    items in iteration order. *)
Definition SENSOR_PROFILES : list (string * profile) :=
  [ ("C4E", mk_profile (Some 30) (Some 1) (Some 15) (Some 400)
       (Some [float_param "temperature" 83; float_param "conductivity" 85;
              float_param "salinity" 87; float_param "tds" 89]));
    ("NTU", mk_profile (Some 40) (Some 1) (Some 15) (Some 400)
       (Some [float_param "temperature" 83; float_param "ntu" 85;
              float_param "fnu" 87; float_param "mgL" 89]));
    ("O2", mk_profile (Some 50) (Some 1) (Some 15) (Some 400)
       (Some [float_param "temperature" 83; float_param "saturation" 85;
              float_param "mgL" 87; float_param "ppm" 89]));
    ("SENSOR4_KELLER", mk_profile None None None (Some 0) (Some []));
    ("SENSOR5_KELLER", mk_profile None None None (Some 0) (Some [])) ].

(** ** Readings *)

(** A value stored for a parameter: a float, or Python's [None]. *)
Abbreviation pyvalue := (option float).

(** The dictionary [read_sensor] fills.  Its keys are what
    [param.get("name")] returned, so [None] can be a key. *)
Abbreviation readings := (gmap (option string) pyvalue).

(** The dictionary [read_all_sensors] returns. *)
Abbreviation snapshot := (gmap string readings).

(** The flattened record. *)
Abbreviation flat_record := (gmap string pyvalue).

(** ** AcquisitionEngine: [main.py] *)

(** The reference held in [modbus]; the state of the object it points to
    is part of the world. *)
Inductive bus_ref : Type := Rs485.

(** Console lines, by the [print] call that writes them. *)
Inductive log_line : Type :=
  | LogNoModbus
  | LogMissingActivation (sensor_id : string)
  | LogStartFailed (sensor_id : string) (e : exn)
  | LogWarmup (ms : Z)
  | LogInvalidProfile (sensor_id : string)
  | LogReading (sensor_id : string) (slave : Z)
  | LogInvalidParam (sensor_id : string) (p : param)
  | LogValue (name : option string) (value : float)
  | LogReadFailed (sensor_id : string) (name : option string) (e : exn)
  | LogCollecting
  | LogModbusNotInit
  | LogUnexpected (sensor_id : string) (e : exn).

(** What the acquisition code does to the outside, in the order it does
    it. *)
Inductive event : Type :=
  | BusWrite (slave reg value : Z)
  | BusRead (slave addr qty : Z) (signed : bool)
  | Sleep (ms : Z)
  | Console (line : log_line).

Definition is_bus_call (ev : event) : bool :=
  match ev with BusWrite _ _ _ | BusRead _ _ _ _ => true | _ => false end.

Definition is_sleep (ev : event) : bool :=
  match ev with Sleep _ => true | _ => false end.

Section Acquisition.

(** The serial driver ([umodbus]) is outside the repository: its state
    and its two operations are arbitrary.  Each operation answers or
    raises, and moves the driver to a new state either way. *)
Variable T : Type.
Variable drv_write : T → Z → Z → Z → res unit * T.
Variable drv_read : T → Z → Z → Z → bool → res (list Z) * T.

Record world : Type := mk_world {
  bus : T;
  trace : list event
}.

Definition emit (ev : event) : Eff.M world unit :=
  Eff.modify (λ w, mk_world (bus w) (trace w ++ [ev])).

Definition print (line : log_line) : Eff.M world unit := emit (Console line).

(** [time.sleep(ms / 1000.0)]. *)
Definition sleep_ms (ms : Z) : Eff.M world unit := emit (Sleep ms).

(** [src/SensorRead.py]: both wrappers pass the call to the driver. *)
Definition write_single_register (rs485 : bus_ref)
    (slave_addr register_addr register_value : Z) : Eff.M world unit :=
  λ w, let '(r, b) := drv_write (bus w) slave_addr register_addr register_value in
       (r, mk_world b (trace w ++ [BusWrite slave_addr register_addr register_value])).

Definition read_holding_registers (rs485 : bus_ref)
    (slave_addr starting_addr register_qty : Z) (signed : bool)
    : Eff.M world (list Z) :=
  λ w, let '(r, b) := drv_read (bus w) slave_addr starting_addr register_qty signed in
       (r, mk_world b (trace w ++ [BusRead slave_addr starting_addr register_qty signed])).

(** *** Phase 1: activation *)

(** One iteration of the loop of [activate_all_sensors]; the loop
    variable [max_warmup_ms] goes in and comes out. *)
Definition activate_step (modbus : bus_ref) (max_warmup_ms : Z)
    (item : string * profile) : Eff.M world Z :=
  let '(sensor_id, profile) := item in
  let slave := slave_addr profile in
  let reg := start_register profile in
  let value := start_value profile in
  let warmup_ms := default 0 (warmup_ms profile) in
  let max_warmup_ms :=
    if warmup_ms >? max_warmup_ms then warmup_ms else max_warmup_ms in
  match slave, reg, value with
  | Some slave, Some reg, Some value =>
      Eff.try_except
        (write_single_register modbus slave reg value)
        (λ e, print (LogStartFailed sensor_id e));;
      mret max_warmup_ms
  | _, _, _ =>
      print (LogMissingActivation sensor_id);;
      mret max_warmup_ms
  end.

Fixpoint activate_loop (modbus : bus_ref) (table : list (string * profile))
    (max_warmup_ms : Z) : Eff.M world Z :=
  match table with
  | [] => mret max_warmup_ms
  | item :: rest =>
      max_warmup_ms ← activate_step modbus max_warmup_ms item;
      activate_loop modbus rest max_warmup_ms
  end.

(** [activate_all_sensors(modbus)], with the table it iterates as an
    argument. *)
Definition activate_all_sensors (modbus : option bus_ref)
    (table : list (string * profile)) : Eff.M world unit :=
  match modbus with
  | None => print LogNoModbus
  | Some modbus =>
      max_warmup_ms ← activate_loop modbus table 0;
      if max_warmup_ms >? 0 then
        print (LogWarmup max_warmup_ms);;
        sleep_ms max_warmup_ms
      else mret tt
  end.

(** *** Phase 2: polling *)

(** One iteration of the loop of [read_sensor]: [result] goes in and
    comes out. *)
Definition read_param (modbus : bus_ref) (sensor_id : string) (slave : Z)
    (result : readings) (p : param) : Eff.M world readings :=
  let name := p_name p in
  let addr := p_addr p in
  let qty := default 2 (p_qty p) in
  match name, addr with
  | Some _, Some addr =>
      Eff.try_except
        (raw ← read_holding_registers modbus slave addr qty false;
         value ← Eff.lift (modbus_registers_to_float raw);
         print (LogValue name value);;
         mret (<[name := Some value]> result))
        (λ e, print (LogReadFailed sensor_id name e);;
              mret (<[name := None]> result))
  | _, _ =>
      print (LogInvalidParam sensor_id p);;
      mret (<[name := None]> result)
  end.

Fixpoint read_params (modbus : bus_ref) (sensor_id : string) (slave : Z)
    (ps : list param) (result : readings) : Eff.M world readings :=
  match ps with
  | [] => mret result
  | p :: rest =>
      result ← read_param modbus sensor_id slave result p;
      read_params modbus sensor_id slave rest result
  end.

Definition read_sensor (modbus : option bus_ref) (sensor_id : string)
    (profile : profile) : Eff.M world readings :=
  let result : readings := ∅ in
  let slave := slave_addr profile in
  let params := default [] (params profile) in
  match modbus, slave, params with
  | Some modbus, Some slave, _ :: _ =>
      print (LogReading sensor_id slave);;
      read_params modbus sensor_id slave params result
  | _, _, _ =>
      print (LogInvalidProfile sensor_id);;
      mret result
  end.

Fixpoint read_all_loop (modbus : bus_ref) (table : list (string * profile))
    (data : snapshot) : Eff.M world snapshot :=
  match table with
  | [] => mret data
  | (sensor_id, profile) :: rest =>
      data ← Eff.try_except
               (values ← read_sensor (Some modbus) sensor_id profile;
                mret (<[sensor_id := values]> data))
               (λ e, print (LogUnexpected sensor_id e);;
                     mret (<[sensor_id := ∅]> data));
      read_all_loop modbus rest data
  end.

(** [read_all_sensors(modbus)], with the table it iterates as an
    argument. *)
Definition read_all_sensors (modbus : option bus_ref)
    (table : list (string * profile)) : Eff.M world snapshot :=
  print LogCollecting;;
  match modbus with
  | None => print LogModbusNotInit;; mret ∅
  | Some modbus => read_all_loop modbus table ∅
  end.

End Acquisition.

Arguments mk_world {T} bus trace.
Arguments bus {T} w.
Arguments trace {T} w.
Arguments emit {T} ev.
Arguments print {T} line.
Arguments sleep_ms {T} ms.
Arguments write_single_register {T} drv_write rs485 _ _ _.
Arguments read_holding_registers {T} drv_read rs485 _ _ _ signed.
Arguments activate_step {T} drv_write modbus max_warmup_ms item.
Arguments activate_loop {T} drv_write modbus table max_warmup_ms.
Arguments activate_all_sensors {T} drv_write modbus table.
Arguments read_param {T} drv_read modbus sensor_id slave result p.
Arguments read_params {T} drv_read modbus sensor_id slave ps result.
Arguments read_sensor {T} drv_read modbus sensor_id profile.
Arguments read_all_loop {T} drv_read modbus table data.
Arguments read_all_sensors {T} drv_read modbus table.

(** ** RecordFlattener: [main.py], [flatten_sensor_data] *)

(** How [str.format] renders a key of a readings dictionary. *)
Definition format_key (k : option string) : string :=
  match k with
  | Some s => s
  | None => "None"
  end.

(** ["{}_{}".format(sensor, param)]. *)
Definition flat_key (sensor : string) (param : option string) : string :=
  sensor +:+ "_" +:+ format_key param.

(** The two nested [for] loops; each folds over the items of a
    dictionary and assigns into [flat]. *)
Definition flatten_params (sensor : string) (params : readings)
    (flat : flat_record) : flat_record :=
  map_fold (λ param value flat, <[flat_key sensor param := value]> flat)
    flat params.

Definition flatten_sensor_data (sensor_data : snapshot) : flat_record :=
  map_fold flatten_params ∅ sensor_data.

(** ** DurableLog: [main.py] *)

(** *** Text *)

Definition newline : string := String (ascii_of_nat 10) "".

(** The characters [str.strip()] removes. *)
Definition is_space (c : ascii) : bool :=
  let n := nat_of_ascii c in
  ((9 <=? n) && (n <=? 13))%nat || (n =? 32)%nat.

Fixpoint lstrip (s : string) : string :=
  match s with
  | String c rest => if is_space c then lstrip rest else s
  | EmptyString => s
  end.

Fixpoint rstrip (s : string) : string :=
  match s with
  | String c rest =>
      match rstrip rest with
      | EmptyString => if is_space c then "" else String c ""
      | rest' => String c rest'
      end
  | EmptyString => ""
  end.

Definition strip (s : string) : string := rstrip (lstrip s).

(** [s.startswith(p)]. *)
Definition startswith (s p : string) : bool := String.prefix p s.

(** What [readline()] returns on a freshly opened file: the text up to
    and including the first line feed, or all of it. *)
Fixpoint first_line (content : string) : string :=
  match content with
  | String c rest =>
      if Ascii.eqb c (ascii_of_nat 10) then String c ""
      else String c (first_line rest)
  | EmptyString => ""
  end.

(** The order [sorted] uses on strings. *)
Definition str_le (s1 s2 : string) : Prop := String.leb s1 s2 = true.

#[global] Instance str_le_dec : RelDecision str_le :=
  λ s1 s2, decide (String.leb s1 s2 = true).

(** [sorted(keys)]. *)
Definition py_sorted (keys : list string) : list string :=
  merge_sort str_le keys.

(** [flat_dict.keys()], in the order the dictionary iterates. *)
Definition dict_keys (flat_dict : flat_record) : list string :=
  (map_to_list flat_dict).*1.

(** *** Files *)

Inductive open_mode : Type := ModeR | ModeW | ModeA.

#[global] Instance open_mode_eq_dec : EqDecision open_mode.
Proof. solve_decision. Defined.

(** An open file: reads start at the beginning, writes go to the end. *)
Record file_handle : Type := mk_handle {
  h_path : string;
  h_mode : open_mode
}.

Inductive sd_line : Type :=
  | LogSdNotMounted
  | LogSdWritten
  | LogSdError (e : exn).

Inductive fs_event : Type :=
  | FsOpen (path : string) (mode : open_mode)
  | FsReadline (path : string)
  | FsWrite (path : string) (data : string)
  | FsPrint (line : sd_line).

(** The card as the code sees it: the files with their text, the
    primitive calls made so far, and for the calls to come whether each
    one fails ([true]); once the list is used up no call fails. *)
Record fs_world : Type := mk_fs {
  files : gmap string string;
  faults : list bool;
  fs_trace : list fs_event
}.

Definition EIO : Z := 5.
Definition ENOENT : Z := 2.
Definition EBADF : Z := 9.

(** Every primitive records the call and takes the next fault. *)
Definition fs_call (ev : fs_event) : Eff.M fs_world unit :=
  λ w, let w' := mk_fs (files w) (tail (faults w)) (fs_trace w ++ [ev]) in
       match faults w with
       | true :: _ => (Raise (OSError EIO), w')
       | _ => (Ok tt, w')
       end.

Definition set_file (path content : string) : Eff.M fs_world unit :=
  Eff.modify (λ w, mk_fs (<[path := content]> (files w)) (faults w) (fs_trace w)).

Definition file_content (w : fs_world) (path : string) : string :=
  default "" (files w !! path).

(** [open(path, mode)]: ["r"] needs the file, ["w"] empties or creates
    it, ["a"] creates it when missing and keeps its text otherwise. *)
Definition py_open (path : string) (mode : open_mode)
    : Eff.M fs_world file_handle :=
  fs_call (FsOpen path mode);;
  w ← Eff.get;
  match mode, files w !! path with
  | ModeR, None => Eff.raise (OSError ENOENT)
  | ModeR, Some _ => mret (mk_handle path ModeR)
  | ModeW, _ => set_file path "";; mret (mk_handle path ModeW)
  | ModeA, None => set_file path "";; mret (mk_handle path ModeA)
  | ModeA, Some _ => mret (mk_handle path ModeA)
  end.

(** [f.readline()] right after [open]. *)
Definition py_readline (f : file_handle) : Eff.M fs_world string :=
  fs_call (FsReadline (h_path f));;
  w ← Eff.get;
  match h_mode f with
  | ModeR => mret (first_line (file_content w (h_path f)))
  | _ => Eff.raise (OSError EBADF)
  end.

(** [f.write(data)]: the text goes to the end of the file. *)
Definition py_write (f : file_handle) (data : string) : Eff.M fs_world unit :=
  fs_call (FsWrite (h_path f) data);;
  w ← Eff.get;
  match h_mode f with
  | ModeR => Eff.raise (OSError EBADF)
  | _ => set_file (h_path f) (file_content w (h_path f) +:+ data)
  end.

(** *** The two sinks *)

(** A JSON value of the record [append_jsonl_record] serialises. *)
Inductive json_value : Type :=
  | JString (s : string)
  | JNumber (f : float)
  | JNull.

Definition json_of_value (v : pyvalue) : json_value :=
  match v with
  | Some f => JNumber f
  | None => JNull
  end.

(** The reference held in [sd]. *)
Inductive sd_ref : Type := SDCard.

Section DurableLog.

(** The builtins [str] (on a float or [None]) and [json.dumps] are
    outside the repository; the log does not depend on the text they
    give. *)
Variable py_str : pyvalue → string.
Variable json_dumps : gmap string json_value → string.

(** The [try] block of [ensure_csv_header]: [true] when it returns from
    the function, [false] when it falls through, the bare [except]
    included. *)
Definition csv_header_found (path : string) : Eff.M fs_world bool :=
  Eff.try_except
    (f ← py_open path ModeR;
     line ← py_readline f;
     let header := strip line in
     mret (startswith header "timestamp"))
    (λ _, mret false).

Definition csv_header_line (flat_dict : flat_record) : string :=
  let keys := py_sorted (dict_keys flat_dict) in
  "timestamp," +:+ String.concat "," keys +:+ newline.

Definition ensure_csv_header (path : string) (flat_dict : flat_record)
    : Eff.M fs_world unit :=
  found ← csv_header_found path;
  if found : bool then mret tt
  else
    f ← py_open path ModeW;
    py_write f (csv_header_line flat_dict).

(** [[str(flat_dict[k]) for k in keys]]. *)
Fixpoint csv_values (flat_dict : flat_record) (keys : list string)
    : res (list string) :=
  match keys with
  | [] => Ok []
  | k :: rest =>
      match flat_dict !! k with
      | Some v =>
          match csv_values flat_dict rest with
          | Ok vs => Ok (py_str v :: vs)
          | Raise e => Raise e
          end
      | None => Raise (KeyError k)
      end
  end.

Definition append_csv_row (path timestamp : string) (flat_dict : flat_record)
    : Eff.M fs_world unit :=
  let keys := py_sorted (dict_keys flat_dict) in
  values ← Eff.lift (csv_values flat_dict keys);
  f ← py_open path ModeA;
  py_write f (timestamp +:+ "," +:+ String.concat "," values +:+ newline).

(** [record = {"timestamp": timestamp}; record.update(flat_dict)]. *)
Definition jsonl_record (timestamp : string) (flat_dict : flat_record)
    : gmap string json_value :=
  (json_of_value <$> flat_dict) ∪ {["timestamp" := JString timestamp]}.

Definition append_jsonl_record (path timestamp : string)
    (flat_dict : flat_record) : Eff.M fs_world unit :=
  let record := jsonl_record timestamp flat_dict in
  f ← py_open path ModeA;
  py_write f (json_dumps record +:+ newline).

Definition fs_print (line : sd_line) : Eff.M fs_world unit :=
  Eff.modify (λ w, mk_fs (files w) (faults w) (fs_trace w ++ [FsPrint line])).

Definition save_to_sd (sd : option sd_ref) (csv_path jsonl_path : string)
    (timestamp : string) (flat_data : flat_record) : Eff.M fs_world bool :=
  match sd with
  | None =>
      fs_print LogSdNotMounted;;
      mret false
  | Some _ =>
      Eff.try_except
        (ensure_csv_header csv_path flat_data;;
         append_csv_row csv_path timestamp flat_data;;
         append_jsonl_record jsonl_path timestamp flat_data;;
         fs_print LogSdWritten;;
         mret true)
        (λ e, fs_print (LogSdError e);;
              mret false)
  end.

End DurableLog.
(** ** Vocabulary of the statements *)

(** The bus calls of a trace, in order. *)
Definition bus_calls (tr : list event) : list event :=
  List.filter is_bus_call tr.

Definition sleeps (tr : list event) : list event :=
  List.filter is_sleep tr.

(** The read a parameter entry stands for: one, when it has a name and a
    register address. *)
Definition expected_read (slave : Z) (p : param) : list event :=
  match p_name p, p_addr p with
  | Some _, Some addr => [BusRead slave addr (default 2 (p_qty p)) false]
  | _, _ => []
  end.

Definition profile_reads (pr : profile) : list event :=
  match slave_addr pr with
  | Some slave => concat (expected_read slave <$> default [] (params pr))
  | None => []
  end.

Definition table_reads (table : list (string * profile)) : list event :=
  concat ((λ item, profile_reads item.2) <$> table).

(** [profile.get("warmup_ms", 0)] of a table item. *)
Definition warmup_of (item : string * profile) : Z :=
  default 0 (warmup_ms item.2).

(** A read that gives no value: the driver raised, or the registers it
    returned do not decode. *)
Definition read_failed (r : res (list Z)) : Prop :=
  match r with
  | Raise _ => True
  | Ok raw => is_ok (modbus_registers_to_float raw) = false
  end.

(** A profile that [read_sensor] refuses. *)
Definition invalid_profile (pr : profile) : Prop :=
  slave_addr pr = None ∨ default [] (params pr) = [].

(** A bus that answers from a script: each call takes the next answer of
    its kind, and times out when none is left. *)
Definition scripted_bus : Type := list (res unit) * list (res (list Z)).

Definition ETIMEDOUT : Z := 110.

Definition script_write (b : scripted_bus) (slave reg value : Z)
    : res unit * scripted_bus :=
  match b.1 with
  | r :: rest => (r, (rest, b.2))
  | [] => (Raise (BusError ETIMEDOUT), b)
  end.

Definition script_read (b : scripted_bus) (slave addr qty : Z) (signed : bool)
    : res (list Z) * scripted_bus :=
  match b.2 with
  | r :: rest => (r, (b.1, rest))
  | [] => (Raise (BusError ETIMEDOUT), b)
  end.

(** The text has no underscore. *)
Fixpoint no_underscore (s : string) : bool :=
  match s with
  | String c rest => negb (Ascii.eqb c "_") && no_underscore rest
  | EmptyString => true
  end.

(** The keys of one readings dictionary render to different texts: the
    key [None] and the name ["None"] are not both there. *)
Definition renders_apart (r : readings) : Prop :=
  ¬ (None ∈ dom r ∧ Some "None" ∈ dom r).

(** Underscores are kept out of the device ids, or out of the rendered
    parameter names. *)
Definition one_side_plain (sensor_data : snapshot) : Prop :=
  (∀ d, d ∈ dom sensor_data → no_underscore d = true)
  ∨ (∀ d r k, sensor_data !! d = Some r → k ∈ dom r →
              no_underscore (format_key k) = true).

(** [sum(len(params) for params in sensor_data.values())]. *)
Definition readings_count (sensor_data : snapshot) : nat :=
  sum_list_with (λ item, size item.2) (map_to_list sensor_data).

(** Every character of the text passes the test. *)
Fixpoint all_chars (P : ascii → bool) (s : string) : bool :=
  match s with
  | String c rest => P c && all_chars P rest
  | EmptyString => true
  end.

(** The test of [ensure_csv_header] on the text of a file. *)
Definition has_header (content : string) : bool :=
  startswith (strip (first_line content)) "timestamp".

(** The same test, read off the text from its start: blanks other than
    a line feed are skipped, then the token must follow. *)
Fixpoint header_scan (content : string) : bool :=
  match content with
  | String c rest =>
      if Ascii.eqb c (ascii_of_nat 10) then false
      else if is_space c then header_scan rest
      else String.prefix "timestamp" content
  | EmptyString => false
  end.

(** The file a primitive call works on. *)
Definition event_path (ev : fs_event) : option string :=
  match ev with
  | FsOpen path _ | FsReadline path | FsWrite path _ => Some path
  | FsPrint _ => None
  end.

(** The old text of the file is the start of its new text. *)
Definition grows_at (path : string) (w w' : fs_world) : Prop :=
  ∃ added, file_content w' path = file_content w path +:+ added.

(** [w'] comes after [w]: calls [evs] were added, each of them allowed
    by [ok]; a file not opened for writing among them only grew, and a
    file none of them names is as it was. *)
Definition fs_steps (ok : fs_event → Prop) (evs : list fs_event)
    (w w' : fs_world) : Prop :=
  fs_trace w' = fs_trace w ++ evs
  ∧ Forall ok evs
  ∧ ∀ path,
      (FsOpen path ModeW ∉ evs → grows_at path w w')
      ∧ ((∀ ev, ev ∈ evs → event_path ev ≠ Some path) →
         files w' !! path = files w !! path).

(** Whatever the state and the faults, running [m] only makes calls
    allowed by [ok], and a value it returns satisfies [Q]. *)
Definition post {A} (m : Eff.M fs_world A) (ok : fs_event → Prop)
    (Q : A → Prop) : Prop :=
  ∀ w r w', m w = (r, w') →
    (∃ evs, fs_steps ok evs w w') ∧ (∀ a, r = Ok a → Q a).

(** Calls that only read [path], and calls that only append to it. *)
Definition reads_of (path : string) (ev : fs_event) : Prop :=
  ev = FsOpen path ModeR ∨ ev = FsReadline path.

Definition appends_to (path : string) (ev : fs_event) : Prop :=
  ev = FsOpen path ModeA ∨ ∃ data, ev = FsWrite path data.

Definition on_file (path : string) (ev : fs_event) : Prop :=
  event_path ev = Some path.

(** The first two steps of [save_to_sd], which work on the CSV file. *)
Definition csv_steps (py_str : pyvalue → string) (csv_path timestamp : string)
    (flat_data : flat_record) : Eff.M fs_world unit :=
  ensure_csv_header csv_path flat_data;;
  append_csv_row py_str csv_path timestamp flat_data.

(** The line [append_csv_row] writes. *)
Definition csv_row_line (py_str : pyvalue → string) (timestamp : string)
    (flat_dict : flat_record) : string :=
  timestamp +:+ "," +:+
  String.concat ","
    ((λ k, py_str (default None (flat_dict !! k)))
       <$> py_sorted (dict_keys flat_dict))
  +:+ newline.

(** The line [append_jsonl_record] writes. *)
Definition jsonl_line (json_dumps : gmap string json_value → string)
    (timestamp : string) (flat_dict : flat_record) : string :=
  json_dumps (jsonl_record timestamp flat_dict) +:+ newline.

(** The [except] branch of [save_to_sd], and the steps of its [try]
    block that come after the header. *)
Definition save_handler (e : exn) : Eff.M fs_world bool :=
  fs_print (LogSdError e);;
  mret false.

Definition save_tail (py_str : pyvalue → string)
    (json_dumps : gmap string json_value → string)
    (csv_path jsonl_path timestamp : string) (flat_data : flat_record)
    : Eff.M fs_world bool :=
  append_csv_row py_str csv_path timestamp flat_data;;
  append_jsonl_record json_dumps jsonl_path timestamp flat_data;;
  fs_print LogSdWritten;;
  mret true.

(** The calls a save may make: anything on the CSV file, appends to the
    JSONL file, console lines. *)
Definition save_call (csv_path jsonl_path : string) (ev : fs_event) : Prop :=
  on_file csv_path ev ∨ appends_to jsonl_path ev ∨ event_path ev = None.

(** The same without opening the CSV file for writing. *)
Definition gentle_call (csv_path jsonl_path : string) (ev : fs_event) : Prop :=
  reads_of csv_path ev ∨ appends_to csv_path ev
  ∨ appends_to jsonl_path ev ∨ event_path ev = None.

(** Whether the file is there with a header, as [ensure_csv_header]
    tests it. *)
Definition header_present (w : fs_world) (path : string) : bool :=
  match files w !! path with
  | Some content => has_header content
  | None => false
  end.

(** Sample data for the statements below. *)
Definition f42 : float := S754_finite false 11010048 (-18).

Definition sample_bus (answers : list (res (list Z))) : world scripted_bus :=
  mk_world ([], answers) [].

Definition KELLER : profile :=
  mk_profile None None None (Some 0) (Some []).

(** [main.py]: the two files of the log. *)
Definition CSV_PATH : string := "/sd/isat_data.csv".
Definition JSONL_PATH : string := "/sd/isat_data.jsonl".

(** Stand-ins for [str] and [json.dumps] at sample inputs. *)
Definition sample_str (v : pyvalue) : string :=
  match v with
  | Some _ => "42.0"
  | None => "None"
  end.

Definition sample_dumps (record : gmap string json_value) : string := "{}".

Definition sample_flat : flat_record := {[ "X_t" := Some f42 ]}.

Definition sample_card (content : option string) (flt : list bool) : fs_world :=
  mk_fs
    (match content with
     | Some text => {[ CSV_PATH := text ]}
     | None => ∅
     end) flt [].

(** ** Vocabulary of the further statements *)

(** The write an item of the table stands for in the activation phase:
    one, when its bus address, start register and start value are all
    there. *)
Definition expected_write (item : string * profile) : list event :=
  match slave_addr item.2, start_register item.2, start_value item.2 with
  | Some slave, Some reg, Some value => [BusWrite slave reg value]
  | _, _, _ => []
  end.

Definition table_writes (table : list (string * profile)) : list event :=
  concat (expected_write <$> table).

(** The keys [read_sensor] assigns for a profile: the names of its
    entries when the profile is read, none when it is refused. *)
Definition profile_names (pr : profile) : gset (option string) :=
  match slave_addr pr, default [] (params pr) with
  | Some _, p :: ps => list_to_set (p_name <$> p :: ps)
  | _, _ => ∅
  end.

(** The columns a table gives: one flat key for each name of each
    profile. *)
Definition table_columns (table : list (string * profile)) : gset string :=
  ⋃ ((λ item, set_map (flat_key item.1) (profile_names item.2)) <$> table).

(** The saves of successive cycles on one card: each cycle hands
    [save_to_sd] its timestamp and its flat record, and the card goes
    from one cycle to the next.  The answers are kept in order. *)
Fixpoint save_cycles (py_str : pyvalue → string)
    (json_dumps : gmap string json_value → string) (card : sd_ref)
    (csv_path jsonl_path : string) (records : list (string * flat_record))
    (w : fs_world) : list (res bool) * fs_world :=
  match records with
  | [] => ([], w)
  | (timestamp, flat_data) :: rest =>
      let '(r, w1) :=
        save_to_sd py_str json_dumps (Some card) csv_path jsonl_path
          timestamp flat_data w in
      let '(rs, w2) :=
        save_cycles py_str json_dumps card csv_path jsonl_path rest w1 in
      (r :: rs, w2)
  end.

(** The text of several lines, one after the other. *)
Definition lines_text (lines : list string) : string :=
  String.concat "" lines.

(** The bit pattern of a binary32 datum: the inverse of
    [binary32_of_bits] on everything but the NaNs, which all read as one
    [S754_nan]. *)
Definition sign_bit (s : bool) : Z := if s then 2 ^ 31 else 0.

Definition bits_of_binary32 (f : float) : Z :=
  match f with
  | S754_zero s => sign_bit s
  | S754_infinity s => sign_bit s + 255 * 2 ^ 23
  | S754_nan => 255 * 2 ^ 23 + 2 ^ 22
  | S754_finite s m e =>
      if Zpos m <? 2 ^ 23 then sign_bit s + Zpos m
      else sign_bit s + (e + 150) * 2 ^ 23 + (Zpos m - 2 ^ 23)
  end.

(** ** Timestamps: [main.py], [iso8601_now]; [src/DatalogSD.py],
    [get_timestamp] *)

(** The first six fields of [time.localtime()]. *)
Record time_tuple : Type := mk_time {
  t_year : Z;
  t_month : Z;
  t_day : Z;
  t_hour : Z;
  t_minute : Z;
  t_second : Z
}.

Definition digit_char (d : nat) : ascii := ascii_of_nat (48 + d).

(** The decimal digits of a natural number, most significant first. *)
Fixpoint decimal_fuel (fuel n : nat) (acc : string) : string :=
  match fuel with
  | O => acc
  | S fuel' =>
      let acc' := String (digit_char (n mod 10)) acc in
      if (n / 10 =? 0)%nat then acc' else decimal_fuel fuel' (n / 10) acc'
  end.

Definition decimal (n : nat) : string := decimal_fuel (S n) n "".

Fixpoint zeros (k : nat) : string :=
  match k with
  | O => ""
  | S k' => String "0" (zeros k')
  end.

(** [s.rjust(width, "0")]. *)
Definition zero_pad (width : nat) (s : string) : string :=
  zeros (width - String.length s) +:+ s.

(** ["%0<width>d" % n], which is also ["{:0<width>}".format(n)]: the sign
    first, then zeros up to the width, then the digits. *)
Definition format_int (width : nat) (n : Z) : string :=
  if n <? 0 then String "-" (zero_pad (width - 1) (decimal (Z.to_nat (- n))))
  else zero_pad width (decimal (Z.to_nat n)).

(** [iso8601_now()], with the clock reading [t] it gets from
    [time.localtime()]. *)
Definition iso8601_now (t : time_tuple) : string :=
  format_int 4 (t_year t) +:+ "-" +:+ format_int 2 (t_month t) +:+ "-"
  +:+ format_int 2 (t_day t) +:+ "T" +:+ format_int 2 (t_hour t) +:+ ":"
  +:+ format_int 2 (t_minute t) +:+ ":" +:+ format_int 2 (t_second t) +:+ "Z".

(** [get_timestamp()], likewise. *)
Definition get_timestamp (local_time : time_tuple) : string :=
  format_int 4 (t_year local_time) +:+ "-"
  +:+ format_int 2 (t_month local_time) +:+ "-"
  +:+ format_int 2 (t_day local_time) +:+ " "
  +:+ format_int 2 (t_hour local_time) +:+ ":"
  +:+ format_int 2 (t_minute local_time) +:+ ":"
  +:+ format_int 2 (t_second local_time).

(** A clock reading whose year has at most four digits and whose other
    fields have at most two. *)
Definition four_digit_time (t : time_tuple) : Prop :=
  0 ≤ t_year t < 10000 ∧ 0 ≤ t_month t < 100 ∧ 0 ≤ t_day t < 100
  ∧ 0 ≤ t_hour t < 100 ∧ 0 ≤ t_minute t < 100 ∧ 0 ≤ t_second t < 100.

(** The order of clock readings: by year, then month, and so on. *)
Definition lex (c1 c2 : comparison) : comparison :=
  match c1 with
  | Eq => c2
  | _ => c1
  end.

Definition time_compare (t1 t2 : time_tuple) : comparison :=
  lex (t_year t1 ?= t_year t2)
    (lex (t_month t1 ?= t_month t2)
       (lex (t_day t1 ?= t_day t2)
          (lex (t_hour t1 ?= t_hour t2)
             (lex (t_minute t1 ?= t_minute t2)
                (t_second t1 ?= t_second t2))))).

(** The [width] last decimal digits of a number. *)
Fixpoint fixed_digits (width n : nat) : string :=
  match width with
  | O => ""
  | S width' =>
      fixed_digits width' (n / 10) +:+ String (digit_char (n mod 10)) ""
  end.

(** ** The older log: [src/DatalogSD.py] *)

(** Console lines of [src/DatalogSD.py] and of the card handling of
    [main.py], by the [print] call that writes them. *)
Inductive datalog_line : Type :=
  | LogLogged (data_to_log : list string)
  | LogNotMounted
  | LogUnmounting
  | LogUnmountNone
  | LogUnmounted
  | LogUnmountError (e : exn).

(** The card with its mount point: whether a file system is mounted on
    [/sd], the files, and the console. *)
Record datalog_world : Type := mk_datalog {
  dl_mounted : bool;
  dl_card : fs_world;
  dl_console : list datalog_line
}.

Definition EINVAL : Z := 22.

(** A computation on the files, run in the larger world. *)
Definition on_card {A} (m : Eff.M fs_world A) : Eff.M datalog_world A :=
  λ w, let '(r, c) := m (dl_card w) in
       (r, mk_datalog (dl_mounted w) c (dl_console w)).

Definition dl_print (line : datalog_line) : Eff.M datalog_world unit :=
  Eff.modify (λ w, mk_datalog (dl_mounted w) (dl_card w)
                     (dl_console w ++ [line])).

(** [os.stat("/sd")]: the mount point is there when a file system is
    mounted on it. *)
Definition os_stat_sd : Eff.M datalog_world unit :=
  w ← Eff.get;
  if dl_mounted w then mret tt else Eff.raise (OSError ENOENT).

(** [os.umount("/sd")]: refused when nothing is mounted. *)
Definition os_umount_sd : Eff.M datalog_world unit :=
  w ← Eff.get;
  if dl_mounted w then
    Eff.modify (λ w, mk_datalog false (dl_card w) (dl_console w))
  else Eff.raise (OSError EINVAL).

(** [file.tell()] right after [open]: the end of the text in append
    mode, the start otherwise.  The position is kept in the handle, so
    no call is made on the card. *)
Definition py_tell (f : file_handle) : Eff.M fs_world Z :=
  w ← Eff.get;
  match h_mode f with
  | ModeA => mret (Z.of_nat (String.length (file_content w (h_path f))))
  | _ => mret 0
  end.

Definition check_sdcard : Eff.M datalog_world bool :=
  Eff.try_except
    (os_stat_sd;;
     mret true)
    (λ e, match e with
          | OSError _ => mret false
          | _ => Eff.raise e
          end).

Definition unmount_sdcard (sd : sd_ref) : Eff.M datalog_world unit :=
  os_umount_sd.

(** [main.py], [shutdown_sd_card]. *)
Definition shutdown_sd_card (sd : option sd_ref) : Eff.M datalog_world unit :=
  dl_print LogUnmounting;;
  match sd with
  | None => dl_print LogUnmountNone
  | Some sd =>
      Eff.try_except
        (unmount_sdcard sd;;
         dl_print LogUnmounted)
        (λ e, dl_print (LogUnmountError e))
  end.

Definition SENSOR_DATA_PATH : string := "/sd/sensor_data.csv".

Section Datalog.

(** The values logged are of any type; [str] is the builtin. *)
Variable V : Type.
Variable str_value : V → string.

Definition datalog_header (columns : list string) : string :=
  String.concat "," ("Timestamp" :: columns) +:+ newline.

Definition datalog_row (local_time : time_tuple) (data : list V) : string :=
  String.concat "," (get_timestamp local_time :: (str_value <$> data))
  +:+ newline.

(** [log_sensor_data(data, columns)], with the clock reading
    [get_timestamp] gets. *)
Definition log_sensor_data (local_time : time_tuple) (data : list V)
    (columns : list string) : Eff.M datalog_world bool :=
  mounted ← check_sdcard;
  if mounted : bool then
    let timestamp := get_timestamp local_time in
    let data_to_log := timestamp :: (str_value <$> data) in
    on_card
      (file ← py_open SENSOR_DATA_PATH ModeA;
       position ← py_tell file;
       (if position =? 0
        then py_write file
               (String.concat "," ("Timestamp" :: columns) +:+ newline)
        else mret tt);;
       py_write file (String.concat "," data_to_log +:+ newline));;
    dl_print (LogLogged data_to_log);;
    mret true
  else
    dl_print LogNotMounted;;
    mret false.

End Datalog.

Arguments log_sensor_data {V} str_value local_time data columns.
Arguments datalog_row {V} str_value local_time data.

(** ** The Notecard: [src/NoteConfig.py] and its callers in [main.py] *)

(** The values of the dictionaries sent as the body of a note. *)
Inductive body_value : Type :=
  | BodyStr (s : string)
  | BodyDict (d : flat_record).

Abbreviation note_body := (gmap string body_value).

(** The requests the code builds, by their ["req"] field. *)
Inductive request : Type :=
  | ReqNoteAdd (sync : bool) (file : string) (body : note_body)
  | ReqHubSync
  | ReqCardDfu (name : string) (on : bool)
  | ReqHubFirmware
  | ReqHubFirmwareGet.

(** A response, by the two fields the code reads with [.get]: [None]
    for a missing key. *)
Record response : Type := mk_rsp {
  rsp_pending : option bool;
  rsp_body : option string
}.

(** The reference held in [card]. *)
Inductive card_ref : Type := Notecard.

Inductive nc_line : Type :=
  | LogTransactionError (info : string)
  | LogSyncError (info : string)
  | LogSendWarning (e : exn)
  | LogSyncWarning (e : exn)
  | LogTestSending (body : note_body)
  | LogTestSendError (e : exn)
  | LogTestSyncError (e : exn)
  | LogTestSent
  | LogOtaChecking
  | LogOtaNone
  | LogOtaDetected (rsp : response)
  | LogOtaBodyMissing
  | LogOtaWriting
  | LogOtaInstalled
  | LogOtaRebooting.

(** What the code does to the Notecard, the clock, the console and the
    processor, in the order it does it. *)
Inductive nc_event : Type :=
  | NcTransaction (req : request)
  | NcSleep (seconds : Z)
  | NcPrint (line : nc_line)
  | NcReset.

Definition is_transaction (ev : nc_event) : bool :=
  match ev with NcTransaction _ => true | _ => false end.

Definition transactions (tr : list nc_event) : list nc_event :=
  List.filter is_transaction tr.

(** How a call of [check_ota_update] ends when it does not raise: it
    returns, or [machine.reset()] restarts the board and nothing after
    it runs. *)
Inductive ota_outcome : Type :=
  | OtaReturned (result : bool)
  | OtaRestarted.

Definition MAIN_PY : string := "/main.py".

Section Notecard.

(** The Notecard behind [Transaction] is outside the repository: its
    state and its answers are arbitrary.  So is what the interpreter
    knows of an exception: the line of its traceback, which
    [sys.exc_info()[-1].tb_lineno] gives or fails to give, the name of
    its class and its arguments as strings. *)
Variable C : Type.
Variable transaction : C → request → res response * C.
Variable exc_lineno : exn → res nat.
Variable exc_class_name : exn → string.
Variable exc_args : exn → list string.

Record nc_world : Type := mk_nc {
  nc_card : C;
  nc_flash : fs_world;
  nc_trace : list nc_event
}.

Definition nc_emit (ev : nc_event) : Eff.M nc_world unit :=
  Eff.modify (λ w, mk_nc (nc_card w) (nc_flash w) (nc_trace w ++ [ev])).

Definition nc_print (line : nc_line) : Eff.M nc_world unit :=
  nc_emit (NcPrint line).

(** [sleep(seconds)]. *)
Definition nc_sleep (seconds : Z) : Eff.M nc_world unit :=
  nc_emit (NcSleep seconds).

Definition Transaction (card : card_ref) (req : request)
    : Eff.M nc_world response :=
  λ w, let '(r, c) := transaction (nc_card w) req in
       (r, mk_nc c (nc_flash w) (nc_trace w ++ [NcTransaction req])).

(** A computation on the files of the board, run in the larger world. *)
Definition on_flash {A} (m : Eff.M fs_world A) : Eff.M nc_world A :=
  λ w, let '(r, fl) := m (nc_flash w) in
       (r, mk_nc (nc_card w) fl (nc_trace w)).

(** [machine.reset()]. *)
Definition machine_reset : Eff.M nc_world ota_outcome :=
  nc_emit NcReset;;
  mret OtaRestarted.

(** *** [src/NoteConfig.py] *)

Definition NotecardExceptionInfo (exception : exn) : Eff.M nc_world string :=
  lineno ← Eff.lift (exc_lineno exception);
  let s1 := decimal lineno in
  let s2 := exc_class_name exception in
  mret ("line " +:+ s1 +:+ ": " +:+ s2 +:+ ": "
        +:+ String.concat " " (exc_args exception)).

Definition sync_notecard (notecard : card_ref) : Eff.M nc_world unit :=
  Eff.try_except
    (let req := ReqHubSync in
     Transaction notecard req;;
     mret tt)
    (λ exception,
       info ← NotecardExceptionInfo exception;
       nc_print (LogSyncError info);;
       nc_sleep 5).

Definition send_sensor_data (notecard : card_ref) (data : note_body)
    : Eff.M nc_world unit :=
  let req := ReqNoteAdd true "data.qo" data in
  Eff.try_except
    (Transaction notecard req;;
     mret tt)
    (λ exception,
       info ← NotecardExceptionInfo exception;
       nc_print (LogTransactionError info);;
       nc_sleep 5).

(** *** [main.py] *)

Definition send_data_to_notecard (card : card_ref) (timestamp : string)
    (flat_dict : flat_record) : Eff.M nc_world unit :=
  let payload : note_body :=
    {[ "timestamp" := BodyStr timestamp; "data" := BodyDict flat_dict ]} in
  Eff.try_except
    (send_sensor_data card payload)
    (λ e, nc_print (LogSendWarning e)).

Definition sync_notecard_now (card : card_ref) : Eff.M nc_world unit :=
  Eff.try_except
    (sync_notecard card)
    (λ e, nc_print (LogSyncWarning e)).

(** [check_ota_update(card)].  [not rsp.get("pending")] holds for a
    missing key and for [False]; [not code] for a missing key and for the
    empty string.  The [return True] after [machine.reset()] is never
    reached. *)
Definition check_ota_update (card : card_ref) : Eff.M nc_world ota_outcome :=
  nc_print LogOtaChecking;;
  Transaction card (ReqCardDfu "stm32" true);;
  rsp ← Transaction card ReqHubFirmware;
  if negb (default false (rsp_pending rsp)) then
    nc_print LogOtaNone;;
    mret (OtaReturned false)
  else
    nc_print (LogOtaDetected rsp);;
    update ← Transaction card ReqHubFirmwareGet;
    match rsp_body update with
    | None | Some "" =>
        nc_print LogOtaBodyMissing;;
        mret (OtaReturned false)
    | Some code =>
        nc_print LogOtaWriting;;
        on_flash (f ← py_open MAIN_PY ModeW;
                  py_write f code);;
        nc_print LogOtaInstalled;;
        nc_print LogOtaRebooting;;
        nc_sleep 2;;
        machine_reset
    end.

(** [send_test_message(card)], with the clock reading [iso8601_now]
    gets.  Each [return False] of an [except] block ends the call: the
    flag says whether the block before was left that way. *)
Definition test_body (t : time_tuple) : note_body :=
  {[ "type" := BodyStr "test";
     "msg" := BodyStr "Hello from iSAT STM32!";
     "ts" := BodyStr (iso8601_now t) ]}.

Definition send_test_message (card : card_ref) (t : time_tuple)
    : Eff.M nc_world bool :=
  let body := test_body t in
  nc_print (LogTestSending body);;
  sent ← Eff.try_except
           (send_sensor_data card body;;
            mret true)
           (λ e, nc_print (LogTestSendError e);;
                 mret false);
  if sent : bool then
    nc_sleep 2;;
    synced ← Eff.try_except
               (sync_notecard_now card;;
                mret true)
               (λ e, nc_print (LogTestSyncError e);;
                     mret false);
    if synced : bool then
      nc_print LogTestSent;;
      mret true
    else mret false
  else mret false.

End Notecard.

Arguments mk_nc {C} nc_card nc_flash nc_trace.
Arguments nc_card {C} _.
Arguments nc_flash {C} _.
Arguments nc_trace {C} _.
Arguments nc_emit {C} ev.
Arguments nc_print {C} line.
Arguments nc_sleep {C} seconds.
Arguments Transaction {C} transaction card req.
Arguments on_flash {C A} m.
Arguments machine_reset {C}.
Arguments NotecardExceptionInfo {C} exc_lineno exc_class_name exc_args
  exception.
Arguments sync_notecard {C} transaction exc_lineno exc_class_name exc_args
  notecard.
Arguments send_sensor_data {C} transaction exc_lineno exc_class_name exc_args
  notecard data.
Arguments send_data_to_notecard {C} transaction exc_lineno exc_class_name
  exc_args card timestamp flat_dict.
Arguments sync_notecard_now {C} transaction exc_lineno exc_class_name exc_args
  card.
Arguments check_ota_update {C} transaction card.
Arguments send_test_message {C} transaction exc_lineno exc_class_name exc_args
  card t.

(** A scripted Notecard: its state is the list of the answers still to
    give; once the list is used up every request is answered with an
    empty response. *)
Definition scripted_card : Type := list (res response).

Definition script_transaction (c : scripted_card) (req : request)
    : res response * scripted_card :=
  match c with
  | r :: rest => (r, rest)
  | [] => (Ok (mk_rsp None None), [])
  end.

(** *** Vocabulary of the statements on the Notecard *)

(** Whether the handler of [send_sensor_data] and [sync_notecard] can
    build its message for [r]: it cannot when the line of the traceback
    is not to be had. *)
Definition info_fails (exc_lineno : exn → res nat) (r : res response) : bool :=
  match r with
  | Ok _ => false
  | Raise e => negb (is_ok (exc_lineno e))
  end.

Definition is_raise {A} (r : res A) : bool := negb (is_ok r).

(** The program the Notecard offers from state [c], if it offers one:
    the answer to [hub.firmware] has a true ["pending"] and the answer to
    [hub.firmware.get] has a non-empty ["body"]. *)
Definition firmware_offer {C} (transaction : C → request → res response * C)
    (c : C) : option string :=
  let answer1 := transaction c (ReqCardDfu "stm32" true) in
  let answer2 := transaction answer1.2 ReqHubFirmware in
  let answer3 := transaction answer2.2 ReqHubFirmwareGet in
  match answer1.1, answer2.1, answer3.1 with
  | Ok _, Ok rsp, Ok update =>
      match rsp_pending rsp, rsp_body update with
      | Some true, Some (String a code) => Some (String a code)
      | _, _ => None
      end
  | _, _, _ => None
  end.

(** What a call wrapped around one transaction [req] did, going from [w]
    with outcome [run]: it returned, made that transaction and no other,
    touched no file, and waited 5 seconds exactly when the transaction
    failed and the message on the failure could be built. *)
Definition one_transaction {C} (transaction : C → request → res response * C)
    (exc_lineno : exn → res nat) (req : request) (w : nc_world C)
    (run : res unit * nc_world C) : Prop :=
  let answer := transaction (nc_card w) req in
  run.1 = Ok tt
  ∧ nc_card run.2 = answer.2
  ∧ nc_flash run.2 = nc_flash w
  ∧ ∃ evs,
      nc_trace run.2 = nc_trace w ++ NcTransaction req :: evs
      ∧ transactions evs = []
      ∧ (NcSleep 5 ∈ evs
         ↔ is_raise answer.1 = true ∧ info_fails exc_lineno answer.1 = false)
      ∧ (is_raise answer.1 = false → evs = []).

(** * Properties *)

(** ** RegisterCodec *)

Lemma testbit_small (v n k : Z) :
  0 ≤ v < 2 ^ k → 0 ≤ k ≤ n → Z.testbit v n = false.
Proof.
  intros Hv Hk.
  rewrite <- (Z.mod_small v (2 ^ k)) by lia.
  rewrite <- Z.land_ones by lia.
  rewrite Z.land_spec, Z.testbit_ones by lia.
  replace (n <? k) with false by (symmetry; apply Z.ltb_ge; lia).
  rewrite andb_false_r. apply andb_false_r.
Qed.

(** A word put above another one: the bitwise or is the sum. *)
Lemma lor_shiftl_add (hi lo k : Z) :
  0 ≤ k → 0 ≤ lo < 2 ^ k → Z.lor (Z.shiftl hi k) lo = hi * 2 ^ k + lo.
Proof.
  intros Hk Hlo.
  rewrite <- Z.shiftl_mul_pow2 by lia.
  rewrite <- Z.lxor_lor, <- Z.add_nocarry_lxor; try done.
  all: apply Z.bits_inj'; intros n Hn.
  all: rewrite Z.land_spec, Z.bits_0.
  all: destruct (Z.lt_ge_cases n k).
  all: try (rewrite Z.shiftl_spec_low by lia; done).
  all: rewrite (testbit_small lo n k) by lia; apply andb_false_r.
Qed.

Lemma pack_unpack_bits (v : Z) :
  0 ≤ v < 2 ^ 32 →
  match pack_I v with
  | Ok bytes => unpack_f bytes
  | Raise e => Raise e
  end = Ok (binary32_of_bits v).
Proof.
  intros Hv. unfold pack_I.
  replace ((0 <=? v) && (v <? 2 ^ 32)) with true
    by (symmetry; apply andb_true_iff; split; [apply Z.leb_le | apply Z.ltb_lt]; lia).
  cbn [unpack_f]. f_equal. f_equal.
  apply Z.bits_inj'; intros n Hn.
  change 255 with (Z.ones 8).
  repeat rewrite Z.lor_spec.
  repeat rewrite Z.shiftl_spec by lia.
  repeat rewrite Z.land_spec.
  destruct (Z.lt_ge_cases n 8); [|destruct (Z.lt_ge_cases n 16); [|destruct (Z.lt_ge_cases n 24); [| destruct (Z.lt_ge_cases n 32)]]].
  all: repeat rewrite (Z.testbit_neg_r _ (n - _)) by lia.
  all: repeat rewrite Z.shiftr_spec by lia.
  all: repeat rewrite Z.testbit_ones by lia.
  all: repeat match goal with
         | |- context [?a <=? ?b] => 
             first [ replace (a <=? b) with true by (symmetry; apply Z.leb_le; lia)
                   | replace (a <=? b) with false by (symmetry; apply Z.leb_gt; lia) ]
         | |- context [?a <? ?b] => 
             first [ replace (a <? b) with true by (symmetry; apply Z.ltb_lt; lia)
                   | replace (a <? b) with false by (symmetry; apply Z.ltb_ge; lia) ]
         end.
  all: cbn [andb orb]; repeat rewrite andb_false_r; repeat rewrite andb_true_r; repeat rewrite orb_false_r; cbn [orb].
  all: try (f_equal; lia).
  symmetry. apply (testbit_small v n 32); lia.
Qed.

(** C1.  For two 16-bit words [hi], [lo] the decoder returns the binary32
    datum whose bit pattern is the 32-bit integer [hi * 2^16 + lo], with
    [hi] in the upper half; [[0x4228; 0x0000]] gives exactly 42 and
    [[0x0000; 0x0000]] gives exactly 0; a list of any other length is
    refused with [ValueError "Expected 2 registers"]. *)
Theorem modbus_registers_to_float_spec :
  (∀ hi lo : Z,
     0 ≤ hi < 2 ^ 16 → 0 ≤ lo < 2 ^ 16 →
     modbus_registers_to_float [hi; lo]
     = Ok (binary32_of_bits (hi * 2 ^ 16 + lo)))
  ∧ (∃ f : float,
       modbus_registers_to_float [0x4228; 0x0000] = Ok f
       ∧ float_value f = Some (Qmake 42 1))
  ∧ (∃ f : float,
       modbus_registers_to_float [0x0000; 0x0000] = Ok f
       ∧ float_value f = Some (Qmake 0 1))
  ∧ (∀ registers : list Z,
       length registers ≠ 2%nat →
       modbus_registers_to_float registers
       = Raise (ValueError "Expected 2 registers")).
Proof.
  split; [|split; [|split]].
  - intros hi lo Hhi Hlo. unfold modbus_registers_to_float.
    rewrite lor_shiftl_add by lia.
    apply pack_unpack_bits. nia.
  - eexists. split; [vm_compute; reflexivity | vm_compute; reflexivity].
  - eexists. split; [vm_compute; reflexivity | vm_compute; reflexivity].
  - intros [|a [|b [|c rest]]] Hlen; simpl in *; done.
Qed.

Lemma modbus_registers_to_float_spec_witness :
  modbus_registers_to_float [0x4228; 0x0001]
  = Ok (binary32_of_bits (0x4228 * 2 ^ 16 + 0x0001))
  ∧ modbus_registers_to_float [0x4228]
    = Raise (ValueError "Expected 2 registers").
Proof.
  split.
  - apply (proj1 modbus_registers_to_float_spec 0x4228 0x0001); lia.
  - apply (proj2 (proj2 (proj2 modbus_registers_to_float_spec)) [0x4228]).
    simpl. lia.
Defined.

(** ** AcquisitionEngine *)

Ltac eff_unfold :=
  unfold mbind, mret, eff_bind, eff_ret, Eff.bind, Eff.ret, Eff.try_except,
    Eff.lift, Eff.modify, Eff.get, Eff.raise in *.

Lemma bus_calls_app (tr1 tr2 : list event) :
  bus_calls (tr1 ++ tr2) = bus_calls tr1 ++ bus_calls tr2.
Proof. apply List.filter_app. Qed.

Lemma sleeps_app (tr1 tr2 : list event) :
  sleeps (tr1 ++ tr2) = sleeps tr1 ++ sleeps tr2.
Proof. apply List.filter_app. Qed.

Section AcquisitionFacts.

Context {T : Type}.
Context (drv_write : T → Z → Z → Z → res unit * T).
Context (drv_read : T → Z → Z → Z → bool → res (list Z) * T).


(** *** One parameter *)

(** An entry without a name or without an address: no bus call, the
    marker under the name it has. *)
Lemma read_param_invalid modbus sensor_id slave result p w :
  p_name p = None ∨ p_addr p = None →
  read_param drv_read modbus sensor_id slave result p w
  = (Ok (<[p_name p := None]> result),
     mk_world (bus w) (trace w ++ [Console (LogInvalidParam sensor_id p)])).
Proof.
  intros Hp. unfold read_param.
  destruct (p_name p) as [n|], (p_addr p) as [a|]; try done.
  all: by destruct Hp.
Qed.

(** A complete entry whose read gives a value. *)
Lemma read_param_ok modbus sensor_id slave result p w n a raw b v :
  p_name p = Some n → p_addr p = Some a →
  drv_read (bus w) slave a (default 2 (p_qty p)) false = (Ok raw, b) →
  modbus_registers_to_float raw = Ok v →
  read_param drv_read modbus sensor_id slave result p w
  = (Ok (<[Some n := Some v]> result),
     mk_world b (trace w ++ [BusRead slave a (default 2 (p_qty p)) false]
                         ++ [Console (LogValue (Some n) v)])).
Proof.
  intros Hn Ha Hrd Hdec. unfold read_param, read_holding_registers.
  rewrite Hn, Ha. eff_unfold. rewrite Hrd, Hdec. simpl.
  by rewrite <- app_assoc.
Qed.

(** A complete entry whose read fails: the marker goes under its name
    and nothing is raised. *)
Lemma read_param_failed modbus sensor_id slave result p w n a r b :
  p_name p = Some n → p_addr p = Some a →
  drv_read (bus w) slave a (default 2 (p_qty p)) false = (r, b) →
  read_failed r →
  ∃ e, read_param drv_read modbus sensor_id slave result p w
       = (Ok (<[Some n := None]> result),
          mk_world b (trace w ++ [BusRead slave a (default 2 (p_qty p)) false]
                              ++ [Console (LogReadFailed sensor_id (Some n) e)])).
Proof.
  intros Hn Ha Hrd Hfail. unfold read_param, read_holding_registers.
  rewrite Hn, Ha. eff_unfold. rewrite Hrd.
  destruct r as [raw|e]; simpl in *.
  - destruct (modbus_registers_to_float raw) as [v|e]; [done|].
    exists e. simpl. by rewrite <- app_assoc.
  - exists e. by rewrite <- app_assoc.
Qed.

(** Whatever the bus does, one iteration ends normally, assigns one key
    and makes the bus call of its entry. *)
Lemma read_param_total modbus sensor_id slave result p w :
  ∃ v w',
    read_param drv_read modbus sensor_id slave result p w
    = (Ok (<[p_name p := v]> result), w')
    ∧ bus_calls (trace w') = bus_calls (trace w) ++ expected_read slave p.
Proof.
  unfold expected_read.
  destruct (p_name p) as [n|] eqn:Hn, (p_addr p) as [a|] eqn:Ha.
  2-4: eexists _, _; split;
    [rewrite <- Hn; apply read_param_invalid; auto
    | simpl; rewrite bus_calls_app; simpl; by rewrite app_nil_r ].
  destruct (drv_read (bus w) slave a (default 2 (p_qty p)) false)
    as [r b] eqn:Hrd.
  destruct r as [raw|e].
  - destruct (modbus_registers_to_float raw) as [v|e] eqn:Hdec.
    + eexists _, _; split; [by eapply read_param_ok|].
      simpl. by rewrite !bus_calls_app.
    + destruct (read_param_failed modbus sensor_id slave result p w n a _ _
                  Hn Ha Hrd) as [e' ->]; [by simpl; rewrite Hdec|].
      eexists _, _; split; [done|]. simpl. by rewrite !bus_calls_app.
  - destruct (read_param_failed modbus sensor_id slave result p w n a _ _
                Hn Ha Hrd) as [e' ->]; [done|].
    eexists _, _; split; [done|]. simpl. by rewrite !bus_calls_app.
Qed.

(** *** The parameters of one device *)

Lemma read_params_app modbus sensor_id slave ps1 ps2 result w :
  read_params drv_read modbus sensor_id slave (ps1 ++ ps2) result w
  = match read_params drv_read modbus sensor_id slave ps1 result w with
    | (Ok r1, w1) => read_params drv_read modbus sensor_id slave ps2 r1 w1
    | (Raise e, w1) => (Raise e, w1)
    end.
Proof.
  revert result w. induction ps1 as [|p ps1 IH]; intros result w; [done|].
  simpl. eff_unfold.
  destruct (read_param drv_read modbus sensor_id slave result p w) as [[r|e] w1];
    [apply IH | done].
Qed.

(** The loop over the parameters always ends normally; it makes the bus
    calls of its entries in their order, assigns the names of its
    entries and nothing else. *)
Lemma read_params_total modbus sensor_id slave ps result w :
  ∃ r' w',
    read_params drv_read modbus sensor_id slave ps result w = (Ok r', w')
    ∧ bus_calls (trace w')
      = bus_calls (trace w) ++ concat (expected_read slave <$> ps)
    ∧ dom r' = dom result ∪ list_to_set (p_name <$> ps)
    ∧ (∀ k, k ∉ p_name <$> ps → r' !! k = result !! k).
Proof.
  revert result w. induction ps as [|p ps IH]; intros result w.
  - exists result, w. simpl. rewrite app_nil_r.
    split_and!; [done|done|set_solver|done].
  - destruct (read_param_total modbus sensor_id slave result p w)
      as (v & w1 & Hstep & Hcalls1).
    destruct (IH (<[p_name p := v]> result) w1)
      as (r' & w' & Hrest & Hcalls & Hdom & Hother).
    exists r', w'. simpl. eff_unfold. rewrite Hstep.
    split_and!; [done| | |].
    + rewrite Hcalls, Hcalls1. by rewrite <- app_assoc.
    + rewrite Hdom, dom_insert_L. set_solver.
    + intros k Hk. rewrite Hother by set_solver.
      apply lookup_insert_ne. set_solver.
Qed.

(** *** One device *)

Lemma read_sensor_invalid modbus sensor_id pr w :
  modbus = None ∨ invalid_profile pr →
  read_sensor drv_read modbus sensor_id pr w
  = (Ok ∅, mk_world (bus w) (trace w ++ [Console (LogInvalidProfile sensor_id)])).
Proof.
  unfold invalid_profile, read_sensor. intros Hinv.
  destruct modbus as [m|], (slave_addr pr) as [s|],
    (default [] (params pr)) as [|p ps]; try done.
  by destruct Hinv as [|[|]].
Qed.

Lemma read_sensor_valid modbus sensor_id pr w slave p ps :
  slave_addr pr = Some slave →
  params pr = Some (p :: ps) →
  read_sensor drv_read (Some modbus) sensor_id pr w
  = read_params drv_read modbus sensor_id slave (p :: ps) ∅
      (mk_world (bus w) (trace w ++ [Console (LogReading sensor_id slave)])).
Proof. intros Hs Hps. unfold read_sensor. by rewrite Hs, Hps. Qed.

(** Reading one device never raises, and makes the reads of its
    profile. *)
Lemma read_sensor_total modbus sensor_id pr w :
  ∃ values w',
    read_sensor drv_read (Some modbus) sensor_id pr w = (Ok values, w')
    ∧ bus_calls (trace w') = bus_calls (trace w) ++ profile_reads pr.
Proof.
  unfold profile_reads.
  destruct (slave_addr pr) as [s|] eqn:Hs.
  - destruct (params pr) as [[|p ps]|] eqn:Hps.
    2: { rewrite (read_sensor_valid _ _ _ _ _ _ _ Hs Hps).
         destruct (read_params_total modbus sensor_id s (p :: ps) ∅
           (mk_world (bus w) (trace w ++ [Console (LogReading sensor_id s)])))
           as (r & w' & -> & Hcalls & _).
         exists r, w'. split; [done|].
         rewrite Hcalls. simpl. rewrite bus_calls_app. simpl.
         by rewrite app_nil_r. }
    all: rewrite read_sensor_invalid
      by (right; right; unfold invalid_profile; by rewrite Hps).
    all: eexists _, _; split; [done|]; simpl.
    all: rewrite bus_calls_app; simpl; by rewrite !app_nil_r.
  - rewrite read_sensor_invalid by (right; by left).
    eexists _, _; split; [done|]. simpl.
    rewrite bus_calls_app. simpl. by rewrite !app_nil_r.
Qed.

(** *** The whole table *)

Lemma read_all_loop_cons modbus sensor_id pr rest data w :
  read_all_loop drv_read modbus ((sensor_id, pr) :: rest) data w
  = match read_sensor drv_read (Some modbus) sensor_id pr w with
    | (Ok values, w1) =>
        read_all_loop drv_read modbus rest (<[sensor_id := values]> data) w1
    | (Raise e, w1) =>
        read_all_loop drv_read modbus rest (<[sensor_id := ∅]> data)
          (mk_world (bus w1) (trace w1 ++ [Console (LogUnexpected sensor_id e)]))
    end.
Proof.
  cbn [read_all_loop]. eff_unfold.
  destruct (read_sensor drv_read (Some modbus) sensor_id pr w) as [[values|e] w1];
    [done|].
  unfold print, emit. by eff_unfold.
Qed.

Lemma read_all_loop_app modbus t1 t2 data w :
  read_all_loop drv_read modbus (t1 ++ t2) data w
  = match read_all_loop drv_read modbus t1 data w with
    | (Ok d1, w1) => read_all_loop drv_read modbus t2 d1 w1
    | (Raise e, w1) => (Raise e, w1)
    end.
Proof.
  revert data w. induction t1 as [|[id pr] t1 IH]; intros data w; [done|].
  rewrite <- app_comm_cons, !read_all_loop_cons.
  destruct (read_sensor drv_read (Some modbus) id pr w) as [[values|e] w1]; apply IH.
Qed.

Lemma read_all_loop_total modbus table data w :
  ∃ data' w',
    read_all_loop drv_read modbus table data w = (Ok data', w')
    ∧ bus_calls (trace w') = bus_calls (trace w) ++ table_reads table
    ∧ dom data' = dom data ∪ list_to_set table.*1
    ∧ (∀ id, id ∉ table.*1 → data' !! id = data !! id).
Proof.
  revert data w. induction table as [|[id pr] table IH]; intros data w.
  - exists data, w. unfold table_reads. simpl. rewrite app_nil_r.
    split_and!; [done|done|set_solver|done].
  - rewrite read_all_loop_cons.
    destruct (read_sensor_total modbus id pr w) as (values & w1 & -> & Hc1).
    destruct (IH (<[id := values]> data) w1)
      as (data' & w' & -> & Hcalls & Hdom & Hother).
    exists data', w'. split_and!; [done| | |].
    + rewrite Hcalls, Hc1. unfold table_reads. simpl.
      by rewrite <- app_assoc.
    + rewrite Hdom, dom_insert_L. set_solver.
    + intros k Hk. rewrite Hother by set_solver.
      apply lookup_insert_ne. set_solver.
Qed.

End AcquisitionFacts.

Section ActivationFacts.

Context {T : Type}.
Context (drv_write : T → Z → Z → Z → res unit * T).

(** One iteration of the activation loop never raises, does not sleep,
    and takes the larger of the running maximum and the profile's
    warm-up time before it looks at the activation fields. *)
Lemma activate_step_total modbus mx item w :
  ∃ w',
    activate_step drv_write modbus mx item w
    = (Ok (Z.max mx (warmup_of item)), w')
    ∧ sleeps (trace w') = sleeps (trace w).
Proof.
  destruct item as [id pr]. unfold activate_step, warmup_of. simpl.
  assert ((if default 0 (warmup_ms pr) >? mx
           then default 0 (warmup_ms pr) else mx)
          = Z.max mx (default 0 (warmup_ms pr))) as ->.
  { destruct (Z.gtb_spec (default 0 (warmup_ms pr)) mx); lia. }
  destruct (slave_addr pr) as [s|], (start_register pr) as [r|],
    (start_value pr) as [v|].
  2-8: eexists; split; [reflexivity|]; simpl;
    rewrite sleeps_app; simpl; by rewrite app_nil_r.
  unfold write_single_register. eff_unfold.
  destruct (drv_write (bus w) s r v) as [[[]|e] b]; simpl.
  all: eexists; split; [reflexivity|]; simpl.
  all: rewrite ?sleeps_app; simpl; by rewrite ?app_nil_r.
Qed.

(** A profile without a bus address: the iteration leaves the bus
    alone. *)
Lemma activate_step_no_slave modbus mx sensor_id pr w :
  slave_addr pr = None →
  activate_step drv_write modbus mx (sensor_id, pr) w
  = (Ok (Z.max mx (warmup_of (sensor_id, pr))),
     mk_world (bus w) (trace w ++ [Console (LogMissingActivation sensor_id)])).
Proof.
  intros Hs. unfold activate_step, warmup_of. simpl. rewrite Hs.
  by destruct (Z.gtb_spec (default 0 (warmup_ms pr)) mx);
    [rewrite Z.max_r by lia | rewrite Z.max_l by lia].
Qed.

Lemma activate_loop_total modbus table mx w :
  ∃ w',
    activate_loop drv_write modbus table mx w
    = (Ok (foldl Z.max mx (warmup_of <$> table)), w')
    ∧ sleeps (trace w') = sleeps (trace w).
Proof.
  revert mx w. induction table as [|item table IH]; intros mx w.
  - by exists w.
  - destruct (activate_step_total modbus mx item w) as (w1 & Hstep & Hs1).
    destruct (IH (Z.max mx (warmup_of item)) w1) as (w' & Hrest & Hs).
    exists w'. cbn [activate_loop]. eff_unfold. rewrite Hstep.
    split; [done | congruence].
Qed.

End ActivationFacts.

(** The running maximum is an upper bound of its start and of the list,
    and is one of them. *)
Lemma foldl_max_bound (ws : list Z) (mx : Z) :
  mx ≤ foldl Z.max mx ws ∧ (∀ x, x ∈ ws → x ≤ foldl Z.max mx ws).
Proof.
  revert mx. induction ws as [|x ws IH]; intros mx; simpl.
  - split; [lia | intros x Hx; by apply elem_of_nil in Hx].
  - destruct (IH (Z.max mx x)) as [H1 H2]. split; [lia|].
    intros y [->|Hy]%elem_of_cons; [lia | by apply H2].
Qed.

Lemma foldl_max_attained (ws : list Z) (mx : Z) :
  foldl Z.max mx ws = mx ∨ foldl Z.max mx ws ∈ ws.
Proof.
  revert mx. induction ws as [|x ws IH]; intros mx; simpl; [by left|].
  destruct (IH (Z.max mx x)) as [Heq|Hin].
  - rewrite Heq. destruct (Z.max_spec mx x) as [[_ ->]|[_ ->]];
      [right; left | by left].
  - right. by right.
Qed.

Section AcquisitionClaims.

Context {T : Type}.
Context (drv_write : T → Z → Z → Z → res unit * T).
Context (drv_read : T → Z → Z → Z → bool → res (list Z) * T).

Lemma read_sensor_params modbus sensor_id pr w slave ps :
  slave_addr pr = Some slave →
  params pr = Some ps → ps ≠ [] →
  read_sensor drv_read (Some modbus) sensor_id pr w
  = read_params drv_read modbus sensor_id slave ps ∅
      (mk_world (bus w) (trace w ++ [Console (LogReading sensor_id slave)])).
Proof.
  intros Hs Hps Hne. destruct ps as [|p ps]; [done|].
  by apply read_sensor_valid.
Qed.

(** The entry of a device in the snapshot is what reading that device
    returned, at the point of the cycle where its turn came. *)
Lemma read_all_loop_lookup modbus t1 sensor_id pr t2 data w data' w' :
  sensor_id ∉ t2.*1 →
  read_all_loop drv_read modbus (t1 ++ (sensor_id, pr) :: t2) data w
  = (Ok data', w') →
  ∃ d1 w1 values w2,
    read_all_loop drv_read modbus t1 data w = (Ok d1, w1)
    ∧ read_sensor drv_read (Some modbus) sensor_id pr w1 = (Ok values, w2)
    ∧ data' !! sensor_id = Some values.
Proof.
  intros Hfresh. rewrite read_all_loop_app.
  destruct (read_all_loop_total drv_read modbus t1 data w)
    as (d1 & w1 & -> & _).
  rewrite read_all_loop_cons.
  destruct (read_sensor_total drv_read modbus sensor_id pr w1)
    as (values & w2 & Hrd & _).
  rewrite Hrd.
  destruct (read_all_loop_total drv_read modbus t2
              (<[sensor_id := values]> d1) w2)
    as (d2 & w3 & -> & _ & _ & Hother).
  intros [= <- <-]. exists d1, w1, values, w2.
  split_and!; [done|done|].
  rewrite Hother by done. apply lookup_insert_eq.
Qed.

Lemma read_all_sensors_loop modbus table w :
  read_all_sensors drv_read (Some modbus) table w
  = read_all_loop drv_read modbus table ∅
      (mk_world (bus w) (trace w ++ [Console LogCollecting])).
Proof. done. Qed.

(** C6.  With a bus present and non-negative warm-up times, the
    activation loop ends with the maximum warm-up time of the whole
    table, whatever the activation fields are and whatever the driver
    answers; the loop itself does not sleep; after it the code sleeps
    once for that maximum, and not at all when it is zero. *)
Theorem activate_all_sensors_warmup modbus table (w : world T) :
  (∀ item, item ∈ table → 0 ≤ warmup_of item) →
  ∃ m w1,
    activate_loop drv_write modbus table 0 w = (Ok m, w1)
    ∧ (∀ item, item ∈ table → warmup_of item ≤ m)
    ∧ (table ≠ [] → ∃ item, item ∈ table ∧ warmup_of item = m)
    ∧ (table = [] → m = 0)
    ∧ sleeps (trace w1) = sleeps (trace w)
    ∧ activate_all_sensors drv_write (Some modbus) table w
      = (Ok tt,
         mk_world (bus w1)
           (trace w1 ++ (if m >? 0 then [Console (LogWarmup m); Sleep m]
                         else [])))
    ∧ sleeps (trace (activate_all_sensors drv_write (Some modbus) table w).2)
      = sleeps (trace w) ++ (if m >? 0 then [Sleep m] else []).
Proof.
  intros Hpos.
  destruct (activate_loop_total drv_write modbus table 0 w)
    as (w1 & Hloop & Hsl).
  exists (foldl Z.max 0 (warmup_of <$> table)), w1.
  destruct (foldl_max_bound (warmup_of <$> table) 0) as [Hge0 Hub].
  assert (activate_all_sensors drv_write (Some modbus) table w
          = (Ok tt,
             mk_world (bus w1)
               (trace w1
                ++ (if foldl Z.max 0 (warmup_of <$> table) >? 0
                    then [Console (LogWarmup (foldl Z.max 0 (warmup_of <$> table)));
                          Sleep (foldl Z.max 0 (warmup_of <$> table))]
                    else []))))
    as Hrun.
  { unfold activate_all_sensors. eff_unfold. rewrite Hloop.
    destruct (foldl Z.max 0 (warmup_of <$> table) >? 0);
      [|rewrite app_nil_r; by destruct w1].
    unfold print, sleep_ms, emit. eff_unfold. simpl.
    by rewrite <- app_assoc. }
  split_and!; [done| | | |done|done|].
  4: { rewrite Hrun. simpl. rewrite sleeps_app, Hsl.
       by destruct (foldl Z.max 0 (warmup_of <$> table) >? 0). }
  - intros item Hin. apply Hub, list_elem_of_fmap. by exists item.
  - intros Hne.
    destruct (foldl_max_attained (warmup_of <$> table) 0) as [Heq|Hin].
    + destruct table as [|item table']; [done|].
      exists item. split; [by left|].
      assert (warmup_of item ≤ foldl Z.max 0 (warmup_of <$> item :: table'))
        by (apply Hub, list_elem_of_fmap; exists item; split; [done|by left]).
      assert (0 ≤ warmup_of item) by (apply Hpos; by left).
      lia.
    + apply list_elem_of_fmap in Hin as (item & Heq & Hin). by exists item.
  - by intros ->.
Qed.

(** C9.  A profile whose bus address is [None] makes no bus call: its
    activation iteration only logs and leaves the bus as it was, and
    reading it only logs and returns an empty dictionary. *)
Theorem no_bus_address_no_transport (pr : profile) :
  slave_addr pr = None →
  (∀ modbus mx sensor_id (w : world T),
     ∃ mx',
       activate_step drv_write modbus mx (sensor_id, pr) w
       = (Ok mx',
          mk_world (bus w)
            (trace w ++ [Console (LogMissingActivation sensor_id)])))
  ∧ (∀ modbus sensor_id (w : world T),
       read_sensor drv_read modbus sensor_id pr w
       = (Ok ∅,
          mk_world (bus w)
            (trace w ++ [Console (LogInvalidProfile sensor_id)]))).
Proof.
  intros Hs. split.
  - intros modbus mx sensor_id w. eexists.
    by apply activate_step_no_slave.
  - intros modbus sensor_id w. apply read_sensor_invalid.
    right. by left.
Qed.

(** C8, as the code has it.  A parameter entry without a name or
    without a register address is logged and makes no bus call; the
    marker [None] is stored under the name the entry has (the key
    [None] when the name is the missing field), so the entry does appear
    in the readings of the device; the loop goes on with the remaining
    entries. *)
Theorem read_params_invalid_entry modbus sensor_id slave p rest result
    (w : world T) :
  p_name p = None ∨ p_addr p = None →
  read_params drv_read modbus sensor_id slave (p :: rest) result w
  = read_params drv_read modbus sensor_id slave rest
      (<[p_name p := None]> result)
      (mk_world (bus w) (trace w ++ [Console (LogInvalidParam sensor_id p)]))
  ∧ ∃ values w',
      read_params drv_read modbus sensor_id slave (p :: rest) result w
      = (Ok values, w')
      ∧ p_name p ∈ dom values
      ∧ bus_calls (trace w')
        = bus_calls (trace w) ++ concat (expected_read slave <$> rest).
Proof.
  intros Hp.
  assert (read_params drv_read modbus sensor_id slave (p :: rest) result w
          = read_params drv_read modbus sensor_id slave rest
              (<[p_name p := None]> result)
              (mk_world (bus w)
                 (trace w ++ [Console (LogInvalidParam sensor_id p)]))) as Heq.
  { cbn [read_params]. eff_unfold. by rewrite read_param_invalid. }
  split; [done|]. rewrite Heq.
  destruct (read_params_total drv_read modbus sensor_id slave rest
              (<[p_name p := None]> result)
              (mk_world (bus w)
                 (trace w ++ [Console (LogInvalidParam sensor_id p)])))
    as (values & w' & -> & Hcalls & Hdom & _).
  exists values, w'. split_and!; [done| |].
  - rewrite Hdom, dom_insert_L. set_solver.
  - rewrite Hcalls. simpl. rewrite bus_calls_app. simpl.
    by rewrite app_nil_r.
Qed.

(** C2, for parameter names that are pairwise distinct.  When the read
    of one parameter fails (the driver raises, or the registers do not
    decode), reading the device still ends normally: the marker [None]
    is stored under that parameter's name, every parameter read before
    it keeps the value it had, and the reads of all the parameters of
    the device are made, in declared order.  The polling pass over a table
    always ends normally, makes the reads of every device of the table
    in table order, and stores for each device what reading that device
    returned. *)
Theorem polling_failure_isolated modbus :
  (∀ sensor_id pr slave ps1 p ps2 n a (w : world T) r1 w1 r b,
     slave_addr pr = Some slave →
     params pr = Some (ps1 ++ p :: ps2) →
     NoDup (p_name <$> ps1 ++ p :: ps2) →
     p_name p = Some n → p_addr p = Some a →
     read_params drv_read modbus sensor_id slave ps1 ∅
       (mk_world (bus w) (trace w ++ [Console (LogReading sensor_id slave)]))
     = (Ok r1, w1) →
     drv_read (bus w1) slave a (default 2 (p_qty p)) false = (r, b) →
     read_failed r →
     ∃ values w',
       read_sensor drv_read (Some modbus) sensor_id pr w = (Ok values, w')
       ∧ values !! Some n = Some None
       ∧ (∀ k, k ∈ p_name <$> ps1 → values !! k = r1 !! k)
       ∧ bus_calls (trace w') = bus_calls (trace w) ++ profile_reads pr)
  ∧ (∀ table (w : world T),
       ∃ data w',
         read_all_sensors drv_read (Some modbus) table w = (Ok data, w')
         ∧ bus_calls (trace w') = bus_calls (trace w) ++ table_reads table
         ∧ ∀ t1 sensor_id pr t2,
             table = t1 ++ (sensor_id, pr) :: t2 →
             sensor_id ∉ t2.*1 →
             ∃ d1 w1 values w2,
               read_all_loop drv_read modbus t1 ∅
                 (mk_world (bus w) (trace w ++ [Console LogCollecting]))
               = (Ok d1, w1)
               ∧ read_sensor drv_read (Some modbus) sensor_id pr w1
                 = (Ok values, w2)
               ∧ data !! sensor_id = Some values).
Proof.
  split.
  - intros sensor_id pr slave ps1 p ps2 n a w r1 w1 r b
      Hs Hps Hnd Hn Ha Hpre Hrd Hfail.
    destruct (read_sensor_total drv_read modbus sensor_id pr w)
      as (values & w' & Hsens & Hcalls).
    exists values, w'. split_and!; [done| | |done].
    all: rewrite (read_sensor_params _ _ _ _ slave (ps1 ++ p :: ps2))
      in Hsens by (try done; by destruct ps1).
    all: rewrite read_params_app, Hpre in Hsens.
    all: cbn [read_params] in Hsens; eff_unfold.
    all: destruct (read_param_failed drv_read modbus sensor_id slave r1 p w1
                     n a r b Hn Ha Hrd Hfail) as [e He].
    all: rewrite He in Hsens.
    all: destruct (read_params_total drv_read modbus sensor_id slave ps2
           (<[Some n := None]> r1)
           (mk_world b
              (trace w1 ++ [BusRead slave a (default 2 (p_qty p)) false]
                        ++ [Console (LogReadFailed sensor_id (Some n) e)])))
      as (r' & w'' & Hrest & _ & _ & Hother).
    all: rewrite Hrest in Hsens; injection Hsens as <- <-.
    all: rewrite fmap_app, fmap_cons, Hn in Hnd.
    all: apply NoDup_app in Hnd as (Hnd1 & Hdisj & Hnd2).
    all: apply NoDup_cons in Hnd2 as [Hn2 _].
    + rewrite Hother by done. apply lookup_insert_eq.
    + intros k Hk. rewrite Hother.
      * apply lookup_insert_ne. intros <-. apply (Hdisj _ Hk). by left.
      * intros Hk2. apply (Hdisj _ Hk). by right.
  - intros table w. rewrite read_all_sensors_loop.
    destruct (read_all_loop_total drv_read modbus table ∅
                (mk_world (bus w) (trace w ++ [Console LogCollecting])))
      as (data & w' & Hloop & Hcalls & _).
    exists data, w'. split_and!; [done| |].
    + rewrite Hcalls. simpl. rewrite bus_calls_app. simpl.
      by rewrite app_nil_r.
    + intros t1 sensor_id pr t2 -> Hfresh.
      by eapply read_all_loop_lookup.
Qed.

(** C10.  With a bus present, the polling pass ends normally and the
    keys of the snapshot it returns are exactly the device ids of the
    table; a device whose profile is refused (no bus address, or no
    parameters) is mapped to the empty dictionary. *)
Theorem read_all_sensors_keys modbus table (w : world T) :
  ∃ data w',
    read_all_sensors drv_read (Some modbus) table w = (Ok data, w')
    ∧ dom data = list_to_set table.*1
    ∧ (NoDup table.*1 →
       ∀ sensor_id pr,
         (sensor_id, pr) ∈ table → invalid_profile pr →
         data !! sensor_id = Some ∅).
Proof.
  rewrite read_all_sensors_loop.
  destruct (read_all_loop_total drv_read modbus table ∅
              (mk_world (bus w) (trace w ++ [Console LogCollecting])))
    as (data & w' & Hloop & _ & Hdom & _).
  exists data, w'. split_and!; [done| |].
  - rewrite Hdom. set_solver.
  - intros Hnd sensor_id pr Hin Hinv.
    apply list_elem_of_split in Hin as (t1 & t2 & ->).
    rewrite fmap_app, fmap_cons in Hnd.
    apply NoDup_app in Hnd as (_ & _ & Hnd).
    apply NoDup_cons in Hnd as [Hfresh _].
    simpl in Hfresh.
    destruct (read_all_loop_lookup _ _ _ _ _ _ _ _ _ Hfresh Hloop)
      as (d1 & w1 & values & w2 & _ & Hrd & ->).
    rewrite read_sensor_invalid in Hrd by (by right).
    by injection Hrd as <- _.
Qed.

End AcquisitionClaims.

(** *** The statements at sample inputs *)

Lemma activate_all_sensors_warmup_witness :
  (∀ item, item ∈ SENSOR_PROFILES → 0 ≤ warmup_of item)
  ∧ ∃ m w1,
      activate_loop script_write Rs485 SENSOR_PROFILES 0 (sample_bus [])
      = (Ok m, w1)
      ∧ (∀ item, item ∈ SENSOR_PROFILES → warmup_of item ≤ m)
      ∧ (SENSOR_PROFILES ≠ [] →
         ∃ item, item ∈ SENSOR_PROFILES ∧ warmup_of item = m)
      ∧ (SENSOR_PROFILES = [] → m = 0)
      ∧ sleeps (trace w1) = sleeps (trace (sample_bus []))
      ∧ activate_all_sensors script_write (Some Rs485) SENSOR_PROFILES
          (sample_bus [])
        = (Ok tt,
           mk_world (bus w1)
             (trace w1 ++ (if m >? 0 then [Console (LogWarmup m); Sleep m]
                           else [])))
      ∧ sleeps (trace (activate_all_sensors script_write (Some Rs485)
                         SENSOR_PROFILES (sample_bus [])).2)
        = sleeps (trace (sample_bus []))
          ++ (if m >? 0 then [Sleep m] else []).
Proof.
  assert (∀ item, item ∈ SENSOR_PROFILES → 0 ≤ warmup_of item) as Hpos.
  { apply Forall_forall. unfold SENSOR_PROFILES, warmup_of.
    repeat constructor; simpl; lia. }
  split; [exact Hpos|].
  exact (activate_all_sensors_warmup script_write Rs485 SENSOR_PROFILES
           (sample_bus []) Hpos).
Defined.

Example activate_all_sensors_table :
  sleeps (trace (activate_all_sensors script_write (Some Rs485)
                   SENSOR_PROFILES (sample_bus [])).2)
  = [Sleep 400].
Proof. reflexivity. Qed.

Lemma no_bus_address_no_transport_witness :
  slave_addr KELLER = None
  ∧ (∀ modbus mx sensor_id (w : world scripted_bus),
       ∃ mx',
         activate_step script_write modbus mx (sensor_id, KELLER) w
         = (Ok mx',
            mk_world (bus w)
              (trace w ++ [Console (LogMissingActivation sensor_id)])))
  ∧ (∀ modbus sensor_id (w : world scripted_bus),
       read_sensor script_read modbus sensor_id KELLER w
       = (Ok ∅,
          mk_world (bus w)
            (trace w ++ [Console (LogInvalidProfile sensor_id)]))).
Proof.
  split; [reflexivity|].
  exact (no_bus_address_no_transport script_write script_read KELLER eq_refl).
Defined.

(** C8 as stated fails: an entry with a name and no register address
    puts its name, with the marker, into the readings of the device; an
    entry with no name puts the key [None] there. *)
Lemma invalid_entry_stored_counterexample :
  (read_sensor script_read (Some Rs485) "X"
     (mk_profile (Some 1) None None None
        (Some [mk_param (Some "t") None (Some 2)]))
     (sample_bus [])).1
  = Ok {[ Some "t" := None ]}
  ∧ (read_sensor script_read (Some Rs485) "X"
       (mk_profile (Some 1) None None None
          (Some [mk_param None (Some 10) (Some 2)]))
       (sample_bus [])).1
    = Ok {[ None := None ]}
  ∧ ({[ Some "t" := None ]} : readings) !! Some "t" = Some None
  ∧ ({[ None := None ]} : readings) !! None = Some None.
Proof. split_and!; reflexivity. Qed.

Lemma read_params_invalid_entry_witness :
  (p_name (mk_param (Some "t") None None) = None
   ∨ p_addr (mk_param (Some "t") None None) = None)
  ∧ ∃ values w',
      read_params script_read Rs485 "X" 1
        [mk_param (Some "t") None None; float_param "u" 12] ∅
        (sample_bus [Ok [0x4228; 0]])
      = (Ok values, w')
      ∧ Some "t" ∈ dom values
      ∧ bus_calls (trace w') = [BusRead 1 12 2 false].
Proof.
  split; [by right|].
  exact (proj2 (read_params_invalid_entry script_read Rs485 "X" 1
                  (mk_param (Some "t") None None) [float_param "u" 12] ∅
                  (sample_bus [Ok [0x4228; 0]]) (or_intror eq_refl))).
Defined.

(** C2 as stated fails for a device that lists one name twice: the
    first read gives 42, the second read times out, and the marker
    replaces the value that was read. *)
Lemma duplicate_name_overwritten_counterexample :
  let p1 := float_param "t" 10 in
  let p2 := float_param "t" 12 in
  let pr := mk_profile (Some 1) None None None (Some [p1; p2]) in
  let w := sample_bus [Ok [0x4228; 0]] in
  let w0 := mk_world (bus w) (trace w ++ [Console (LogReading "X" 1)]) in
  let after_first := read_params script_read Rs485 "X" 1 [p1] ∅ w0 in
  after_first.1 = Ok {[ Some "t" := Some f42 ]}
  ∧ read_failed (script_read (bus after_first.2) 1 12 2 false).1
  ∧ (read_sensor script_read (Some Rs485) "X" pr w).1
    = Ok {[ Some "t" := None ]}
  ∧ ¬ (∀ k, k ∈ p_name <$> [p1] →
            ({[ Some "t" := None ]} : readings) !! k
            = ({[ Some "t" := Some f42 ]} : readings) !! k).
Proof.
  split_and!; [reflexivity|exact I|reflexivity|].
  intros H. specialize (H (Some "t")).
  assert (Some "t" ∈ p_name <$> [float_param "t" 10]) as Hin by (by left).
  apply H in Hin. discriminate Hin.
Qed.

Lemma polling_failure_isolated_witness :
  let pa := float_param "a" 10 in
  let pb := float_param "b" 12 in
  let pc := float_param "c" 14 in
  let pr := mk_profile (Some 1) None None None (Some [pa; pb; pc]) in
  let w := sample_bus [Ok [0x4228; 0]; Raise (BusError ETIMEDOUT); Ok [0; 0]] in
  NoDup (p_name <$> [pa] ++ pb :: [pc])
  ∧ read_failed (Raise (BusError ETIMEDOUT))
  ∧ ∃ values w',
      read_sensor script_read (Some Rs485) "X" pr w = (Ok values, w')
      ∧ values !! Some "b" = Some None
      ∧ (∀ k, k ∈ p_name <$> [pa] →
              values !! k = ({[ Some "a" := Some f42 ]} : readings) !! k)
      ∧ bus_calls (trace w') = bus_calls (trace w) ++ profile_reads pr.
Proof.
  intros pa pb pc pr w.
  assert (NoDup (p_name <$> [pa] ++ pb :: [pc])) as Hnd.
  { apply (bool_decide_unpack _). by vm_compute. }
  split; [exact Hnd|]. split; [exact I|].
  exact (proj1 (polling_failure_isolated script_read Rs485)
           "X" pr 1 [pa] pb [pc] "b" 12 w
           {[ Some "a" := Some f42 ]}
           (mk_world ([], [Raise (BusError ETIMEDOUT); Ok [0; 0]])
              [Console (LogReading "X" 1); BusRead 1 10 2 false;
               Console (LogValue (Some "a") f42)])
           (Raise (BusError ETIMEDOUT)) ([], [Ok [0; 0]])
           eq_refl eq_refl Hnd eq_refl eq_refl eq_refl eq_refl I).
Defined.

Lemma read_all_sensors_keys_witness :
  let table := [("X", mk_profile (Some 1) None None None
                        (Some [float_param "t" 10]));
                ("Y", KELLER)] in
  let w := sample_bus [Ok [0x4228; 0]] in
  NoDup table.*1
  ∧ ("Y", KELLER) ∈ table
  ∧ invalid_profile KELLER
  ∧ ∃ data w',
      read_all_sensors script_read (Some Rs485) table w = (Ok data, w')
      ∧ dom data = list_to_set table.*1
      ∧ data !! "Y" = Some ∅.
Proof.
  intros table w.
  assert (NoDup table.*1) as Hnd
    by (apply (bool_decide_unpack _); by vm_compute).
  assert (("Y", KELLER) ∈ table) as Hin by (right; left).
  assert (invalid_profile KELLER) as Hinv by (by left).
  split_and!; [done|done|done|].
  destruct (read_all_sensors_keys script_read Rs485 table w)
    as (data & w' & Hrun & Hdom & Hempty).
  exists data, w'. split_and!; [done|done|].
  exact (Hempty Hnd "Y" KELLER Hin Hinv).
Defined.

(** The end-to-end scenario of the specification: device ["X"] answers
    [[0x4228; 0x0000]], device ["Y"] has no bus address. *)
Example read_all_sensors_scenario :
  (read_all_sensors script_read (Some Rs485)
     [("X", mk_profile (Some 1) None None None (Some [float_param "t" 10]));
      ("Y", KELLER)]
     (sample_bus [Ok [0x4228; 0]])).1
  = Ok {[ "X" := {[ Some "t" := Some f42 ]}; "Y" := ∅ ]}.
Proof. reflexivity. Qed.

(** ** RecordFlattener *)

Lemma str_app_nil (s : string) : "" +:+ s = s.
Proof. reflexivity. Qed.

Lemma str_app_cons (c : ascii) (s1 s2 : string) :
  String c s1 +:+ s2 = String c (s1 +:+ s2).
Proof. reflexivity. Qed.

Lemma flat_key_eq (d : string) (k : option string) :
  flat_key d k = d +:+ String "_" (format_key k).
Proof. reflexivity. Qed.

Lemma no_underscore_app (s1 s2 : string) :
  no_underscore (s1 +:+ String "_" s2) = false.
Proof.
  induction s1 as [|c s1 IH]; rewrite ?str_app_cons, ?str_app_nil;
    cbn [no_underscore]; [done|].
  by rewrite IH, andb_false_r.
Qed.

(** Two flat keys are equal only for the same device and the same
    rendered name, once underscores are kept out of one of the two
    sides. *)
Lemma flat_key_split (d1 d2 k1 k2 : string) :
  (no_underscore d1 = true ∧ no_underscore d2 = true)
  ∨ (no_underscore k1 = true ∧ no_underscore k2 = true) →
  d1 +:+ String "_" k1 = d2 +:+ String "_" k2 →
  d1 = d2 ∧ k1 = k2.
Proof.
  revert d2. induction d1 as [|c1 d1 IH]; intros [|c2 d2] Hno Heq;
    rewrite ?str_app_cons, ?str_app_nil in Heq; cbn [no_underscore] in Hno.
  - by injection Heq as ->.
  - injection Heq as <- ->. rewrite no_underscore_app in Hno.
    destruct Hno as [[_ Hno]|[Hno _]]; discriminate Hno.
  - injection Heq as -> <-. rewrite no_underscore_app in Hno.
    destruct Hno as [[Hno _]|[_ Hno]]; discriminate Hno.
  - injection Heq as -> Heq. destruct (IH d2) as [-> ->]; [|done|done].
    destruct Hno as [[H1 H2]|Hno]; [left|by right].
    apply andb_true_iff in H1 as [_ H1]. by apply andb_true_iff in H2 as [_ H2].
Qed.

Lemma format_key_inj (r : readings) (k1 k2 : option string) :
  renders_apart r → k1 ∈ dom r → k2 ∈ dom r →
  format_key k1 = format_key k2 → k1 = k2.
Proof.
  intros Hr H1 H2 Heq. destruct k1 as [s1|], k2 as [s2|]; simpl in Heq;
    subst; try done.
  all: destruct Hr; by split.
Qed.

Lemma flat_key_same_device (d : string) (k1 k2 : option string) :
  flat_key d k1 = flat_key d k2 → format_key k1 = format_key k2.
Proof.
  rewrite !flat_key_eq. intros Heq. apply (inj (String.append d)) in Heq.
  by injection Heq.
Qed.

(** The inner loop: what it assigns, what it leaves, how much it adds. *)
Lemma flatten_params_spec (d : string) (flat : flat_record) (r : readings) :
  renders_apart r →
  let flat' := flatten_params d r flat in
  (∀ k v, r !! k = Some v → flat' !! flat_key d k = Some v)
  ∧ (∀ key, (∀ k, k ∈ dom r → flat_key d k ≠ key) →
            flat' !! key = flat !! key)
  ∧ ((∀ k, k ∈ dom r → flat !! flat_key d k = None) →
     size flat' = (size flat + size r)%nat).
Proof.
  unfold flatten_params.
  apply (map_fold_weak_ind
    (λ flat' r, renders_apart r →
       (∀ k v, r !! k = Some v → flat' !! flat_key d k = Some v)
       ∧ (∀ key, (∀ k, k ∈ dom r → flat_key d k ≠ key) →
                 flat' !! key = flat !! key)
       ∧ ((∀ k, k ∈ dom r → flat !! flat_key d k = None) →
          size flat' = (size flat + size r)%nat))).
  - intros _. split_and!; [done|done|].
    intros _. rewrite map_size_empty. lia.
  - intros k v m acc Hk IH Hr.
    assert (renders_apart m) as Hm.
    { intros [H1 H2]. apply Hr. rewrite dom_insert_L. set_solver. }
    destruct (IH Hm) as (Hset & Hkeep & Hsize).
    assert (∀ k', k' ∈ dom m → flat_key d k' ≠ flat_key d k) as Hfresh.
    { intros k' Hk' Heq. apply flat_key_same_device in Heq.
      apply (format_key_inj (<[k:=v]> m)) in Heq; [|done|set_solver..].
      subst. apply elem_of_dom in Hk' as [? ?]. congruence. }
    split_and!.
    + intros k' v' [[-> ->]|[Hne Hk']]%lookup_insert_Some.
      * apply lookup_insert_eq.
      * rewrite lookup_insert_ne; [by apply Hset|].
        intros Heq. apply (Hfresh k'); [by apply elem_of_dom|done].
    + intros key Hkey. rewrite lookup_insert_ne.
      * apply Hkeep. intros k' Hk'. apply Hkey. set_solver.
      * apply Hkey. set_solver.
    + intros Hnone. rewrite map_size_insert_None.
      * rewrite Hsize by (intros k' Hk'; apply Hnone; set_solver).
        rewrite (map_size_insert_None k) by done. lia.
      * rewrite Hkeep by done. apply Hnone. set_solver.
Qed.

Lemma flatten_params_keys (d : string) (flat : flat_record) (r : readings) :
  ∀ key, is_Some (flatten_params d r flat !! key) →
         is_Some (flat !! key) ∨ ∃ k, k ∈ dom r ∧ key = flat_key d k.
Proof.
  unfold flatten_params.
  apply (map_fold_weak_ind
    (λ flat' r, ∀ key, is_Some (flat' !! key) →
       is_Some (flat !! key) ∨ ∃ k, k ∈ dom r ∧ key = flat_key d k)).
  - intros key Hkey. by left.
  - intros k v m acc Hk IH key Hkey.
    destruct (decide (flat_key d k = key)) as [<-|Hne].
    + right. exists k. split; [set_solver|done].
    + rewrite lookup_insert_ne in Hkey by done.
      destruct (IH key Hkey) as [?|(k' & Hk' & ->)]; [by left|].
      right. exists k'. split; [set_solver|done].
Qed.

Lemma one_side_plain_split (data : snapshot) d1 r1 k1 d2 r2 k2 :
  one_side_plain data →
  data !! d1 = Some r1 → k1 ∈ dom r1 →
  data !! d2 = Some r2 → k2 ∈ dom r2 →
  flat_key d1 k1 = flat_key d2 k2 →
  d1 = d2 ∧ format_key k1 = format_key k2.
Proof.
  intros Hplain Hd1 Hk1 Hd2 Hk2. rewrite !flat_key_eq. intros Heq.
  apply flat_key_split; [|done]. destruct Hplain as [Hdev|Hname].
  - left. split; apply Hdev, elem_of_dom; [by exists r1 | by exists r2].
  - right. split; [by apply (Hname d1 r1) | by apply (Hname d2 r2)].
Qed.

Lemma one_side_plain_insert (m : snapshot) d r :
  m !! d = None → one_side_plain (<[d := r]> m) → one_side_plain m.
Proof.
  intros Hd [Hdev|Hname]; [left|right].
  - intros d' Hd'. apply Hdev. rewrite dom_insert_L. set_solver.
  - intros d' r' k Hr' Hk. apply (Hname d' r' k); [|done].
    rewrite lookup_insert_ne; [done|congruence].
Qed.

Lemma readings_count_insert (m : snapshot) d r :
  m !! d = None →
  readings_count (<[d := r]> m) = (size r + readings_count m)%nat.
Proof.
  intros Hd. unfold readings_count.
  by rewrite (map_to_list_insert m d r Hd).
Qed.

(** The two loops together. *)
Lemma flatten_sensor_data_spec (data : snapshot) :
  one_side_plain data →
  (∀ d r, data !! d = Some r → renders_apart r) →
  (∀ d r k v, data !! d = Some r → r !! k = Some v →
              flatten_sensor_data data !! flat_key d k = Some v)
  ∧ (∀ key, is_Some (flatten_sensor_data data !! key) →
            ∃ d r k, data !! d = Some r ∧ k ∈ dom r ∧ key = flat_key d k)
  ∧ size (flatten_sensor_data data) = readings_count data.
Proof.
  unfold flatten_sensor_data.
  apply (map_fold_weak_ind
    (λ flat data,
       one_side_plain data →
       (∀ d r, data !! d = Some r → renders_apart r) →
       (∀ d r k v, data !! d = Some r → r !! k = Some v →
                   flat !! flat_key d k = Some v)
       ∧ (∀ key, is_Some (flat !! key) →
                 ∃ d r k, data !! d = Some r ∧ k ∈ dom r ∧ key = flat_key d k)
       ∧ size flat = readings_count data)).
  - intros _ _. split_and!; [done| |done].
    intros key [v Hv]. by rewrite lookup_empty in Hv.
  - intros d r m acc Hd IH Hplain Hrender.
    destruct IH as (Hset & Hkeys & Hsize).
    { by eapply one_side_plain_insert. }
    { intros d' r' Hr'. apply (Hrender d').
      rewrite lookup_insert_ne; [done|congruence]. }
    assert (renders_apart r) as Hr by (apply (Hrender d), lookup_insert_eq).
    destruct (flatten_params_spec d acc r Hr) as (Hnew & Hold & Hadd).
    assert (∀ d' r' k' k, m !! d' = Some r' → k' ∈ dom r' → k ∈ dom r →
                          flat_key d k ≠ flat_key d' k') as Hother.
    { intros d' r' k' k Hr' Hk' Hk Heq.
      destruct (one_side_plain_split (<[d := r]> m) d r k d' r' k')
        as [<- _]; try done.
      - apply lookup_insert_eq.
      - rewrite lookup_insert_ne; [done|congruence].
      - congruence. }
    split_and!.
    + intros d' r' k v [[<- <-]|[Hne Hr']]%lookup_insert_Some Hv.
      * by apply Hnew.
      * rewrite Hold; [by eapply Hset|].
        intros k0 Hk0. eapply Hother; [done| |done]. by apply elem_of_dom.
    + intros key Hkey.
      destruct (flatten_params_keys d acc r key Hkey)
        as [Hacc|(k & Hk & ->)].
      * destruct (Hkeys key Hacc) as (d' & r' & k' & Hr' & Hk' & ->).
        exists d', r', k'. split_and!; [|done|done].
        rewrite lookup_insert_ne; [done|congruence].
      * exists d, r, k. split_and!; [apply lookup_insert_eq|done|done].
    + rewrite Hadd; [rewrite Hsize, readings_count_insert by done; lia|].
      intros k Hk. apply eq_None_not_Some. intros Hsome.
      destruct (Hkeys _ Hsome) as (d' & r' & k' & Hr' & Hk' & Heq).
      by eapply Hother.
Qed.

(** C7, as the code has it.  When underscores are kept out of the device
    ids or out of the parameter names, and no device has both the key
    [None] and the name ["None"], the flat record has one key for each
    (device, parameter) pair of the snapshot: their number is the sum of
    the sizes of the readings, the keys are the texts [device_parameter],
    two different pairs never give the same key, and each key carries
    the value of its pair, the marker [None] included. *)
Theorem flatten_sensor_data_one_to_one (data : snapshot) :
  one_side_plain data →
  (∀ d r, data !! d = Some r → renders_apart r) →
  size (flatten_sensor_data data) = readings_count data
  ∧ (∀ key, key ∈ dom (flatten_sensor_data data) ↔
            ∃ d r k, data !! d = Some r ∧ k ∈ dom r ∧ key = flat_key d k)
  ∧ (∀ d1 r1 k1 d2 r2 k2,
       data !! d1 = Some r1 → k1 ∈ dom r1 →
       data !! d2 = Some r2 → k2 ∈ dom r2 →
       flat_key d1 k1 = flat_key d2 k2 → d1 = d2 ∧ k1 = k2)
  ∧ (∀ d r k v,
       data !! d = Some r → r !! k = Some v →
       flatten_sensor_data data !! flat_key d k = Some v).
Proof.
  intros Hplain Hrender.
  destruct (flatten_sensor_data_spec data Hplain Hrender)
    as (Hset & Hkeys & Hsize).
  split_and!; [done| | |done].
  - intros key. rewrite elem_of_dom. split; [apply Hkeys|].
    intros (d & r & k & Hr & [v Hv]%elem_of_dom & ->).
    exists v. by eapply Hset.
  - intros d1 r1 k1 d2 r2 k2 Hr1 Hk1 Hr2 Hk2 Heq.
    destruct (one_side_plain_split data d1 r1 k1 d2 r2 k2) as [<- Hfmt];
      try done.
    split; [done|]. assert (r2 = r1) as -> by congruence.
    by apply (format_key_inj r1); [apply (Hrender d1)|..].
Qed.

(** C7 as stated fails: unique device ids do not keep two pairs from
    colliding.  Device ["a"] with parameter ["b_c"] and device ["a_b"]
    with parameter ["c"] give one key; so do the key [None] and the name
    ["None"] of one device. *)
Lemma flat_key_collision_counterexample :
  let data : snapshot :=
    {[ "a" := {[ Some "b_c" := None ]};
       "a_b" := {[ Some "c" := Some f42 ]} ]} in
  let data' : snapshot :=
    {[ "a" := {[ None := None; Some "None" := Some f42 ]} ]} in
  flat_key "a" (Some "b_c") = flat_key "a_b" (Some "c")
  ∧ readings_count data = 2%nat
  ∧ size (flatten_sensor_data data) = 1%nat
  ∧ flat_key "a" None = flat_key "a" (Some "None")
  ∧ readings_count data' = 2%nat
  ∧ size (flatten_sensor_data data') = 1%nat.
Proof. split_and!; reflexivity. Qed.

Lemma flatten_sensor_data_one_to_one_witness :
  let data : snapshot :=
    {[ "X" := {[ Some "t" := Some f42; Some "u" := None ]}; "Y_2" := ∅ ]} in
  one_side_plain data
  ∧ (∀ d r, data !! d = Some r → renders_apart r)
  ∧ size (flatten_sensor_data data) = 2%nat
  ∧ flatten_sensor_data data !! "X_u" = Some None.
Proof.
  intros data.
  assert (∀ d r, data !! d = Some r →
                 r = {[ Some "t" := Some f42; Some "u" := None ]} ∨ r = ∅)
    as Hcases.
  { intros d r [[_ <-]|[_ [_ <-]%lookup_singleton_Some]]%lookup_insert_Some;
      [by left | by right]. }
  assert (one_side_plain data) as Hplain.
  { right. intros d r k Hr Hk.
    destruct (Hcases d r Hr) as [-> | ->]; [|set_solver].
    rewrite dom_insert_L, dom_singleton_L in Hk.
    by apply elem_of_union in Hk as [H%elem_of_singleton|H%elem_of_singleton]; subst k. }
  assert (∀ d r, data !! d = Some r → renders_apart r) as Hrender.
  { intros d r Hr [Hnone _].
    destruct (Hcases d r Hr) as [-> | ->]; [|set_solver].
    rewrite dom_insert_L, dom_singleton_L in Hnone.
    by apply elem_of_union in Hnone as [H%elem_of_singleton|H%elem_of_singleton]. }
  split_and!; [done|done|..].
  - exact (proj1 (flatten_sensor_data_one_to_one data Hplain Hrender)).
  - exact (proj2 (proj2 (proj2 (flatten_sensor_data_one_to_one data Hplain Hrender)))
             "X" {[ Some "t" := Some f42; Some "u" := None ]} (Some "u") None
             eq_refl eq_refl).
Defined.

(** ** DurableLog *)

(** *** The order of [sorted] *)

Lemma ascii_compare_N (c1 c2 : ascii) :
  Ascii.compare c1 c2 = N.compare (N_of_ascii c1) (N_of_ascii c2).
Proof. reflexivity. Qed.

Lemma str_le_trans (s1 s2 s3 : string) :
  str_le s1 s2 → str_le s2 s3 → str_le s1 s3.
Proof.
  unfold str_le, String.leb.
  revert s2 s3. induction s1 as [|c1 s1 IH]; intros [|c2 s2] [|c3 s3];
    simpl; try done.
  rewrite !ascii_compare_N.
  destruct (N.compare_spec (N_of_ascii c1) (N_of_ascii c2)) as [H12|H12|H12];
    destruct (N.compare_spec (N_of_ascii c2) (N_of_ascii c3)) as [H23|H23|H23];
    try done.
  - rewrite H12, H23, N.compare_refl. apply IH.
  - intros _ _.
    by destruct (N.compare_spec (N_of_ascii c1) (N_of_ascii c3)); try lia.
  - intros _ _.
    by destruct (N.compare_spec (N_of_ascii c1) (N_of_ascii c3)); try lia.
  - intros _ _.
    by destruct (N.compare_spec (N_of_ascii c1) (N_of_ascii c3)); try lia.
Qed.

#[local] Instance str_le_transitive : Transitive str_le.
Proof. intros s1 s2 s3. apply str_le_trans. Qed.

#[local] Instance str_le_total : Total str_le.
Proof. intros s1 s2. apply String.leb_total. Qed.

#[local] Instance str_le_antisymm : AntiSymm (=) str_le.
Proof. intros s1 s2. apply String.leb_antisym. Qed.

(** [sorted] gives the keys in order, the same keys, and the same list
    whatever order they came in. *)
Lemma py_sorted_sorted (keys : list string) : Sorted str_le (py_sorted keys).
Proof. apply Sorted_merge_sort, _. Qed.

Lemma py_sorted_perm (keys : list string) : py_sorted keys ≡ₚ keys.
Proof. apply merge_sort_Permutation. Qed.

Lemma py_sorted_order_free (keys keys' : list string) :
  keys ≡ₚ keys' → py_sorted keys = py_sorted keys'.
Proof.
  intros Hperm. apply (Sorted_unique str_le); try apply py_sorted_sorted.
  by rewrite !py_sorted_perm.
Qed.

(** *** Recognising the header *)

Lemma prefix_rstrip (p s : string) :
  all_chars (λ c, negb (is_space c)) p = true →
  String.prefix p (rstrip s) = String.prefix p s.
Proof.
  revert p. induction s as [|c s IH]; intros p Hp; [done|].
  destruct p as [|pc p]; [by destruct (rstrip (String c s))|].
  simpl in Hp. apply andb_true_iff in Hp as [Hpc Hp].
  specialize (IH p Hp). cbn [rstrip].
  destruct (rstrip s) as [|c' r'] eqn:Hr.
  - destruct (is_space c) eqn:Hc; simpl.
    + destruct (ascii_dec pc c) as [->|]; [|done].
      by rewrite Hc in Hpc.
    + destruct (ascii_dec pc c); [|done]. by rewrite <- IH.
  - simpl. destruct (ascii_dec pc c); [|done]. by rewrite <- IH.
Qed.

Lemma prefix_first_line (p s : string) :
  all_chars (λ c, negb (Ascii.eqb c (ascii_of_nat 10))) p = true →
  String.prefix p (first_line s) = String.prefix p s.
Proof.
  revert s. induction p as [|pc p IH]; intros s Hp.
  - by destruct s, (first_line _).
  - simpl in Hp. apply andb_true_iff in Hp as [Hpc Hp].
    destruct s as [|c s]; [done|]. cbn [first_line].
    destruct (Ascii.eqb_spec c (ascii_of_nat 10)) as [->|Hc]; simpl.
    + destruct (ascii_dec pc (ascii_of_nat 10)) as [->|]; [|done].
      by rewrite Ascii.eqb_refl in Hpc.
    + destruct (ascii_dec pc c); [|done]. by apply IH.
Qed.

Lemma prefix_app (p s x : string) :
  String.prefix p s = true → String.prefix p (s +:+ x) = true.
Proof.
  revert s. induction p as [|pc p IH]; intros s.
  - intros _. by destruct (s +:+ x).
  - destruct s as [|c s]; [done|]. rewrite str_app_cons. simpl.
    destruct (ascii_dec pc c); [apply IH | done].
Qed.

Lemma lstrip_all_space (s : string) :
  all_chars is_space s = true → lstrip s = "".
Proof.
  induction s as [|c s IH]; simpl; [done|].
  intros [-> Hs]%andb_true_iff. by apply IH.
Qed.

Lemma has_header_scan (content : string) :
  has_header content = header_scan content.
Proof.
  unfold has_header, startswith, strip.
  induction content as [|c s IH]; [done|].
  cbn [first_line header_scan].
  destruct (Ascii.eqb_spec c (ascii_of_nat 10)) as [->|Hc]; [done|].
  cbn [lstrip]. destruct (is_space c) eqn:Hsp; [done|].
  rewrite prefix_rstrip by done.
  rewrite <- (prefix_first_line "timestamp" (String c s)) by done.
  cbn [first_line].
  by rewrite (proj2 (Ascii.eqb_neq c (ascii_of_nat 10)) Hc).
Qed.

Lemma header_scan_app (content added : string) :
  header_scan content = true → header_scan (content +:+ added) = true.
Proof.
  induction content as [|c s IH]; [done|]. rewrite str_app_cons.
  cbn [header_scan].
  destruct (Ascii.eqb c (ascii_of_nat 10)); [done|].
  destruct (is_space c); [done|].
  rewrite <- str_app_cons. apply prefix_app.
Qed.

Lemma has_header_app (content added : string) :
  has_header content = true → has_header (content +:+ added) = true.
Proof. rewrite !has_header_scan. apply header_scan_app. Qed.

Lemma has_header_line (keys rest : string) :
  has_header (("timestamp," +:+ keys) +:+ rest) = true.
Proof. by rewrite has_header_scan. Qed.

(** *** Steps on the card *)

Lemma str_app_nil_r (s : string) : s +:+ "" = s.
Proof. induction s as [|c s IH]; [done|]. by rewrite str_app_cons, IH. Qed.

Lemma str_app_assoc (s1 s2 s3 : string) :
  (s1 +:+ s2) +:+ s3 = s1 +:+ (s2 +:+ s3).
Proof.
  induction s1 as [|c s1 IH]; [done|]. by rewrite !str_app_cons, IH.
Qed.

Lemma grows_at_refl path w : grows_at path w w.
Proof. exists "". by rewrite str_app_nil_r. Qed.

Lemma grows_at_trans path w1 w2 w3 :
  grows_at path w1 w2 → grows_at path w2 w3 → grows_at path w1 w3.
Proof.
  intros [a1 H1] [a2 H2]. exists (a1 +:+ a2).
  by rewrite H2, H1, str_app_assoc.
Qed.

Lemma grows_at_same path w w' :
  files w' !! path = files w !! path → grows_at path w w'.
Proof.
  intros Heq. exists "". unfold file_content. by rewrite Heq, str_app_nil_r.
Qed.

Lemma fs_steps_refl ok w : fs_steps ok [] w w.
Proof.
  split_and!; [by rewrite app_nil_r | done |].
  intros path. split; [intros _; apply grows_at_refl | done].
Qed.

Lemma fs_steps_trans ok evs1 evs2 w1 w2 w3 :
  fs_steps ok evs1 w1 w2 → fs_steps ok evs2 w2 w3 →
  fs_steps ok (evs1 ++ evs2) w1 w3.
Proof.
  intros (Ht1 & Hok1 & Hf1) (Ht2 & Hok2 & Hf2).
  split_and!.
  - by rewrite Ht2, Ht1, app_assoc.
  - by apply Forall_app.
  - intros path. split.
    + intros Hw. apply (grows_at_trans _ _ w2).
      * apply Hf1. set_solver.
      * apply Hf2. set_solver.
    + intros Hno. rewrite (proj2 (Hf2 path)), (proj2 (Hf1 path)); set_solver.
Qed.

Lemma fs_steps_weaken (ok ok' : fs_event → Prop) evs w w' :
  (∀ ev, ok ev → ok' ev) → fs_steps ok evs w w' → fs_steps ok' evs w w'.
Proof.
  intros Himp (Ht & Hok & Hf). split_and!; [done| |done].
  by eapply Forall_impl.
Qed.

Lemma post_ret {A} (a : A) ok (Q : A → Prop) :
  Q a → post (mret a) ok Q.
Proof.
  intros Ha w r w' [= <- <-]. split; [|by intros ? [= <-]].
  exists []. apply fs_steps_refl.
Qed.

Lemma post_raise {A} e ok (Q : A → Prop) : post (Eff.raise e) ok Q.
Proof.
  intros w r w' [= <- <-]. split; [|done].
  exists []. apply fs_steps_refl.
Qed.

Lemma post_lift {A} (r : res A) ok (Q : A → Prop) :
  (∀ a, r = Ok a → Q a) → post (Eff.lift r) ok Q.
Proof.
  intros Hr w r' w' [= <- <-]. split; [|done].
  exists []. apply fs_steps_refl.
Qed.

Lemma post_bind {A B} (m : Eff.M fs_world A) (k : A → Eff.M fs_world B)
    ok (Q : A → Prop) (Q' : B → Prop) :
  post m ok Q → (∀ a, Q a → post (k a) ok Q') → post (m ≫= k) ok Q'.
Proof.
  intros Hm Hk w r w'. eff_unfold.
  destruct (m w) as [[a|e] w1] eqn:Hrun.
  - destruct (Hm _ _ _ Hrun) as [[evs1 H1] Ha]. intros Hrun2.
    destruct (Hk a (Ha a eq_refl) _ _ _ Hrun2) as [[evs2 H2] Hb].
    split; [|done]. exists (evs1 ++ evs2). by eapply fs_steps_trans.
  - intros [= <- <-]. split; [|done]. by destruct (Hm _ _ _ Hrun).
Qed.

Lemma post_try {A} (body : Eff.M fs_world A) handler ok (Q : A → Prop) :
  post body ok Q → (∀ e, post (handler e) ok Q) →
  post (Eff.try_except body handler) ok Q.
Proof.
  intros Hb Hh w r w'. eff_unfold.
  destruct (body w) as [[a|e] w1] eqn:Hrun.
  - intros [= <- <-]. by apply (Hb _ _ _ Hrun).
  - destruct (Hb _ _ _ Hrun) as [[evs1 H1] _]. intros Hrun2.
    destruct (Hh e _ _ _ Hrun2) as [[evs2 H2] Ha].
    split; [|done]. exists (evs1 ++ evs2). by eapply fs_steps_trans.
Qed.

Lemma post_weaken {A} (m : Eff.M fs_world A) (ok ok' : fs_event → Prop)
    (Q Q' : A → Prop) :
  (∀ ev, ok ev → ok' ev) → (∀ a, Q a → Q' a) →
  post m ok Q → post m ok' Q'.
Proof.
  intros Hok HQ Hm w r w' Hrun.
  destruct (Hm _ _ _ Hrun) as [[evs H] Ha].
  split; [|by intros a ->; apply HQ, Ha].
  exists evs. by eapply fs_steps_weaken.
Qed.

(** One call whose effect on the files is [f]: the shape of the three
    primitives. *)
Lemma fs_steps_one ok ev w (fs' : gmap string string) flt :
  ok ev →
  (∀ path, (ev ≠ FsOpen path ModeW →
            ∃ added, default "" (fs' !! path)
                     = file_content w path +:+ added)
           ∧ (event_path ev ≠ Some path → fs' !! path = files w !! path)) →
  fs_steps ok [ev] w (mk_fs fs' flt (fs_trace w ++ [ev])).
Proof.
  intros Hok Hf. split_and!; [done|by constructor|].
  intros path. destruct (Hf path) as [Hg Hu]. split.
  - intros Hw. apply Hg. intros ->. apply Hw. by left.
  - intros Hno. apply Hu, Hno. by left.
Qed.

Lemma post_py_open path mode ok :
  ok (FsOpen path mode) →
  post (py_open path mode) ok (λ f, f = mk_handle path mode).
Proof.
  intros Hok w r w'. unfold py_open, fs_call, set_file. eff_unfold.
  assert (∀ flt, fs_steps ok [FsOpen path mode] w
            (mk_fs (files w) flt (fs_trace w ++ [FsOpen path mode]))) as Hsame.
  { intros flt. apply fs_steps_one; [done|]. intros p. split; [|done].
    intros _. exists "". by rewrite str_app_nil_r. }
  assert (∀ flt, mode ≠ ModeR →
            (mode = ModeA → files w !! path = None) →
            fs_steps ok [FsOpen path mode] w
              (mk_fs (<[path := ""]> (files w)) flt
                 (fs_trace w ++ [FsOpen path mode]))) as Hnew.
  { intros flt Hmode Habs. apply fs_steps_one; [done|]. intros p. split.
    - intros Hne. destruct (decide (p = path)) as [->|Hp].
      + destruct mode; [done|done|]. exists "".
        unfold file_content. rewrite lookup_insert_eq, Habs by done.
        by rewrite str_app_nil_r.
      + exists "". unfold file_content.
        by rewrite lookup_insert_ne, str_app_nil_r.
    - simpl. intros Hne. rewrite lookup_insert_ne; [done|congruence]. }
  destruct (faults w) as [|[] flt] eqn:Hflt; simpl.
  2: { intros [= <- <-]. split; [|done]. eexists. apply Hsame. }
  all: destruct mode, (files w !! path) eqn:Hlk; simpl.
  all: intros [= <- <-]; (split; [|by intros ? [= <-]]); eexists.
  all: first [ apply Hsame | by apply Hnew ].
Qed.

Lemma post_py_readline f ok :
  ok (FsReadline (h_path f)) →
  post (py_readline f) ok (λ _, True).
Proof.
  intros Hok w r w'. unfold py_readline, fs_call. eff_unfold.
  assert (∀ flt, fs_steps ok [FsReadline (h_path f)] w
            (mk_fs (files w) flt (fs_trace w ++ [FsReadline (h_path f)])))
    as Hsame.
  { intros flt. apply fs_steps_one; [done|]. intros p. split; [|done].
    intros _. exists "". by rewrite str_app_nil_r. }
  destruct (faults w) as [|[] flt]; simpl.
  2: { intros [= <- <-]. split; [|done]. eexists. apply Hsame. }
  all: destruct (h_mode f); simpl.
  all: intros [= <- <-]; (split; [|done]); eexists; apply Hsame.
Qed.

Lemma post_py_write f data ok :
  ok (FsWrite (h_path f) data) →
  post (py_write f data) ok (λ _, True).
Proof.
  intros Hok w r w'. unfold py_write, fs_call, set_file. eff_unfold.
  assert (∀ flt, fs_steps ok [FsWrite (h_path f) data] w
            (mk_fs (files w) flt (fs_trace w ++ [FsWrite (h_path f) data])))
    as Hsame.
  { intros flt. apply fs_steps_one; [done|]. intros p. split; [|done].
    intros _. exists "". by rewrite str_app_nil_r. }
  assert (∀ flt, fs_steps ok [FsWrite (h_path f) data] w
            (mk_fs (<[h_path f := file_content w (h_path f) +:+ data]> (files w))
               flt (fs_trace w ++ [FsWrite (h_path f) data]))) as Hnew.
  { intros flt. apply fs_steps_one; [done|]. intros p. split.
    - intros _. destruct (decide (p = h_path f)) as [->|Hp].
      + exists data. by rewrite lookup_insert_eq.
      + exists "". unfold file_content.
        by rewrite lookup_insert_ne, str_app_nil_r.
    - simpl. intros Hne. rewrite lookup_insert_ne; [done|congruence]. }
  destruct (faults w) as [|[] flt]; simpl.
  2: { intros [= <- <-]. split; [|done]. eexists. apply Hsame. }
  all: destruct (h_mode f); simpl.
  all: intros [= <- <-]; (split; [|done]); eexists.
  all: first [ apply Hsame | apply Hnew ].
Qed.

Lemma post_fs_print line ok :
  ok (FsPrint line) → post (fs_print line) ok (λ _, True).
Proof.
  intros Hok w r w'. unfold fs_print. eff_unfold.
  intros [= <- <-]. split; [|done]. eexists.
  apply fs_steps_one; [done|]. intros p. split; [|done].
  intros _. exists "". by rewrite str_app_nil_r.
Qed.

Section DurableLogFacts.

Context (py_str : pyvalue → string).
Context (json_dumps : gmap string json_value → string).

(** *** What each function may touch, whatever fails *)

Lemma post_csv_header_found path :
  post (csv_header_found path) (reads_of path) (λ _, True).
Proof.
  unfold csv_header_found. apply post_try; [|intros e; by apply post_ret].
  eapply post_bind; [apply post_py_open; by left|].
  intros f ->. eapply post_bind; [apply post_py_readline; by right|].
  intros line _. by apply post_ret.
Qed.

Lemma post_ensure_csv_header path flat :
  post (ensure_csv_header path flat) (on_file path) (λ _, True).
Proof.
  unfold ensure_csv_header. eapply post_bind.
  { eapply post_weaken; [| |apply post_csv_header_found]; [|done].
    by intros ev [->| ->]. }
  intros [] _; [by apply post_ret|].
  eapply post_bind; [by apply post_py_open|].
  intros f ->. by apply post_py_write.
Qed.

Lemma post_append_csv_row path ts flat :
  post (append_csv_row py_str path ts flat) (appends_to path) (λ _, True).
Proof.
  unfold append_csv_row.
  eapply (post_bind _ _ _ (λ _, True)); [by apply post_lift|].
  intros values _. eapply post_bind; [apply post_py_open; by left|].
  intros f ->. apply post_py_write. right. by eexists.
Qed.

Lemma post_append_jsonl_record path ts flat :
  post (append_jsonl_record json_dumps path ts flat) (appends_to path)
    (λ _, True).
Proof.
  unfold append_jsonl_record. eapply post_bind; [apply post_py_open; by left|].
  intros f ->. apply post_py_write. right. by eexists.
Qed.

Lemma post_csv_steps csv ts flat :
  post (csv_steps py_str csv ts flat) (on_file csv) (λ _, True).
Proof.
  unfold csv_steps. eapply post_bind; [apply post_ensure_csv_header|].
  intros _ _. eapply post_weaken; [| |apply post_append_csv_row]; [|done].
  by intros ev [->|[data ->]].
Qed.

(** The body of [save_to_sd], cut after the CSV steps. *)
Lemma save_to_sd_unfold card csv jsonl ts flat w :
  save_to_sd py_str json_dumps (Some card) csv jsonl ts flat w
  = match csv_steps py_str csv ts flat w with
    | (Ok _, w1) =>
        match append_jsonl_record json_dumps jsonl ts flat w1 with
        | (Ok _, w2) =>
            (Ok true,
             mk_fs (files w2) (faults w2) (fs_trace w2 ++ [FsPrint LogSdWritten]))
        | (Raise e, w2) =>
            (Ok false,
             mk_fs (files w2) (faults w2)
               (fs_trace w2 ++ [FsPrint (LogSdError e)]))
        end
    | (Raise e, w1) =>
        (Ok false,
         mk_fs (files w1) (faults w1) (fs_trace w1 ++ [FsPrint (LogSdError e)]))
    end.
Proof.
  unfold save_to_sd, csv_steps, fs_print. eff_unfold.
  destruct (ensure_csv_header csv flat w) as [[[]|e] w0]; [|done].
  destruct (append_csv_row py_str csv ts flat w0) as [[[]|e] w1]; [|done].
  by destruct (append_jsonl_record json_dumps jsonl ts flat w1)
    as [[[]|e] w2].
Qed.

(** *** Runs without faults *)

Lemma csv_header_found_ff path w :
  faults w = [] →
  ∃ tr, csv_header_found path w
        = (Ok (header_present w path), mk_fs (files w) [] tr).
Proof.
  destruct w as [fs flt tr]. simpl. intros ->.
  unfold csv_header_found, py_open, py_readline, header_present, fs_call,
    file_content, has_header.
  eff_unfold. simpl.
  destruct (fs !! path) as [content|] eqn:Hlk; simpl; [rewrite Hlk|];
    by eexists.
Qed.

Lemma ensure_csv_header_ff path flat w :
  faults w = [] →
  ∃ tr, ensure_csv_header path flat w
        = (Ok tt,
           mk_fs (if header_present w path then files w
                  else <[path := csv_header_line flat]> (files w)) [] tr).
Proof.
  intros Hff. unfold ensure_csv_header. eff_unfold.
  destruct (csv_header_found_ff path w Hff) as [tr ->].
  destruct (header_present w path); [by eexists|].
  unfold py_open, py_write, set_file, fs_call, file_content.
  eff_unfold. simpl.
  rewrite lookup_insert_eq, insert_insert_eq. by eexists.
Qed.

Lemma csv_values_ok (flat : flat_record) (keys : list string) :
  (∀ k, k ∈ keys → k ∈ dom flat) →
  csv_values py_str flat keys
  = Ok ((λ k, py_str (default None (flat !! k))) <$> keys).
Proof.
  induction keys as [|k keys IH]; intros Hin; [done|].
  cbn [csv_values]. rewrite IH by (intros; apply Hin; by right).
  assert (k ∈ dom flat) as [v Hv]%elem_of_dom by (apply Hin; by left).
  by rewrite fmap_cons, Hv.
Qed.

Lemma dict_keys_dom (flat : flat_record) k :
  k ∈ dict_keys flat ↔ k ∈ dom flat.
Proof.
  unfold dict_keys. rewrite elem_of_dom, list_elem_of_fmap. split.
  - intros ([k' v] & -> & Hin). exists v. by apply elem_of_map_to_list.
  - intros [v Hv]. exists (k, v). split; [done|].
    by apply elem_of_map_to_list.
Qed.

Lemma append_to_ff path data w :
  faults w = [] →
  ∃ tr, (f ← py_open path ModeA; py_write f data) w
        = (Ok tt,
           mk_fs (<[path := file_content w path +:+ data]> (files w)) [] tr).
Proof.
  destruct w as [fs flt tr]. simpl. intros ->.
  unfold py_open, py_write, set_file, fs_call, file_content.
  eff_unfold. simpl.
  destruct (fs !! path) as [content|] eqn:Hlk; simpl.
  - rewrite Hlk. by eexists.
  - rewrite lookup_insert_eq, insert_insert_eq. by eexists.
Qed.

Lemma append_csv_row_ff path ts flat w :
  faults w = [] →
  ∃ tr, append_csv_row py_str path ts flat w
        = (Ok tt,
           mk_fs (<[path := file_content w path
                            +:+ csv_row_line py_str ts flat]> (files w))
             [] tr).
Proof.
  intros Hff. unfold append_csv_row, Eff.lift, csv_row_line.
  rewrite csv_values_ok.
  - apply (append_to_ff path _ w Hff).
  - intros k Hk. apply dict_keys_dom.
    by rewrite <- (py_sorted_perm (dict_keys flat)).
Qed.

Lemma append_jsonl_record_ff path ts flat w :
  faults w = [] →
  ∃ tr, append_jsonl_record json_dumps path ts flat w
        = (Ok tt,
           mk_fs (<[path := file_content w path
                            +:+ jsonl_line json_dumps ts flat]> (files w))
             [] tr).
Proof. intros Hff. apply (append_to_ff path _ w Hff). Qed.

(** A save without faults: the header goes in when it is not there,
    then one row, then one JSON line, and the answer is [True]. *)
Lemma save_to_sd_ff card csv jsonl ts flat w :
  faults w = [] → csv ≠ jsonl →
  ∃ w',
    save_to_sd py_str json_dumps (Some card) csv jsonl ts flat w = (Ok true, w')
    ∧ faults w' = []
    ∧ files w' !! csv
      = Some ((if header_present w csv then file_content w csv
               else csv_header_line flat)
              +:+ csv_row_line py_str ts flat)
    ∧ files w' !! jsonl
      = Some (file_content w jsonl +:+ jsonl_line json_dumps ts flat).
Proof.
  intros Hff Hne. rewrite save_to_sd_unfold. unfold csv_steps. eff_unfold.
  destruct (ensure_csv_header_ff csv flat w Hff) as [tr0 ->].
  match goal with
  | |- context [append_csv_row _ _ _ _ ?w0] =>
      destruct (append_csv_row_ff csv ts flat w0 eq_refl) as [tr1 ->]
  end.
  match goal with
  | |- context [append_jsonl_record _ _ _ _ ?w1] =>
      destruct (append_jsonl_record_ff jsonl ts flat w1 eq_refl) as [tr2 ->]
  end.
  eexists. split_and!; [done|done|..]; simpl; unfold file_content; simpl.
  - rewrite lookup_insert_ne, lookup_insert_eq by done.
    unfold header_present.
    destruct (files w !! csv) as [content|] eqn:Hlk; simpl.
    + destruct (has_header content); [by rewrite Hlk|].
      by rewrite lookup_insert_eq.
    + by rewrite lookup_insert_eq.
  - rewrite lookup_insert_eq, lookup_insert_ne by done.
    destruct (header_present w csv); [done|].
    by rewrite lookup_insert_ne.
Qed.

(** *** A save, step by step *)

Lemma csv_header_found_ok path w :
  ∃ b w0, csv_header_found path w = (Ok b, w0).
Proof.
  unfold csv_header_found. eff_unfold.
  destruct (py_open path ModeR w) as [[f|e] w1]; [|by eexists _, _].
  destruct (py_readline f w1) as [[line|e] w2]; by eexists _, _.
Qed.

Lemma save_to_sd_run card csv jsonl ts flat w :
  save_to_sd py_str json_dumps (Some card) csv jsonl ts flat w
  = match csv_header_found csv w with
    | (Ok true, w0) =>
        Eff.try_except (save_tail py_str json_dumps csv jsonl ts flat)
          save_handler w0
    | (Ok false, w0) =>
        match py_open csv ModeW w0 with
        | (Ok f, w1) =>
            Eff.try_except
              (py_write f (csv_header_line flat);;
               save_tail py_str json_dumps csv jsonl ts flat)
              save_handler w1
        | (Raise e, w1) => save_handler e w1
        end
    | (Raise e, w0) => save_handler e w0
    end.
Proof.
  unfold save_to_sd, save_tail, save_handler, ensure_csv_header. eff_unfold.
  destruct (csv_header_found csv w) as [[[]|e] w0]; [done| |done].
  by destruct (py_open csv ModeW w0) as [[f|e] w1].
Qed.

Lemma post_save_handler e ok :
  (∀ line, ok (FsPrint line)) → post (save_handler e) ok (λ _, True).
Proof.
  intros Hok. unfold save_handler.
  eapply post_bind; [by apply post_fs_print|].
  intros _ _. by apply post_ret.
Qed.

Lemma post_save_tail csv jsonl ts flat :
  post (save_tail py_str json_dumps csv jsonl ts flat)
    (gentle_call csv jsonl) (λ _, True).
Proof.
  unfold save_tail. eapply post_bind.
  { eapply post_weaken; [| |apply post_append_csv_row]; [|done].
    intros ev H. right. by left. }
  intros _ _. eapply post_bind.
  { eapply post_weaken; [| |apply post_append_jsonl_record]; [|done].
    intros ev H. right. right. by left. }
  intros _ _. eapply post_bind.
  { apply post_fs_print. by repeat right. }
  intros _ _. by apply post_ret.
Qed.

Lemma gentle_call_save csv jsonl ev :
  gentle_call csv jsonl ev → save_call csv jsonl ev.
Proof.
  intros [[-> | ->]|[[->|[d ->]]|[H|H]]]; unfold save_call, on_file; simpl;
    auto.
Qed.

Lemma gentle_call_no_write csv jsonl :
  ¬ gentle_call csv jsonl (FsOpen csv ModeW).
Proof. by intros [[H|H]|[[H|[d H]]|[[H|[d H]]|H]]]. Qed.

Lemma save_call_jsonl csv jsonl mode :
  csv ≠ jsonl → save_call csv jsonl (FsOpen jsonl mode) → mode = ModeA.
Proof.
  intros Hne [H|[[H|[d H]]|H]]; try done.
  - injection H as ->. done.
  - by injection H.
Qed.

(** All that a save does is made of the calls of [save_call]. *)
Lemma post_save_to_sd sd csv jsonl ts flat :
  post (save_to_sd py_str json_dumps sd csv jsonl ts flat)
    (save_call csv jsonl) (λ _, True).
Proof.
  destruct sd as [card|]; cbn [save_to_sd].
  - apply post_try.
    + eapply post_bind.
      { eapply post_weaken; [| |apply post_ensure_csv_header]; [|done].
        intros ev H. by left. }
      intros _ _. eapply post_weaken; [| |apply post_save_tail]; [|done].
      apply gentle_call_save.
    + intros e. apply post_save_handler. intros line. by repeat right.
  - eapply post_bind; [apply post_fs_print; by repeat right|].
    intros _ _. by apply post_ret.
Qed.

Lemma fs_steps_events ok evs evs' w w' :
  fs_steps ok evs w w' → fs_trace w' = fs_trace w ++ evs' → evs' = evs.
Proof. intros (Ht & _) Ht'. rewrite Ht in Ht'. by apply app_inv_head in Ht'. Qed.

(** With the header found, a save does not open the CSV file for
    writing. *)
Lemma save_header_found card csv jsonl ts flat w w0 r w' :
  csv_header_found csv w = (Ok true, w0) →
  save_to_sd py_str json_dumps (Some card) csv jsonl ts flat w = (r, w') →
  ∃ evs, fs_steps (gentle_call csv jsonl) evs w w'.
Proof.
  intros Hfound. rewrite save_to_sd_run, Hfound. intros Hrun.
  destruct (post_csv_header_found csv _ _ _ Hfound) as [[evs0 H0] _].
  assert (post (Eff.try_except (save_tail py_str json_dumps csv jsonl ts flat)
                  save_handler) (gentle_call csv jsonl) (λ _, True)) as Hpost.
  { apply post_try; [apply post_save_tail|].
    intros e. apply post_save_handler. intros line. by repeat right. }
  destruct (Hpost _ _ _ Hrun) as [[evs1 H1] _].
  exists (evs0 ++ evs1). eapply fs_steps_trans; [|done].
  eapply fs_steps_weaken; [|done]. intros ev H. by left.
Qed.

(** With no header found, it does. *)
Lemma save_header_missing card csv jsonl ts flat w w0 r w' :
  csv_header_found csv w = (Ok false, w0) →
  save_to_sd py_str json_dumps (Some card) csv jsonl ts flat w = (r, w') →
  ∃ evs0 evs1,
    fs_trace w' = fs_trace w ++ evs0 ++ [FsOpen csv ModeW] ++ evs1.
Proof.
  intros Hfound. rewrite save_to_sd_run, Hfound. intros Hrun.
  destruct (post_csv_header_found csv _ _ _ Hfound) as [[evs0 (H0 & _)] _].
  destruct (py_open csv ModeW w0) as [r1 w1] eqn:Hopen.
  assert (fs_trace w1 = fs_trace w0 ++ [FsOpen csv ModeW]) as H1.
  { revert Hopen. unfold py_open, fs_call, set_file. eff_unfold.
    destruct (faults w0) as [|[] flt]; simpl;
      [destruct (files w0 !! csv)| |destruct (files w0 !! csv)]; simpl;
      by intros [= <- <-]. }
  assert (∃ evs1, fs_trace w' = fs_trace w1 ++ evs1) as [evs1 H2].
  { destruct r1 as [f|e].
    - assert (post (Eff.try_except
                      (py_write f (csv_header_line flat);;
                       save_tail py_str json_dumps csv jsonl ts flat)
                      save_handler) (λ _, True) (λ _, True)) as Hpost.
      { apply post_try; [|intros e; by apply post_save_handler].
        eapply post_bind; [by apply post_py_write|].
        intros _ _. eapply post_weaken; [| |apply post_save_tail]; done. }
      destruct (Hpost _ _ _ Hrun) as [[evs1 (H2 & _)] _]. by exists evs1.
    - destruct (post_save_handler e (λ _, True) (λ _, I) _ _ _ Hrun)
        as [[evs1 (H2 & _)] _]. by exists evs1. }
  exists evs0, evs1. rewrite H2, H1, H0. by rewrite <- !app_assoc.
Qed.

(** C3, as the code has it.  A save never raises: it answers [True] or
    [False].  Without a card it makes no call on the files, leaves them
    as they are and answers [False].  With a card the three steps run
    in one [try] block: when a CSV step fails the answer is [False]
    and no call is made on the JSONL file; when the CSV steps succeed
    the JSONL append is made, the answer tells whether it succeeded,
    and the CSV file stays as the CSV steps left it. *)
Theorem save_to_sd_sequential sd csv jsonl ts flat w :
  (∃ b w',
     save_to_sd py_str json_dumps sd csv jsonl ts flat w = (Ok b, w'))
  ∧ (sd = None →
     save_to_sd py_str json_dumps sd csv jsonl ts flat w
     = (Ok false,
        mk_fs (files w) (faults w) (fs_trace w ++ [FsPrint LogSdNotMounted])))
  ∧ (∀ card e w1,
       sd = Some card →
       csv_steps py_str csv ts flat w = (Raise e, w1) →
       save_to_sd py_str json_dumps sd csv jsonl ts flat w
       = (Ok false,
          mk_fs (files w1) (faults w1)
            (fs_trace w1 ++ [FsPrint (LogSdError e)]))
       ∧ (csv ≠ jsonl →
          ∃ evs, fs_trace w1 = fs_trace w ++ evs
                 ∧ ∀ ev, ev ∈ evs → event_path ev ≠ Some jsonl))
  ∧ (∀ card w1 r w2,
       sd = Some card →
       csv_steps py_str csv ts flat w = (Ok tt, w1) →
       append_jsonl_record json_dumps jsonl ts flat w1 = (r, w2) →
       save_to_sd py_str json_dumps sd csv jsonl ts flat w
       = (Ok (is_ok r),
          mk_fs (files w2) (faults w2)
            (fs_trace w2
             ++ [FsPrint match r with
                         | Ok _ => LogSdWritten
                         | Raise e => LogSdError e
                         end]))
       ∧ (csv ≠ jsonl → files w2 !! csv = files w1 !! csv)).
Proof.
  split_and!.
  - destruct sd as [card|]; [|by eexists _, _].
    rewrite save_to_sd_unfold.
    destruct (csv_steps py_str csv ts flat w) as [[[]|e] w1];
      [|by eexists _, _].
    destruct (append_jsonl_record json_dumps jsonl ts flat w1)
      as [[[]|e] w2]; by eexists _, _.
  - by intros ->.
  - intros card e w1 -> Hcsv. rewrite save_to_sd_unfold, Hcsv.
    split; [done|]. intros Hne.
    destruct (post_csv_steps csv ts flat _ _ _ Hcsv)
      as [[evs (Ht & Hok & _)] _].
    exists evs. split; [done|]. intros ev Hev.
    rewrite Forall_forall in Hok. rewrite (Hok ev Hev). congruence.
  - intros card w1 r w2 -> Hcsv Hjs. rewrite save_to_sd_unfold, Hcsv, Hjs.
    split; [by destruct r as [[]|e]|]. intros Hne.
    destruct (post_append_jsonl_record jsonl ts flat _ _ _ Hjs)
      as [[evs (Ht & Hok & Hf)] _].
    apply Hf. intros ev Hev. rewrite Forall_forall in Hok.
    destruct (Hok ev Hev) as [->|[d ->]]; simpl; congruence.
Qed.

(** C4, as the code has it.  In a save, the JSONL file is opened in
    append mode only and its old text is the start of its new text.
    The CSV file only grows as long as it is not opened in write mode;
    it is not when the header test finds the header, and it is, which
    empties it, when the test does not find one. *)
Theorem save_to_sd_append_only sd csv jsonl ts flat w r w' :
  csv ≠ jsonl →
  save_to_sd py_str json_dumps sd csv jsonl ts flat w = (r, w') →
  ∃ evs,
    fs_trace w' = fs_trace w ++ evs
    ∧ (∀ mode, FsOpen jsonl mode ∈ evs → mode = ModeA)
    ∧ grows_at jsonl w w'
    ∧ (FsOpen csv ModeW ∉ evs → grows_at csv w w')
    ∧ (∀ card w0,
         sd = Some card → csv_header_found csv w = (Ok true, w0) →
         FsOpen csv ModeW ∉ evs)
    ∧ (∀ card w0,
         sd = Some card → csv_header_found csv w = (Ok false, w0) →
         FsOpen csv ModeW ∈ evs).
Proof.
  intros Hne Hrun.
  destruct (post_save_to_sd sd csv jsonl ts flat _ _ _ Hrun)
    as [[evs Hsteps] _].
  pose proof Hsteps as (Ht & Hok & Hf).
  rewrite Forall_forall in Hok.
  assert (∀ mode, FsOpen jsonl mode ∈ evs → mode = ModeA) as Hjs.
  { intros mode Hin. eapply save_call_jsonl; [done|]. by apply Hok. }
  exists evs. split_and!; [done|done| | | |].
  - apply Hf. intros Hin. by apply Hjs in Hin.
  - apply Hf.
  - intros card w0 -> Hfound Hin.
    destruct (save_header_found _ _ _ _ _ _ _ _ _ Hfound Hrun)
      as [evs' Hsteps'].
    rewrite <- (fs_steps_events _ _ _ _ _ Hsteps' Ht) in Hsteps'.
    destruct Hsteps' as (_ & Hok' & _). rewrite Forall_forall in Hok'.
    by apply (gentle_call_no_write csv jsonl), Hok'.
  - intros card w0 -> Hfound.
    destruct (save_header_missing _ _ _ _ _ _ _ _ _ Hfound Hrun)
      as (evs0 & evs1 & Ht').
    rewrite <- (fs_steps_events _ _ _ _ _ Hsteps Ht').
    set_solver.
Qed.

Lemma dict_keys_perm (flat flat' : flat_record) :
  dom flat' = dom flat → dict_keys flat' ≡ₚ dict_keys flat.
Proof.
  intros Hdom. apply NoDup_Permutation.
  - apply NoDup_fst_map_to_list.
  - apply NoDup_fst_map_to_list.
  - intros k. by rewrite !dict_keys_dom, Hdom.
Qed.

Lemma header_present_after_save card csv jsonl ts flat w w1 :
  faults w = [] → csv ≠ jsonl →
  save_to_sd py_str json_dumps (Some card) csv jsonl ts flat w = (Ok true, w1) →
  faults w1 = [] ∧ header_present w1 csv = true.
Proof.
  intros Hff Hne Hrun.
  destruct (save_to_sd_ff card csv jsonl ts flat w Hff Hne)
    as (w1' & Hrun' & Hff1 & Hcsv & _).
  rewrite Hrun in Hrun'. injection Hrun' as <-.
  split; [done|]. unfold header_present. rewrite Hcsv.
  unfold header_present, file_content.
  destruct (files w !! csv) as [content|]; simpl.
  - destruct (has_header content) eqn:Hh; [by apply has_header_app|].
    apply has_header_line.
  - apply has_header_line.
Qed.

(** C5, as the code has it.  Without faults, [ensure_csv_header]
    writes the header exactly when the file is missing or when its
    first line, with the blanks around it removed, does not start with
    [timestamp]; the file then holds the header line alone.  The header
    line is [timestamp,] followed by the keys of the record, sorted and
    joined with commas; it is the same for any order in which the keys
    come and for any record with the same keys.  After a save that
    succeeded, a second save does not open the CSV file for writing and
    adds one row to it. *)
Theorem ensure_csv_header_rule path flat w :
  (faults w = [] →
   ∃ tr,
     ensure_csv_header path flat w
     = (Ok tt,
        mk_fs
          (match files w !! path with
           | Some content =>
               if startswith (strip (first_line content)) "timestamp"
               then files w
               else <[path := csv_header_line flat]> (files w)
           | None => <[path := csv_header_line flat]> (files w)
           end) [] tr))
  ∧ (csv_header_line flat
     = "timestamp," +:+ String.concat "," (py_sorted (dict_keys flat))
       +:+ newline
     ∧ Sorted str_le (py_sorted (dict_keys flat))
     ∧ (∀ k, k ∈ py_sorted (dict_keys flat) ↔ k ∈ dom flat)
     ∧ (∀ keys', keys' ≡ₚ dict_keys flat →
                 py_sorted keys' = py_sorted (dict_keys flat))
     ∧ (∀ flat' : flat_record,
          dom flat' = dom flat → csv_header_line flat' = csv_header_line flat))
  ∧ (∀ card jsonl ts1 ts2 flat2,
       faults w = [] → path ≠ jsonl →
       ∃ w1 w2 evs,
         save_to_sd py_str json_dumps (Some card) path jsonl ts1 flat w
         = (Ok true, w1)
         ∧ save_to_sd py_str json_dumps (Some card) path jsonl ts2 flat2 w1
           = (Ok true, w2)
         ∧ fs_trace w2 = fs_trace w1 ++ evs
         ∧ (FsOpen path ModeW ∉ evs)
         ∧ file_content w2 path
           = file_content w1 path +:+ csv_row_line py_str ts2 flat2).
Proof.
  split_and!.
  - intros Hff. destruct (ensure_csv_header_ff path flat w Hff) as [tr ->].
    exists tr. unfold header_present, has_header.
    by destruct (files w !! path).
  - done.
  - apply py_sorted_sorted.
  - intros k. by rewrite py_sorted_perm, dict_keys_dom.
  - intros keys'. apply py_sorted_order_free.
  - intros flat' Hdom. unfold csv_header_line.
    by rewrite (py_sorted_order_free _ _ (dict_keys_perm _ _ Hdom)).
  - intros card jsonl ts1 ts2 flat2 Hff Hne.
    destruct (save_to_sd_ff card path jsonl ts1 flat w Hff Hne)
      as (w1 & Hrun1 & _).
    destruct (header_present_after_save _ _ _ _ _ _ _ Hff Hne Hrun1)
      as [Hff1 Hpres].
    destruct (save_to_sd_ff card path jsonl ts2 flat2 w1 Hff1 Hne)
      as (w2 & Hrun2 & _ & Hcsv & _).
    destruct (csv_header_found_ff path w1 Hff1) as [tr Hfound].
    rewrite Hpres in Hfound, Hcsv.
    destruct (save_header_found _ _ _ _ _ _ _ _ _ Hfound Hrun2)
      as [evs (Ht & Hok & _)].
    exists w1, w2, evs. split_and!; [done|done|done| |].
    + intros Hin. rewrite Forall_forall in Hok.
      by apply (gentle_call_no_write path jsonl), Hok.
    + unfold file_content at 1. by rewrite Hcsv.
Qed.

End DurableLogFacts.

(** *** The statements at sample inputs *)

(** C3 as stated fails: the CSV file cannot be opened for writing, the
    save answers [False], and the JSONL file, which could have been
    appended to, is never opened. *)
Lemma csv_failure_skips_jsonl_counterexample :
  let w := sample_card None [false; true] in
  let run := save_to_sd sample_str sample_dumps (Some SDCard)
               CSV_PATH JSONL_PATH "2025-01-01T12:00:00Z" sample_flat w in
  run.1 = Ok false
  ∧ fs_trace run.2
    = [FsOpen CSV_PATH ModeR; FsOpen CSV_PATH ModeW;
       FsPrint (LogSdError (OSError EIO))]
  ∧ files run.2 !! JSONL_PATH = None
  ∧ (append_jsonl_record sample_dumps JSONL_PATH "2025-01-01T12:00:00Z"
       sample_flat run.2).1 = Ok tt.
Proof. split_and!; reflexivity. Qed.

Lemma save_to_sd_sequential_witness :
  let w := sample_card None [false; true] in
  let ts := "2025-01-01T12:00:00Z" in
  save_to_sd sample_str sample_dumps None CSV_PATH JSONL_PATH ts sample_flat w
  = (Ok false,
     mk_fs (files w) (faults w) (fs_trace w ++ [FsPrint LogSdNotMounted]))
  ∧ ∃ e w1,
      csv_steps sample_str CSV_PATH ts sample_flat w = (Raise e, w1)
      ∧ save_to_sd sample_str sample_dumps (Some SDCard) CSV_PATH JSONL_PATH
          ts sample_flat w
        = (Ok false,
           mk_fs (files w1) (faults w1)
             (fs_trace w1 ++ [FsPrint (LogSdError e)])).
Proof.
  intros w ts. split.
  - exact (proj1 (proj2 (save_to_sd_sequential sample_str sample_dumps None
                           CSV_PATH JSONL_PATH ts sample_flat w)) eq_refl).
  - exists (OSError EIO), (csv_steps sample_str CSV_PATH ts sample_flat w).2.
    split; [reflexivity|].
    exact (proj1 (proj1 (proj2 (proj2 (save_to_sd_sequential sample_str
             sample_dumps (Some SDCard) CSV_PATH JSONL_PATH ts sample_flat w)))
             SDCard (OSError EIO)
             (csv_steps sample_str CSV_PATH ts sample_flat w).2
             eq_refl eq_refl)).
Defined.

(** C4 as stated fails: a CSV file whose first line is not a header is
    opened in write mode, and its old text is not the start of its new
    text. *)
Lemma csv_truncated_counterexample :
  let w := sample_card (Some ("old data" +:+ newline)) [] in
  let run := save_to_sd sample_str sample_dumps (Some SDCard)
               CSV_PATH JSONL_PATH "2025-01-01T12:00:00Z" sample_flat w in
  run.1 = Ok true
  ∧ FsOpen CSV_PATH ModeW ∈ fs_trace run.2
  ∧ file_content w CSV_PATH = "old data" +:+ newline
  ∧ file_content run.2 CSV_PATH
    = "timestamp,X_t" +:+ newline
      +:+ "2025-01-01T12:00:00Z,42.0" +:+ newline
  ∧ ¬ grows_at CSV_PATH w run.2.
Proof.
  split_and!; [reflexivity| |reflexivity|reflexivity|].
  - do 2 right. left.
  - intros [added Hadd]. vm_compute in Hadd. discriminate Hadd.
Qed.

Lemma save_to_sd_append_only_witness :
  let w := sample_card (Some ("timestamp,X_t" +:+ newline)) [] in
  let run := save_to_sd sample_str sample_dumps (Some SDCard)
               CSV_PATH JSONL_PATH "2025-01-01T12:00:00Z" sample_flat w in
  CSV_PATH ≠ JSONL_PATH
  ∧ ∃ evs,
      fs_trace run.2 = fs_trace w ++ evs
      ∧ (∀ mode, FsOpen JSONL_PATH mode ∈ evs → mode = ModeA)
      ∧ grows_at JSONL_PATH w run.2
      ∧ (FsOpen CSV_PATH ModeW ∉ evs → grows_at CSV_PATH w run.2)
      ∧ (∀ card w0,
           Some SDCard = Some card →
           csv_header_found CSV_PATH w = (Ok true, w0) →
           FsOpen CSV_PATH ModeW ∉ evs)
      ∧ (∀ card w0,
           Some SDCard = Some card →
           csv_header_found CSV_PATH w = (Ok false, w0) →
           FsOpen CSV_PATH ModeW ∈ evs).
Proof.
  intros w run.
  assert (CSV_PATH ≠ JSONL_PATH) as Hne by discriminate.
  split; [exact Hne|].
  exact (save_to_sd_append_only sample_str sample_dumps (Some SDCard)
           CSV_PATH JSONL_PATH "2025-01-01T12:00:00Z" sample_flat w
           run.1 run.2 Hne eq_refl).
Defined.

(** C5 as stated fails: the first line of the file starts with a blank,
    not with [timestamp], and no header is written. *)
Lemma blank_before_header_counterexample :
  let content := " timestamp,old" +:+ newline in
  let w := sample_card (Some content) [] in
  let run := ensure_csv_header CSV_PATH sample_flat w in
  files w !! CSV_PATH = Some content
  ∧ String.prefix "timestamp" (first_line content) = false
  ∧ run.1 = Ok tt
  ∧ files run.2 = files w
  ∧ fs_trace run.2 = [FsOpen CSV_PATH ModeR; FsReadline CSV_PATH].
Proof. split_and!; reflexivity. Qed.

Lemma ensure_csv_header_rule_witness :
  let w := sample_card None [] in
  faults w = []
  ∧ CSV_PATH ≠ JSONL_PATH
  ∧ (∃ tr,
       ensure_csv_header CSV_PATH sample_flat w
       = (Ok tt, mk_fs {[ CSV_PATH := csv_header_line sample_flat ]} [] tr))
  ∧ ∃ w1 w2 evs,
      save_to_sd sample_str sample_dumps (Some SDCard) CSV_PATH JSONL_PATH
        "2025-01-01T12:00:00Z" sample_flat w = (Ok true, w1)
      ∧ save_to_sd sample_str sample_dumps (Some SDCard) CSV_PATH JSONL_PATH
          "2025-01-01T13:00:00Z" sample_flat w1 = (Ok true, w2)
      ∧ fs_trace w2 = fs_trace w1 ++ evs
      ∧ (FsOpen CSV_PATH ModeW ∉ evs)
      ∧ file_content w2 CSV_PATH
        = file_content w1 CSV_PATH
          +:+ csv_row_line sample_str "2025-01-01T13:00:00Z" sample_flat.
Proof.
  intros w.
  assert (CSV_PATH ≠ JSONL_PATH) as Hne by discriminate.
  split_and!; [reflexivity|exact Hne|..].
  - exact (proj1 (ensure_csv_header_rule sample_str sample_dumps
                    CSV_PATH sample_flat w) eq_refl).
  - exact (proj2 (proj2 (ensure_csv_header_rule sample_str sample_dumps
                           CSV_PATH sample_flat w))
             SDCard JSONL_PATH "2025-01-01T12:00:00Z" "2025-01-01T13:00:00Z"
             sample_flat eq_refl Hne).
Defined.

(** The end-to-end scenario of the specification on an empty card: the
    header [timestamp,X_t], then the row. *)
Example save_to_sd_scenario :
  file_content
    (save_to_sd sample_str sample_dumps (Some SDCard) CSV_PATH JSONL_PATH
       "2025-01-01T12:00:00Z" sample_flat (sample_card None [])).2 CSV_PATH
  = "timestamp,X_t" +:+ newline +:+ "2025-01-01T12:00:00Z,42.0" +:+ newline.
Proof. reflexivity. Qed.

(** * Further properties *)

(** ** Activation *)

Section ActivationCalls.

Context {T : Type}.
Context (drv_write : T → Z → Z → Z → res unit * T).

Lemma activate_step_calls modbus mx item (w : world T) :
  ∃ mx' w',
    activate_step drv_write modbus mx item w = (Ok mx', w')
    ∧ bus_calls (trace w') = bus_calls (trace w) ++ expected_write item.
Proof.
  destruct item as [id pr]. unfold activate_step, expected_write. simpl.
  destruct (slave_addr pr) as [s|], (start_register pr) as [r|],
    (start_value pr) as [v|].
  2-8: eexists _, _; split; [reflexivity|]; simpl;
    rewrite bus_calls_app; simpl; by rewrite !app_nil_r.
  unfold write_single_register. eff_unfold.
  destruct (drv_write (bus w) s r v) as [[[]|e] b]; simpl.
  all: eexists _, _; split; [reflexivity|]; simpl.
  all: rewrite ?bus_calls_app; simpl; by rewrite ?app_nil_r.
Qed.

Lemma activate_loop_calls modbus table mx (w : world T) :
  ∃ mx' w',
    activate_loop drv_write modbus table mx w = (Ok mx', w')
    ∧ bus_calls (trace w') = bus_calls (trace w) ++ table_writes table.
Proof.
  revert mx w. induction table as [|item table IH]; intros mx w.
  - exists mx, w. unfold table_writes. simpl. by rewrite app_nil_r.
  - destruct (activate_step_calls modbus mx item w) as (mx1 & w1 & Hstep & Hc1).
    destruct (IH mx1 w1) as (mx' & w' & Hrest & Hc).
    exists mx', w'. cbn [activate_loop]. eff_unfold. rewrite Hstep.
    split; [done|]. rewrite Hc, Hc1. unfold table_writes. simpl.
    by rewrite <- app_assoc.
Qed.

(** X1.  The activation phase never raises.  With a bus it makes one
    write for each item of the table that has its three activation
    fields, in table order and with the values of the profile, whether
    earlier writes failed or not; without a bus it makes no bus call and
    does not sleep. *)
Theorem activate_all_sensors_writes modbus table (w : world T) :
  (∃ w',
     activate_all_sensors drv_write (Some modbus) table w = (Ok tt, w')
     ∧ bus_calls (trace w') = bus_calls (trace w) ++ table_writes table)
  ∧ (∃ w',
       activate_all_sensors drv_write None table w = (Ok tt, w')
       ∧ bus w' = bus w
       ∧ bus_calls (trace w') = bus_calls (trace w)
       ∧ sleeps (trace w') = sleeps (trace w)).
Proof.
  split.
  - destruct (activate_loop_calls modbus table 0 w) as (mx & w1 & Hloop & Hc).
    unfold activate_all_sensors. eff_unfold. rewrite Hloop.
    destruct (mx >? 0).
    + unfold print, sleep_ms, emit. eff_unfold. simpl.
      eexists. split; [done|]. simpl.
      rewrite !bus_calls_app, Hc. simpl. by rewrite !app_nil_r.
    + by exists w1.
  - eexists. split; [reflexivity|]. simpl.
    rewrite bus_calls_app, sleeps_app. simpl. by rewrite !app_nil_r.
Qed.

End ActivationCalls.

(** ** Flattening, whatever the keys are *)

Lemma flatten_params_dom (d : string) (flat : flat_record) (r : readings) :
  dom (flatten_params d r flat) = dom flat ∪ set_map (flat_key d) (dom r).
Proof.
  unfold flatten_params.
  apply (map_fold_weak_ind
    (λ flat' r, dom flat' = dom flat ∪ set_map (flat_key d) (dom r))).
  - rewrite dom_empty_L. set_solver.
  - intros k v m acc Hk IH.
    rewrite !dom_insert_L, IH. set_solver.
Qed.

Lemma flatten_params_size (d : string) (flat : flat_record) (r : readings) :
  (size (flatten_params d r flat) ≤ size flat + size r)%nat.
Proof.
  unfold flatten_params.
  apply (map_fold_weak_ind
    (λ flat' r, (size flat' ≤ size flat + size r)%nat)).
  - rewrite map_size_empty. lia.
  - intros k v m acc Hk IH.
    rewrite (map_size_insert_None k v m Hk).
    destruct (acc !! flat_key d k) eqn:Hacc.
    + rewrite map_size_insert_Some by done. lia.
    + rewrite map_size_insert_None by done. lia.
Qed.

Lemma flatten_sensor_data_dom (data : snapshot) (key : string) :
  key ∈ dom (flatten_sensor_data data) ↔
  ∃ d r k, data !! d = Some r ∧ k ∈ dom r ∧ key = flat_key d k.
Proof.
  unfold flatten_sensor_data.
  apply (map_fold_weak_ind
    (λ flat data,
       key ∈ dom flat ↔
       ∃ d r k, data !! d = Some r ∧ k ∈ dom r ∧ key = flat_key d k)).
  - rewrite dom_empty_L. split; [set_solver|].
    intros (d & r & k & Hr & _). by rewrite lookup_empty in Hr.
  - intros d r m acc Hd IH. rewrite flatten_params_dom, elem_of_union, IH.
    split.
    + intros [(d' & r' & k & Hr' & Hk & ->)|Hin].
      * exists d', r', k. split_and!; [|done|done].
        rewrite lookup_insert_ne; [done|congruence].
      * apply elem_of_map in Hin as (k & -> & Hk).
        exists d, r, k. by rewrite lookup_insert_eq.
    + intros (d' & r' & k & Hr' & Hk & ->).
      apply lookup_insert_Some in Hr' as [[<- <-]|[Hne Hr']].
      * right. apply elem_of_map. by exists k.
      * left. by exists d', r', k.
Qed.

(** X2.  Whatever the device ids and the names are, the keys of the flat
    record are exactly the texts [device_name] of the pairs of the
    snapshot, and there are never more of them than pairs: a collision
    can only lose a key.  Devices without readings give no key. *)
Theorem flatten_sensor_data_keys (data : snapshot) :
  (∀ key, key ∈ dom (flatten_sensor_data data) ↔
          ∃ d r k, data !! d = Some r ∧ k ∈ dom r ∧ key = flat_key d k)
  ∧ (size (flatten_sensor_data data) ≤ readings_count data)%nat
  ∧ ((∀ d r, data !! d = Some r → r = ∅) → flatten_sensor_data data = ∅).
Proof.
  split_and!.
  - apply flatten_sensor_data_dom.
  - unfold flatten_sensor_data.
    apply (map_fold_weak_ind
      (λ flat data, (size flat ≤ readings_count data)%nat)).
    + rewrite map_size_empty. lia.
    + intros d r m acc Hd IH. rewrite readings_count_insert by done.
      pose proof (flatten_params_size d acc r). lia.
  - intros Hempty. apply dom_empty_iff_L, set_eq. intros key.
    rewrite flatten_sensor_data_dom. split; [|set_solver].
    intros (d & r & k & Hr & Hk & _).
    rewrite (Hempty d r Hr), dom_empty_L in Hk. set_solver.
Qed.

Lemma flatten_sensor_data_keys_witness :
  let data : snapshot := {[ "SENSOR4_KELLER" := ∅ ]} in
  (∀ d r, data !! d = Some r → r = ∅)
  ∧ flatten_sensor_data data = ∅.
Proof.
  intros data.
  assert (∀ d r, data !! d = Some r → r = ∅) as Hempty.
  { by intros d r [_ <-]%lookup_singleton_Some. }
  split; [exact Hempty|].
  exact (proj2 (proj2 (flatten_sensor_data_keys data)) Hempty).
Defined.

(** ** The columns of a cycle *)

Lemma dict_keys_elements (flat : flat_record) :
  dict_keys flat ≡ₚ elements (dom flat).
Proof.
  apply NoDup_Permutation.
  - apply NoDup_fst_map_to_list.
  - apply NoDup_elements.
  - intros k. by rewrite dict_keys_dom, elem_of_elements.
Qed.

Section PollingKeys.

Context {T : Type}.
Context (drv_read : T → Z → Z → Z → bool → res (list Z) * T).

Lemma read_sensor_dom modbus sensor_id pr (w : world T) values w' :
  read_sensor drv_read (Some modbus) sensor_id pr w = (Ok values, w') →
  dom values = profile_names pr.
Proof.
  intros Hrun. unfold profile_names.
  destruct (slave_addr pr) as [s|] eqn:Hs.
  - destruct (params pr) as [[|p ps]|] eqn:Hps; simpl.
    2: { rewrite (read_sensor_valid _ _ _ _ _ _ _ _ Hs Hps) in Hrun.
         destruct (read_params_total drv_read modbus sensor_id s (p :: ps) ∅
           (mk_world (bus w) (trace w ++ [Console (LogReading sensor_id s)])))
           as (r & w1 & Hr & _ & Hdom & _).
         rewrite Hr in Hrun. injection Hrun as <- <-.
         rewrite Hdom, dom_empty_L. set_solver. }
    all: rewrite read_sensor_invalid in Hrun
      by (right; right; unfold invalid_profile; by rewrite Hps).
    all: injection Hrun as <- <-; apply dom_empty_L.
  - rewrite read_sensor_invalid in Hrun by (right; by left).
    injection Hrun as <- <-. apply dom_empty_L.
Qed.

(** X3.  With a bus and a table whose device ids are distinct, the keys
    of a cycle do not depend on what the bus answers: each device holds
    one entry for each name of its profile (none when the profile is
    refused), the flat record has exactly the columns of the table, and
    the CSV header it gives is the header of those columns. *)
Theorem polling_columns modbus table (w : world T) :
  NoDup table.*1 →
  ∃ data w',
    read_all_sensors drv_read (Some modbus) table w = (Ok data, w')
    ∧ (∀ sensor_id pr,
         (sensor_id, pr) ∈ table →
         ∃ values, data !! sensor_id = Some values
                   ∧ dom values = profile_names pr)
    ∧ dom (flatten_sensor_data data) = table_columns table
    ∧ csv_header_line (flatten_sensor_data data)
      = "timestamp,"
        +:+ String.concat "," (py_sorted (elements (table_columns table)))
        +:+ newline.
Proof.
  intros Hnd. rewrite read_all_sensors_loop.
  destruct (read_all_loop_total drv_read modbus table ∅
              (mk_world (bus w) (trace w ++ [Console LogCollecting])))
    as (data & w' & Hloop & _ & Hdom & _).
  exists data, w'.
  assert (∀ sensor_id pr,
            (sensor_id, pr) ∈ table →
            ∃ values, data !! sensor_id = Some values
                      ∧ dom values = profile_names pr) as Hentry.
  { intros sensor_id pr Hin.
    apply list_elem_of_split in Hin as (t1 & t2 & ->).
    rewrite fmap_app, fmap_cons in Hnd.
    apply NoDup_app in Hnd as (_ & _ & Hnd).
    apply NoDup_cons in Hnd as [Hfresh _]. simpl in Hfresh.
    destruct (read_all_loop_lookup drv_read _ _ _ _ _ _ _ _ _ Hfresh Hloop)
      as (d1 & w1 & values & w2 & _ & Hrd & Hlk).
    exists values. split; [done|]. by eapply read_sensor_dom. }
  assert (dom (flatten_sensor_data data) = table_columns table) as Hcols.
  { apply set_eq. intros key. rewrite flatten_sensor_data_dom.
    unfold table_columns. rewrite elem_of_union_list. split.
    - intros (d & r & k & Hr & Hk & ->).
      assert (d ∈ dom data) as Hd by (apply elem_of_dom; eauto).
      rewrite Hdom, dom_empty_L in Hd.
      apply elem_of_union in Hd as [Hd|Hd]; [set_solver|].
      apply elem_of_list_to_set in Hd.
      apply list_elem_of_fmap in Hd as ([d' pr] & -> & Hin). simpl in *.
      destruct (Hentry d' pr Hin) as (values & Hv & Hnames).
      exists (set_map (flat_key d') (profile_names pr)). split.
      + apply list_elem_of_fmap. by exists (d', pr).
      + apply elem_of_map. exists k. split; [done|].
        rewrite <- Hnames. congruence.
    - intros (X & HX & Hkey).
      apply list_elem_of_fmap in HX as ([d pr] & -> & Hin). simpl in Hkey.
      apply elem_of_map in Hkey as (k & -> & Hk).
      destruct (Hentry d pr Hin) as (values & Hv & Hnames).
      exists d, values, k. by rewrite Hnames. }
  split_and!; [done|done|done|].
  unfold csv_header_line.
  by rewrite (py_sorted_order_free _ _ (dict_keys_elements _)), Hcols.
Qed.

End PollingKeys.

Lemma polling_columns_witness :
  NoDup SENSOR_PROFILES.*1
  ∧ ∃ data w',
      read_all_sensors script_read (Some Rs485) SENSOR_PROFILES (sample_bus [])
      = (Ok data, w')
      ∧ dom (flatten_sensor_data data) = table_columns SENSOR_PROFILES.
Proof.
  assert (NoDup SENSOR_PROFILES.*1) as Hnd
    by (apply (bool_decide_unpack _); by vm_compute).
  split; [exact Hnd|].
  destruct (polling_columns script_read Rs485 SENSOR_PROFILES (sample_bus [])
              Hnd) as (data & w' & Hrun & _ & Hcols & _).
  exists data, w'. split; [exact Hrun | exact Hcols].
Defined.

(** ** The JSON record of a cycle *)

Lemma flat_key_underscore (d : string) (k : option string) :
  no_underscore (flat_key d k) = false.
Proof. rewrite flat_key_eq. apply no_underscore_app. Qed.

Lemma jsonl_record_lookup (ts : string) (flat : flat_record) (key : string) :
  jsonl_record ts flat !! key
  = match flat !! key with
    | Some v => Some (json_of_value v)
    | None => if decide (key = "timestamp") then Some (JString ts) else None
    end.
Proof.
  unfold jsonl_record. rewrite lookup_union, lookup_fmap.
  destruct (flat !! key) as [v|]; simpl.
  - by destruct (_ !! key).
  - case_decide as Hkey.
    + subst key. by rewrite lookup_singleton_eq.
    + by rewrite lookup_singleton_ne.
Qed.

(** X4.  The record written to the JSONL file holds every entry of the
    flat record, and the timestamp unless the flat record has a key
    [timestamp] of its own, which then takes its place.  A flat record
    that comes from flattening never has that key, since each of its
    keys has an underscore: its JSON record holds the timestamp and
    one entry more than the flat record. *)
Theorem jsonl_record_fields (ts : string) :
  (∀ (flat : flat_record) key,
     jsonl_record ts flat !! key
     = match flat !! key with
       | Some v => Some (json_of_value v)
       | None => if decide (key = "timestamp") then Some (JString ts) else None
       end)
  ∧ (∀ data : snapshot,
       (∀ key, key ∈ dom (flatten_sensor_data data) →
               no_underscore key = false)
       ∧ ("timestamp" ∉ dom (flatten_sensor_data data))
       ∧ jsonl_record ts (flatten_sensor_data data) !! "timestamp"
         = Some (JString ts)
       ∧ size (jsonl_record ts (flatten_sensor_data data))
         = S (size (flatten_sensor_data data))).
Proof.
  split; [apply jsonl_record_lookup|]. intros data.
  assert (∀ key, key ∈ dom (flatten_sensor_data data) →
                 no_underscore key = false) as Hus.
  { intros key (d & r & k & _ & _ & ->)%flatten_sensor_data_dom.
    apply flat_key_underscore. }
  assert ("timestamp" ∉ dom (flatten_sensor_data data)) as Hts.
  { intros Hin. by apply Hus in Hin. }
  split_and!; [done|done| |].
  - rewrite jsonl_record_lookup.
    apply not_elem_of_dom in Hts. by rewrite Hts.
  - unfold jsonl_record.
    rewrite <- insert_union_singleton_r
      by (rewrite lookup_fmap; apply not_elem_of_dom in Hts; by rewrite Hts).
    rewrite map_size_insert_None, map_size_fmap; [done|].
    rewrite lookup_fmap. apply not_elem_of_dom in Hts. by rewrite Hts.
Qed.

(** ** Saves without faults *)

Section SaveCycles.

Context (py_str : pyvalue → string).
Context (json_dumps : gmap string json_value → string).

(** The text a CSV file starts from in a save: its own, when the header
    test finds the header, and the header line of the record otherwise. *)
Lemma save_to_sd_files card csv jsonl ts flat w :
  faults w = [] → csv ≠ jsonl →
  ∃ tr,
    save_to_sd py_str json_dumps (Some card) csv jsonl ts flat w
    = (Ok true,
       mk_fs
         (<[jsonl := file_content w jsonl +:+ jsonl_line json_dumps ts flat]>
            (<[csv := (if header_present w csv then file_content w csv
                       else csv_header_line flat)
                      +:+ csv_row_line py_str ts flat]> (files w)))
         [] tr).
Proof.
  intros Hff Hne. rewrite save_to_sd_unfold. unfold csv_steps. eff_unfold.
  destruct (ensure_csv_header_ff csv flat w Hff) as [tr0 ->].
  match goal with
  | |- context [append_csv_row _ _ _ _ ?w0] =>
      destruct (append_csv_row_ff py_str csv ts flat w0 eq_refl) as [tr1 ->]
  end.
  match goal with
  | |- context [append_jsonl_record _ _ _ _ ?w1] =>
      destruct (append_jsonl_record_ff json_dumps jsonl ts flat w1 eq_refl)
        as [tr2 ->]
  end.
  eexists. simpl. f_equal. f_equal. unfold file_content. simpl.
  rewrite lookup_insert_ne by done. unfold header_present.
  destruct (files w !! csv) as [content|] eqn:Hlk; simpl.
  - destruct (has_header content); simpl.
    + by rewrite Hlk.
    + by rewrite lookup_insert_eq, insert_insert_eq, lookup_insert_ne.
  - by rewrite lookup_insert_eq, insert_insert_eq, lookup_insert_ne.
Qed.

(** X5.  A save on a mounted card without I/O faults answers [True] and
    changes two files only.  The CSV file becomes its old text followed
    by the row when its first line passes the header test; otherwise,
    whatever it held, it becomes the header line of the record followed
    by the row.  The JSONL file becomes its old text followed by the one
    line of the record. *)
Theorem save_to_sd_result card csv jsonl ts flat w :
  faults w = [] → csv ≠ jsonl →
  ∃ w',
    save_to_sd py_str json_dumps (Some card) csv jsonl ts flat w = (Ok true, w')
    ∧ faults w' = []
    ∧ file_content w' csv
      = match files w !! csv with
        | Some content =>
            if startswith (strip (first_line content)) "timestamp"
            then content +:+ csv_row_line py_str ts flat
            else csv_header_line flat +:+ csv_row_line py_str ts flat
        | None => csv_header_line flat +:+ csv_row_line py_str ts flat
        end
    ∧ file_content w' jsonl
      = file_content w jsonl +:+ jsonl_line json_dumps ts flat
    ∧ (∀ path, path ≠ csv → path ≠ jsonl → files w' !! path = files w !! path).
Proof.
  intros Hff Hne.
  destruct (save_to_sd_files card csv jsonl ts flat w Hff Hne) as [tr ->].
  eexists. split_and!; [done|done|..]; unfold file_content; simpl.
  - rewrite lookup_insert_ne, lookup_insert_eq by done. simpl.
    unfold header_present, has_header, file_content.
    destruct (files w !! csv) as [content|]; simpl; [|done].
    by destruct (startswith _ _).
  - by rewrite lookup_insert_eq.
  - intros path H1 H2. by rewrite !lookup_insert_ne.
Qed.

Lemma save_cycles_ff card csv jsonl records w :
  faults w = [] → csv ≠ jsonl → header_present w csv = true →
  ∃ w',
    save_cycles py_str json_dumps card csv jsonl records w
    = ((λ _, Ok true) <$> records, w')
    ∧ faults w' = []
    ∧ file_content w' csv
      = file_content w csv
        +:+ lines_text ((λ rc, csv_row_line py_str rc.1 rc.2) <$> records)
    ∧ file_content w' jsonl
      = file_content w jsonl
        +:+ lines_text ((λ rc, jsonl_line json_dumps rc.1 rc.2) <$> records).
Proof.
  intros Hff Hne. revert w Hff.
  induction records as [|[ts flat] records IH]; intros w Hff Hpres.
  - exists w. unfold lines_text. simpl. by rewrite !str_app_nil_r.
  - cbn [save_cycles].
    destruct (save_to_sd_files card csv jsonl ts flat w Hff Hne) as [tr Hrun].
    rewrite Hrun, Hpres.
    match goal with
    | |- context [save_cycles _ _ _ _ _ records ?w1] =>
        destruct (IH w1 eq_refl) as (w' & Hrest & Hff' & Hcsv & Hjs)
    end.
    { unfold header_present. simpl.
      rewrite lookup_insert_ne, lookup_insert_eq by done.
      apply has_header_app. unfold header_present in Hpres.
      unfold file_content. by destruct (files w !! csv). }
    rewrite Hrest. exists w'. split_and!; [done|done|..].
    + rewrite Hcsv. unfold file_content at 1. simpl.
      rewrite lookup_insert_ne, lookup_insert_eq by done. simpl.
      unfold lines_text. simpl. destruct records; simpl;
        by rewrite ?str_app_assoc, ?str_app_nil_r, ?str_app_nil.
    + rewrite Hjs. unfold file_content at 1. simpl.
      rewrite lookup_insert_eq. simpl.
      unfold lines_text. simpl. destruct records; simpl;
        by rewrite ?str_app_assoc, ?str_app_nil_r, ?str_app_nil.
Qed.

(** X6.  On a card without I/O faults and without a CSV file, the saves
    of any number of cycles all answer [True]; the CSV file then holds
    the header line of the first record followed by one row for each
    cycle, in order, and the JSONL file grows by one line for each cycle.
    Later records do not change the header, whatever their keys are. *)
Theorem save_cycles_log card csv jsonl ts flat records w :
  faults w = [] → csv ≠ jsonl → files w !! csv = None →
  ∃ w',
    save_cycles py_str json_dumps card csv jsonl ((ts, flat) :: records) w
    = ((λ _, Ok true) <$> (ts, flat) :: records, w')
    ∧ file_content w' csv
      = csv_header_line flat
        +:+ lines_text ((λ rc, csv_row_line py_str rc.1 rc.2)
                          <$> (ts, flat) :: records)
    ∧ file_content w' jsonl
      = file_content w jsonl
        +:+ lines_text ((λ rc, jsonl_line json_dumps rc.1 rc.2)
                          <$> (ts, flat) :: records).
Proof.
  intros Hff Hne Hnone. cbn [save_cycles].
  destruct (save_to_sd_files card csv jsonl ts flat w Hff Hne) as [tr Hrun].
  rewrite Hrun. unfold header_present at 1. rewrite Hnone.
  match goal with
  | |- context [save_cycles _ _ _ _ _ records ?w1] =>
      destruct (save_cycles_ff card csv jsonl records w1 eq_refl Hne)
        as (w' & Hrest & _ & Hcsv & Hjs)
  end.
  { unfold header_present. simpl.
    rewrite lookup_insert_ne, lookup_insert_eq by done.
    apply has_header_line. }
  rewrite Hrest. exists w'. split_and!; [done|..].
  - rewrite Hcsv. unfold file_content at 1. simpl.
    rewrite lookup_insert_ne, lookup_insert_eq by done. simpl.
    unfold lines_text. simpl. destruct records; simpl;
      by rewrite ?str_app_assoc, ?str_app_nil_r, ?str_app_nil.
  - rewrite Hjs. unfold file_content at 1. simpl.
    rewrite lookup_insert_eq. simpl.
    unfold lines_text. simpl. destruct records; simpl;
      by rewrite ?str_app_assoc, ?str_app_nil_r, ?str_app_nil.
Qed.

End SaveCycles.

Lemma save_to_sd_result_witness :
  let w := sample_card (Some ("old data" +:+ newline)) [] in
  let ts := "2025-01-01T12:00:00Z" in
  faults w = []
  ∧ CSV_PATH ≠ JSONL_PATH
  ∧ ∃ w',
      save_to_sd sample_str sample_dumps (Some SDCard) CSV_PATH JSONL_PATH ts
        sample_flat w = (Ok true, w')
      ∧ file_content w' CSV_PATH
        = csv_header_line sample_flat +:+ csv_row_line sample_str ts sample_flat.
Proof.
  intros w ts.
  assert (CSV_PATH ≠ JSONL_PATH) as Hne by discriminate.
  split_and!; [reflexivity|exact Hne|].
  destruct (save_to_sd_result sample_str sample_dumps SDCard CSV_PATH
              JSONL_PATH ts sample_flat w eq_refl Hne)
    as (w' & Hrun & _ & Hcsv & _).
  exists w'. split; [exact Hrun|exact Hcsv].
Defined.

Lemma save_cycles_log_witness :
  let w := sample_card None [] in
  let ts1 := "2025-01-01T12:00:00Z" in
  let ts2 := "2025-01-01T13:00:00Z" in
  faults w = []
  ∧ CSV_PATH ≠ JSONL_PATH
  ∧ files w !! CSV_PATH = None
  ∧ ∃ w',
      save_cycles sample_str sample_dumps SDCard CSV_PATH JSONL_PATH
        [(ts1, sample_flat); (ts2, ∅)] w
      = ([Ok true; Ok true], w')
      ∧ file_content w' CSV_PATH
        = csv_header_line sample_flat
          +:+ lines_text [csv_row_line sample_str ts1 sample_flat;
                          csv_row_line sample_str ts2 ∅].
Proof.
  intros w ts1 ts2.
  assert (CSV_PATH ≠ JSONL_PATH) as Hne by discriminate.
  split_and!; [reflexivity|exact Hne|reflexivity|].
  destruct (save_cycles_log sample_str sample_dumps SDCard CSV_PATH JSONL_PATH
              ts1 sample_flat [(ts2, ∅)] w eq_refl Hne eq_refl)
    as (w' & Hrun & Hcsv & _).
  exists w'. split; [exact Hrun|exact Hcsv].
Defined.

(** ** The codec as a binary32 reader *)

Lemma digits2_pos_size (p : positive) : digits2_pos p = Pos.size p.
Proof. induction p as [p IH|p IH|]; simpl; by rewrite ?IH. Qed.

Lemma digits2_pos_bounds (p : positive) :
  2 ^ Zpos (digits2_pos p) ≤ 2 * Zpos p ∧ Zpos p < 2 ^ Zpos (digits2_pos p).
Proof.
  rewrite digits2_pos_size. split.
  - pose proof (Pos.size_le p) as H.
    apply Pos2Z.pos_le_pos in H. by rewrite Pos2Z.inj_pow in H.
  - pose proof (Pos.size_gt p) as H.
    apply Pos2Z.pos_lt_pos in H. by rewrite Pos2Z.inj_pow in H.
Qed.

Lemma digits2_pos_le (p : positive) (k : Z) :
  0 ≤ k → Zpos p < 2 ^ k → Zpos (digits2_pos p) ≤ k.
Proof.
  intros Hk Hp. destruct (digits2_pos_bounds p) as [Hle _].
  destruct (Z.le_gt_cases (Zpos (digits2_pos p)) k) as [|Hgt]; [done|].
  assert (2 ^ (k + 1) ≤ 2 ^ Zpos (digits2_pos p))
    by (apply Z.pow_le_mono_r; lia).
  rewrite Z.pow_add_r in * by lia. lia.
Qed.

Lemma digits2_pos_ge (p : positive) (k : Z) :
  0 ≤ k → 2 ^ k ≤ Zpos p → k < Zpos (digits2_pos p).
Proof.
  intros Hk Hp. destruct (digits2_pos_bounds p) as [_ Hlt].
  destruct (Z.lt_ge_cases k (Zpos (digits2_pos p))) as [|Hge]; [done|].
  assert (2 ^ Zpos (digits2_pos p) ≤ 2 ^ k)
    by (apply Z.pow_le_mono_r; lia).
  lia.
Qed.

(** The fields of a 32-bit pattern, as numbers. *)
Lemma binary32_fields (bits : Z) :
  0 ≤ bits < 2 ^ 32 →
  ∃ s e m,
    Z.testbit bits 31 = s
    ∧ Z.land (Z.shiftr bits 23) 255 = e
    ∧ Z.land bits (2 ^ 23 - 1) = m
    ∧ 0 ≤ e < 256 ∧ 0 ≤ m < 2 ^ 23
    ∧ bits = sign_bit s + e * 2 ^ 23 + m.
Proof.
  intros Hb.
  change 255 with (Z.ones 8). change (2 ^ 23 - 1) with (Z.ones 23).
  rewrite !Z.land_ones, Z.shiftr_div_pow2 by lia.
  eexists _, _, _. split_and!; try reflexivity.
  - apply Z.mod_pos_bound. lia.
  - apply Z.mod_pos_bound. lia.
  - apply Z.mod_pos_bound. lia.
  - apply Z.mod_pos_bound. lia.
  - assert (bits / 2 ^ 31 = 0 ∨ bits / 2 ^ 31 = 1) as Hs.
    { assert (0 ≤ bits / 2 ^ 31 < 2); [|lia].
      split; [apply Z.div_pos; lia | apply Z.div_lt_upper_bound; lia]. }
    assert (Z.testbit bits 31 = Z.odd (bits / 2 ^ 31)) as ->.
    { rewrite <- Z.shiftr_div_pow2 by lia.
      rewrite <- (Z.add_0_l 31) at 1. by rewrite <- Z.shiftr_spec, Z.bit0_odd. }
    pose proof (Z.div_mod bits (2 ^ 23) ltac:(lia)) as H1.
    pose proof (Z.div_mod (bits / 2 ^ 23) (2 ^ 8) ltac:(lia)) as H2.
    rewrite Z.div_div in H2 by lia.
    change (2 ^ 23 * 2 ^ 8) with (2 ^ 31) in H2.
    unfold sign_bit. destruct Hs as [Hs|Hs]; rewrite Hs in *; simpl; lia.
Qed.

Lemma binary32_of_bits_valid (bits : Z) :
  0 ≤ bits < 2 ^ 32 → valid_binary 24 128 (binary32_of_bits bits) = true.
Proof.
  intros Hb. destruct (binary32_fields bits Hb)
    as (s & e & m & Hs & He & Hm & Hre & Hrm & _).
  unfold binary32_of_bits. rewrite Hs, He, Hm.
  destruct (Z.eqb_spec e 0) as [->|He0].
  - destruct m as [|p|p]; [done| |done]. simpl.
    unfold bounded, canonical_mantissa, fexp, emin.
    pose proof (digits2_pos_le p 23 ltac:(lia) ltac:(lia)).
    apply andb_true_iff. split; [apply Z.eqb_eq|apply Z.leb_le]; lia.
  - destruct (Z.eqb_spec e 255) as [->|He255]; [by destruct (m =? 0)|].
    destruct (m + 2 ^ 23) as [|p|p] eqn:Hp; [done| |done]. simpl.
    unfold bounded, canonical_mantissa, fexp, emin.
    pose proof (digits2_pos_le p 24 ltac:(lia) ltac:(lia)).
    pose proof (digits2_pos_ge p 23 ltac:(lia) ltac:(lia)).
    apply andb_true_iff. split; [apply Z.eqb_eq|apply Z.leb_le]; lia.
Qed.

Lemma binary32_bits_roundtrip (bits : Z) :
  0 ≤ bits < 2 ^ 32 →
  binary32_of_bits bits ≠ S754_nan →
  bits_of_binary32 (binary32_of_bits bits) = bits.
Proof.
  intros Hb. destruct (binary32_fields bits Hb)
    as (s & e & m & Hs & He & Hm & Hre & Hrm & Hbits).
  unfold binary32_of_bits. rewrite Hs, He, Hm.
  destruct (Z.eqb_spec e 0) as [->|He0].
  - destruct m as [|p|p]; [simpl; lia| |lia].
    intros _. simpl.
    destruct (Z.ltb_spec (Zpos p) (2 ^ 23)); lia.
  - destruct (Z.eqb_spec e 255) as [->|He255].
    + destruct (Z.eqb_spec m 0) as [->|]; [|done]. intros _. simpl. lia.
    + destruct (m + 2 ^ 23) as [|p|p] eqn:Hp; [lia| |lia].
      intros _. simpl.
      destruct (Z.ltb_spec (Zpos p) (2 ^ 23)); lia.
Qed.

Lemma modbus_registers_bits (hi lo : Z) :
  0 ≤ hi < 2 ^ 16 → 0 ≤ lo < 2 ^ 16 →
  modbus_registers_to_float [hi; lo] = Ok (binary32_of_bits (hi * 2 ^ 16 + lo)).
Proof.
  intros Hhi Hlo. unfold modbus_registers_to_float.
  rewrite lor_shiftl_add by lia. apply pack_unpack_bits. nia.
Qed.

(** X7.  For two 16-bit words the decoder always returns, and what it
    returns is a valid binary32 datum in the sense of the standard
    library: a zero, an infinity, a NaN, or a finite number whose
    mantissa and exponent are in the canonical form of the format
    (precision 24, largest exponent 128). *)
Theorem modbus_registers_to_float_valid (hi lo : Z) :
  0 ≤ hi < 2 ^ 16 → 0 ≤ lo < 2 ^ 16 →
  ∃ f, modbus_registers_to_float [hi; lo] = Ok f
       ∧ valid_binary 24 128 f = true.
Proof.
  intros Hhi Hlo. eexists. split; [by apply modbus_registers_bits|].
  apply binary32_of_bits_valid. nia.
Qed.

Lemma modbus_registers_to_float_valid_witness :
  ∃ f, modbus_registers_to_float [0xC228; 0x0001] = Ok f
       ∧ valid_binary 24 128 f = true.
Proof.
  apply (modbus_registers_to_float_valid 0xC228 0x0001); lia.
Defined.

(** X8.  Two pairs of 16-bit words that decode to the same number, other
    than a NaN, are the same pair: the decoder loses nothing of the
    registers except among the NaN patterns. *)
Theorem modbus_registers_to_float_inj (hi1 lo1 hi2 lo2 : Z) (f : float) :
  0 ≤ hi1 < 2 ^ 16 → 0 ≤ lo1 < 2 ^ 16 →
  0 ≤ hi2 < 2 ^ 16 → 0 ≤ lo2 < 2 ^ 16 →
  modbus_registers_to_float [hi1; lo1] = Ok f →
  modbus_registers_to_float [hi2; lo2] = Ok f →
  f ≠ S754_nan →
  hi1 = hi2 ∧ lo1 = lo2.
Proof.
  intros Hh1 Hl1 Hh2 Hl2.
  rewrite !modbus_registers_bits by done.
  intros [= <-] [= Heq] Hnan.
  assert (hi1 * 2 ^ 16 + lo1 = hi2 * 2 ^ 16 + lo2); [|lia].
  rewrite <- (binary32_bits_roundtrip (hi1 * 2 ^ 16 + lo1)) by (done || nia).
  rewrite <- (binary32_bits_roundtrip (hi2 * 2 ^ 16 + lo2))
    by (nia || by rewrite Heq).
  by rewrite Heq.
Qed.

Lemma modbus_registers_to_float_inj_witness :
  modbus_registers_to_float [0x4228; 0x0000] = Ok f42
  ∧ f42 ≠ S754_nan
  ∧ 0x4228 = 0x4228 ∧ 0x0000 = 0x0000.
Proof.
  split; [reflexivity|]. split; [discriminate|].
  apply (modbus_registers_to_float_inj 0x4228 0 0x4228 0 f42);
    first [lia | reflexivity | discriminate].
Defined.

(** ** Timestamps *)

Lemma str_length_app (s1 s2 : string) :
  String.length (s1 +:+ s2) = (String.length s1 + String.length s2)%nat.
Proof.
  induction s1 as [|c s1 IH]; [done|]. rewrite str_app_cons. simpl.
  by rewrite IH.
Qed.

Lemma fixed_digits_length (width n : nat) :
  String.length (fixed_digits width n) = width.
Proof.
  revert n. induction width as [|width IH]; intros n; [done|].
  cbn [fixed_digits]. rewrite str_length_app, IH. simpl. lia.
Qed.

Lemma fixed_digits_S (width n : nat) :
  fixed_digits (S width) n
  = fixed_digits width (n / 10) +:+ String (digit_char (n mod 10)) "".
Proof. reflexivity. Qed.

(** A number below [10 ^ width] has a zero in front of its [width] last
    digits. *)
Lemma fixed_digits_zero (width n : nat) :
  (n < 10 ^ width)%nat →
  fixed_digits (S width) n = String "0" (fixed_digits width n).
Proof.
  revert n. induction width as [|width IH]; intros n Hn.
  - simpl in Hn. assert (n = 0)%nat as -> by lia. reflexivity.
  - rewrite fixed_digits_S, IH.
    + by rewrite (fixed_digits_S width n), str_app_cons.
    + apply Nat.Div0.div_lt_upper_bound. by rewrite <- Nat.pow_succ_r'.
Qed.

Lemma fixed_digits_zeros (j k n : nat) :
  (n < 10 ^ k)%nat →
  fixed_digits (j + k) n = zeros j +:+ fixed_digits k n.
Proof.
  intros Hn. induction j as [|j IH]; [done|].
  change (S j + k)%nat with (S (j + k)).
  rewrite fixed_digits_zero.
  - by rewrite IH.
  - eapply Nat.lt_le_trans; [done|]. apply Nat.pow_le_mono_r; lia.
Qed.

Lemma decimal_fuel_fixed (fuel n : nat) (acc : string) :
  (n < fuel)%nat →
  ∃ k, (1 ≤ k)%nat
       ∧ decimal_fuel fuel n acc = fixed_digits k n +:+ acc
       ∧ (n < 10 ^ k)%nat
       ∧ (k = 1%nat ∨ (10 ^ (k - 1) ≤ n)%nat).
Proof.
  revert n acc. induction fuel as [|fuel IH]; intros n acc Hn; [lia|].
  cbn [decimal_fuel].
  destruct (Nat.eqb_spec (n / 10) 0) as [Hq|Hq].
  - exists 1%nat. split_and!; [lia| | |by left].
    + rewrite fixed_digits_S, Hq. reflexivity.
    + apply Nat.div_small_iff in Hq; simpl; lia.
  - assert (10 ≤ n)%nat as Hn10.
    { destruct (Nat.lt_ge_cases n 10) as [Hlt|]; [|done].
      by rewrite Nat.div_small in Hq. }
    assert (n / 10 < fuel)%nat as Hlt.
    { assert (n / 10 < n)%nat by (apply Nat.div_lt; lia). lia. }
    destruct (IH (n / 10)%nat (String (digit_char (n mod 10)) acc) Hlt)
      as (k & Hk & Heq & Hup & Hlow).
    pose proof (Nat.div_mod_eq n 10) as Hdm.
    pose proof (Nat.mod_upper_bound n 10 ltac:(lia)) as Hmod.
    exists (S k). split_and!; [lia| | |right].
    + rewrite Heq, fixed_digits_S, str_app_assoc. reflexivity.
    + rewrite Nat.pow_succ_r'. lia.
    + replace (S k - 1)%nat with k by lia.
      destruct Hlow as [->|Hlow]; [simpl; lia|].
      replace k with (S (k - 1)) by lia. rewrite Nat.pow_succ_r'. lia.
Qed.

(** Within the width, [%0wd] gives the [w] last digits. *)
Lemma format_int_fixed (width : nat) (n : Z) :
  (1 ≤ width)%nat → 0 ≤ n < 10 ^ Z.of_nat width →
  format_int width n = fixed_digits width (Z.to_nat n).
Proof.
  intros Hw Hn. unfold format_int.
  destruct (Z.ltb_spec n 0) as [|_]; [lia|].
  unfold decimal, zero_pad.
  destruct (decimal_fuel_fixed (S (Z.to_nat n)) (Z.to_nat n) "" ltac:(lia))
    as (k & Hk & -> & Hup & Hlow).
  rewrite str_app_nil_r, fixed_digits_length.
  assert (Z.to_nat n < 10 ^ width)%nat as Hnat.
  { apply Nat2Z.inj_lt. rewrite Nat2Z.inj_pow, Z2Nat.id by lia. simpl. lia. }
  assert (k ≤ width)%nat as Hkw.
  { destruct Hlow as [->|Hlow]; [done|].
    destruct (Nat.le_gt_cases k width) as [|Hgt]; [done|].
    assert (10 ^ width ≤ 10 ^ (k - 1))%nat
      by (apply Nat.pow_le_mono_r; lia).
    lia. }
  rewrite <- fixed_digits_zeros by done. f_equal. lia.
Qed.

Lemma str_compare_refl (s : string) : String.compare s s = Eq.
Proof.
  induction s as [|c s IH]; [done|]. simpl.
  by rewrite ascii_compare_N, N.compare_refl.
Qed.

Lemma str_compare_cons (c : ascii) (s1 s2 : string) :
  String.compare (String c s1) (String c s2) = String.compare s1 s2.
Proof. simpl. by rewrite ascii_compare_N, N.compare_refl. Qed.

(** Texts that start with parts of one length compare by those parts
    first. *)
Lemma str_compare_app (a b x y : string) :
  String.length a = String.length b →
  String.compare (a +:+ x) (b +:+ y)
  = lex (String.compare a b) (String.compare x y).
Proof.
  revert b. induction a as [|c1 a IH]; intros [|c2 b] Hlen; try done.
  rewrite !str_app_cons. simpl.
  destruct (Ascii.compare c1 c2); [|done|done].
  apply IH. simpl in Hlen. lia.
Qed.

Lemma digit_char_compare (a b : nat) :
  (a < 10)%nat → (b < 10)%nat →
  Ascii.compare (digit_char a) (digit_char b) = (a ?= b)%nat.
Proof.
  intros Ha Hb.
  do 10 (destruct a as [|a]; [do 10 (destruct b as [|b]; [reflexivity|]); lia|]).
  lia.
Qed.

Lemma compare_by_digits (n m : nat) :
  lex (n / 10 ?= m / 10)%nat (n mod 10 ?= m mod 10)%nat = (n ?= m)%nat.
Proof.
  pose proof (Nat.div_mod_eq n 10). pose proof (Nat.div_mod_eq m 10).
  pose proof (Nat.mod_upper_bound n 10 ltac:(lia)).
  pose proof (Nat.mod_upper_bound m 10 ltac:(lia)).
  destruct (Nat.compare_spec (n / 10) (m / 10)) as [Hq|Hq|Hq]; cbn [lex].
  - destruct (Nat.compare_spec (n mod 10) (m mod 10));
      destruct (Nat.compare_spec n m); try done; lia.
  - destruct (Nat.compare_spec n m); try done; lia.
  - destruct (Nat.compare_spec n m); try done; lia.
Qed.

Lemma str_compare_single (c1 c2 : ascii) :
  String.compare (String c1 "") (String c2 "") = Ascii.compare c1 c2.
Proof. simpl. by destruct (Ascii.compare c1 c2). Qed.

Lemma fixed_digits_compare (width n m : nat) :
  String.compare (fixed_digits width n) (fixed_digits width m)
  = (n mod 10 ^ width ?= m mod 10 ^ width)%nat.
Proof.
  revert n m. induction width as [|width IH]; intros n m.
  - cbn [fixed_digits]. by rewrite Nat.pow_0_r, !Nat.mod_1_r.
  - rewrite !fixed_digits_S, str_compare_app
      by (by rewrite !fixed_digits_length).
    rewrite IH, str_compare_single.
    rewrite digit_char_compare by (apply Nat.mod_upper_bound; lia).
    rewrite <- (compare_by_digits (n mod 10 ^ S width) (m mod 10 ^ S width)).
    rewrite !Nat.pow_succ_r'.
    assert (∀ k, (k mod (10 * 10 ^ width) / 10 = (k / 10) mod 10 ^ width
                  ∧ (k mod (10 * 10 ^ width)) mod 10 = k mod 10)%nat) as Hk.
    { intros k. split.
      - rewrite Nat.Div0.mod_mul_r.
        rewrite (Nat.mul_comm 10), Nat.div_add by lia.
        rewrite (Nat.div_small (k mod 10)) by (apply Nat.mod_upper_bound; lia).
        lia.
      - rewrite Nat.Div0.mod_mul_r.
        rewrite (Nat.mul_comm 10), Nat.Div0.mod_add.
        apply Nat.Div0.mod_mod. }
    by rewrite !(proj1 (Hk _)), !(proj2 (Hk _)).
Qed.

Lemma format_int_compare (width : nat) (n m : Z) :
  (1 ≤ width)%nat →
  0 ≤ n < 10 ^ Z.of_nat width → 0 ≤ m < 10 ^ Z.of_nat width →
  String.length (format_int width n) = width
  ∧ String.compare (format_int width n) (format_int width m) = (n ?= m).
Proof.
  intros Hw Hn Hm. rewrite !format_int_fixed by done.
  split; [apply fixed_digits_length|].
  rewrite fixed_digits_compare.
  assert (∀ k, 0 ≤ k < 10 ^ Z.of_nat width →
               (Z.to_nat k mod 10 ^ width = Z.to_nat k)%nat) as Hsmall.
  { intros k Hk. apply Nat.mod_small, Nat2Z.inj_lt.
    rewrite Nat2Z.inj_pow, Z2Nat.id by lia. simpl. lia. }
  rewrite !Hsmall by done. apply Z2Nat.inj_compare; lia.
Qed.

Lemma lex_Eq_r (c : comparison) : lex c Eq = c.
Proof. by destruct c. Qed.

Lemma time_compare_eq (t1 t2 : time_tuple) :
  time_compare t1 t2 = Eq → t1 = t2.
Proof.
  destruct t1 as [y1 mo1 d1 h1 mi1 s1], t2 as [y2 mo2 d2 h2 mi2 s2].
  unfold time_compare. simpl.
  destruct (Z.compare_spec y1 y2); [|done|done].
  destruct (Z.compare_spec mo1 mo2); [|done|done].
  destruct (Z.compare_spec d1 d2); [|done|done].
  destruct (Z.compare_spec h1 h2); [|done|done].
  destruct (Z.compare_spec mi1 mi2); [|done|done].
  destruct (Z.compare_spec s1 s2); [|done|done].
  intros _. by subst.
Qed.

(** X9.  For clock readings whose year has at most four digits and whose
    other fields have at most two, the timestamps of [iso8601_now] all
    have 20 characters and those of [get_timestamp] 19; their order as
    texts is the order of the readings in time, and two different
    readings never give the same timestamp. *)
Theorem timestamps_sortable (t1 t2 : time_tuple) :
  four_digit_time t1 → four_digit_time t2 →
  (String.length (iso8601_now t1) = 20%nat
   ∧ String.compare (iso8601_now t1) (iso8601_now t2) = time_compare t1 t2
   ∧ (iso8601_now t1 = iso8601_now t2 → t1 = t2))
  ∧ (String.length (get_timestamp t1) = 19%nat
     ∧ String.compare (get_timestamp t1) (get_timestamp t2)
       = time_compare t1 t2
     ∧ (get_timestamp t1 = get_timestamp t2 → t1 = t2)).
Proof.
  intros (Hy1 & Hmo1 & Hd1 & Hh1 & Hmi1 & Hs1)
    (Hy2 & Hmo2 & Hd2 & Hh2 & Hmi2 & Hs2).
  pose proof (format_int_compare 4 (t_year t1) (t_year t2)
                ltac:(lia) ltac:(simpl; lia) ltac:(simpl; lia)) as [Ly Cy].
  pose proof (format_int_compare 2 (t_month t1) (t_month t2)
                ltac:(lia) ltac:(simpl; lia) ltac:(simpl; lia)) as [Lmo Cmo].
  pose proof (format_int_compare 2 (t_day t1) (t_day t2)
                ltac:(lia) ltac:(simpl; lia) ltac:(simpl; lia)) as [Ld Cd].
  pose proof (format_int_compare 2 (t_hour t1) (t_hour t2)
                ltac:(lia) ltac:(simpl; lia) ltac:(simpl; lia)) as [Lh Ch].
  pose proof (format_int_compare 2 (t_minute t1) (t_minute t2)
                ltac:(lia) ltac:(simpl; lia) ltac:(simpl; lia)) as [Lmi Cmi].
  pose proof (format_int_compare 2 (t_second t1) (t_second t2)
                ltac:(lia) ltac:(simpl; lia) ltac:(simpl; lia)) as [Ls Cs].
  pose proof (format_int_compare 4 (t_year t2) (t_year t2)
                ltac:(lia) ltac:(simpl; lia) ltac:(simpl; lia)) as [Ly2 _].
  pose proof (format_int_compare 2 (t_month t2) (t_month t2)
                ltac:(lia) ltac:(simpl; lia) ltac:(simpl; lia)) as [Lmo2 _].
  pose proof (format_int_compare 2 (t_day t2) (t_day t2)
                ltac:(lia) ltac:(simpl; lia) ltac:(simpl; lia)) as [Ld2 _].
  pose proof (format_int_compare 2 (t_hour t2) (t_hour t2)
                ltac:(lia) ltac:(simpl; lia) ltac:(simpl; lia)) as [Lh2 _].
  pose proof (format_int_compare 2 (t_minute t2) (t_minute t2)
                ltac:(lia) ltac:(simpl; lia) ltac:(simpl; lia)) as [Lmi2 _].
  pose proof (format_int_compare 2 (t_second t2) (t_second t2)
                ltac:(lia) ltac:(simpl; lia) ltac:(simpl; lia)) as [Ls2 _].
  assert (String.compare (iso8601_now t1) (iso8601_now t2)
          = time_compare t1 t2) as Hiso.
  { unfold iso8601_now, time_compare. rewrite !str_app_cons, !str_app_nil.
    rewrite str_compare_app, Cy by congruence.
    rewrite str_compare_cons.
    rewrite str_compare_app, Cmo by congruence.
    rewrite str_compare_cons.
    rewrite str_compare_app, Cd by congruence.
    rewrite str_compare_cons.
    rewrite str_compare_app, Ch by congruence.
    rewrite str_compare_cons.
    rewrite str_compare_app, Cmi by congruence.
    rewrite str_compare_cons.
    rewrite str_compare_app, Cs by congruence.
    by rewrite str_compare_refl, lex_Eq_r. }
  assert (String.compare (get_timestamp t1) (get_timestamp t2)
          = time_compare t1 t2) as Hget.
  { unfold get_timestamp, time_compare. rewrite !str_app_cons, !str_app_nil.
    rewrite str_compare_app, Cy by congruence.
    rewrite str_compare_cons.
    rewrite str_compare_app, Cmo by congruence.
    rewrite str_compare_cons.
    rewrite str_compare_app, Cd by congruence.
    rewrite str_compare_cons.
    rewrite str_compare_app, Ch by congruence.
    rewrite str_compare_cons.
    rewrite str_compare_app, Cmi by congruence.
    rewrite str_compare_cons.
    by rewrite Cs. }
  split; split_and!.
  - unfold iso8601_now. rewrite !str_length_app, Ly, Lmo, Ld, Lh, Lmi, Ls.
    reflexivity.
  - done.
  - intros Heq. apply time_compare_eq. rewrite <- Hiso, Heq.
    apply str_compare_refl.
  - unfold get_timestamp. rewrite !str_length_app, Ly, Lmo, Ld, Lh, Lmi, Ls.
    reflexivity.
  - done.
  - intros Heq. apply time_compare_eq. rewrite <- Hget, Heq.
    apply str_compare_refl.
Qed.

Lemma timestamps_sortable_witness :
  let t1 := mk_time 2025 1 1 12 0 5 in
  let t2 := mk_time 2025 11 30 23 59 59 in
  four_digit_time t1 ∧ four_digit_time t2
  ∧ String.compare (iso8601_now t1) (iso8601_now t2) = Lt
  ∧ String.compare (get_timestamp t1) (get_timestamp t2) = Lt.
Proof.
  intros t1 t2.
  assert (four_digit_time t1) as H1 by (unfold four_digit_time; simpl; lia).
  assert (four_digit_time t2) as H2 by (unfold four_digit_time; simpl; lia).
  split_and!; [exact H1|exact H2|..].
  - exact (proj1 (proj2 (proj1 (timestamps_sortable t1 t2 H1 H2)))).
  - exact (proj1 (proj2 (proj2 (timestamps_sortable t1 t2 H1 H2)))).
Defined.

(** ** The older log *)

Lemma post_py_tell f ok : post (py_tell f) ok (λ _, True).
Proof.
  intros w r w'. unfold py_tell. eff_unfold.
  destruct (h_mode f); intros [= <- <-]; (split; [|done]);
    exists []; apply fs_steps_refl.
Qed.

Lemma eff_bind_run {S A B} (m : Eff.M S A) (k : A → Eff.M S B) (s : S) :
  (m ≫= k) s
  = match m s with
    | (Ok a, s') => k a s'
    | (Raise e, s') => (Raise e, s')
    end.
Proof. reflexivity. Qed.

Lemma check_sdcard_run (w : datalog_world) :
  check_sdcard w = (Ok (dl_mounted w), w).
Proof.
  unfold check_sdcard, os_stat_sd. eff_unfold. by destruct (dl_mounted w).
Qed.

(** The primitives on a card without faults. *)
Lemma py_open_append_ff path w :
  faults w = [] →
  py_open path ModeA w
  = (Ok (mk_handle path ModeA),
     mk_fs (match files w !! path with
            | Some _ => files w
            | None => <[path := ""]> (files w)
            end) [] (fs_trace w ++ [FsOpen path ModeA])).
Proof.
  destruct w as [fs flt tr]. simpl. intros ->.
  unfold py_open, set_file, fs_call. eff_unfold. simpl.
  by destruct (fs !! path).
Qed.

Lemma py_tell_append path w :
  py_tell (mk_handle path ModeA) w
  = (Ok (Z.of_nat (String.length (file_content w path))), w).
Proof. reflexivity. Qed.

Lemma py_write_ff path mode data w :
  faults w = [] → mode ≠ ModeR →
  py_write (mk_handle path mode) data w
  = (Ok tt,
     mk_fs (<[path := file_content w path +:+ data]> (files w)) []
       (fs_trace w ++ [FsWrite path data])).
Proof.
  destruct w as [fs flt tr]. simpl. intros -> Hmode.
  unfold py_write, set_file, fs_call. eff_unfold. simpl.
  by destruct mode.
Qed.

Lemma file_content_opened w path tr :
  file_content
    (mk_fs (match files w !! path with
            | Some _ => files w
            | None => <[path := ""]> (files w)
            end) [] tr) path
  = file_content w path.
Proof.
  unfold file_content. simpl.
  destruct (files w !! path) eqn:Hlk; simpl; [by rewrite Hlk|].
  by rewrite lookup_insert_eq.
Qed.

Section DatalogFacts.

Context {V : Type} (str_value : V → string).

(** The part of [log_sensor_data] that works on the file. *)
Lemma post_datalog_block (header row : string) :
  post (file ← py_open SENSOR_DATA_PATH ModeA;
        position ← py_tell file;
        (if position =? 0 then py_write file header else mret tt);;
        py_write file row)
    (appends_to SENSOR_DATA_PATH) (λ _, True).
Proof.
  eapply post_bind; [apply post_py_open; by left|].
  intros f ->. eapply post_bind; [apply post_py_tell|].
  intros position _. eapply (post_bind _ _ _ (λ _, True)).
  - destruct (position =? 0); [|by apply post_ret].
    apply post_py_write. right. by eexists.
  - intros _ _. apply post_py_write. right. by eexists.
Qed.

Lemma log_sensor_data_run local_time data columns (w : datalog_world) :
  log_sensor_data str_value local_time data columns w
  = if dl_mounted w then
      match (file ← py_open SENSOR_DATA_PATH ModeA;
             position ← py_tell file;
             (if position =? 0
              then py_write file (datalog_header columns) else mret tt);;
             py_write file (datalog_row str_value local_time data))
              (dl_card w) with
      | (Ok _, c) =>
          (Ok true,
           mk_datalog true c
             (dl_console w
              ++ [LogLogged (get_timestamp local_time :: (str_value <$> data))]))
      | (Raise e, c) => (Raise e, mk_datalog true c (dl_console w))
      end
    else (Ok false,
          mk_datalog false (dl_card w) (dl_console w ++ [LogNotMounted])).
Proof.
  unfold log_sensor_data, datalog_header, datalog_row.
  rewrite eff_bind_run, check_sdcard_run.
  destruct (dl_mounted w) eqn:Hm.
  - rewrite eff_bind_run.
    match goal with
    | |- context [on_card ?b] => set (block := b)
    end.
    unfold on_card. destruct (block (dl_card w)) as [[[]|e] c];
      [|by rewrite Hm].
    unfold dl_print. eff_unfold. simpl. by rewrite Hm.
  - unfold dl_print. eff_unfold. simpl. by rewrite Hm.
Qed.

(** X10.  [log_sensor_data] never changes the mount state.  When no card
    is mounted it answers [False] and leaves the files alone.  When one
    is mounted, whatever fails, its calls on the card are an open in
    append mode and writes, all on its own file: the old text of that
    file is the start of the new one and no other file changes.  An I/O
    error is not caught: if the open fails, the error is raised to the
    caller. *)
Theorem log_sensor_data_appends local_time data columns w r w' :
  log_sensor_data str_value local_time data columns w = (r, w') →
  dl_mounted w' = dl_mounted w
  ∧ (dl_mounted w = false → r = Ok false ∧ dl_card w' = dl_card w)
  ∧ (∃ evs, fs_trace (dl_card w') = fs_trace (dl_card w) ++ evs
            ∧ Forall (appends_to SENSOR_DATA_PATH) evs)
  ∧ grows_at SENSOR_DATA_PATH (dl_card w) (dl_card w')
  ∧ (∀ path, path ≠ SENSOR_DATA_PATH →
             files (dl_card w') !! path = files (dl_card w) !! path)
  ∧ (dl_mounted w = true →
     ∀ rest, faults (dl_card w) = true :: rest → r = Raise (OSError EIO)).
Proof.
  rewrite log_sensor_data_run. destruct (dl_mounted w) eqn:Hm.
  - destruct ((file ← py_open SENSOR_DATA_PATH ModeA;
               position ← py_tell file;
               (if position =? 0
                then py_write file (datalog_header columns) else mret tt);;
               py_write file (datalog_row str_value local_time data))
                (dl_card w)) as [r0 c] eqn:Hblock.
    destruct (post_datalog_block _ _ _ _ _ Hblock)
      as [[evs (Ht & Hok & Hf)] _].
    intros Hrun.
    assert (dl_card w' = c ∧ dl_mounted w' = true) as [-> ->].
    { by destruct r0 as [[]|e]; injection Hrun as <- <-. }
    split_and!; [done|done|by exists evs| | |].
    + apply Hf. intros Hin. rewrite Forall_forall in Hok.
      by destruct (Hok _ Hin) as [?|[? ?]].
    + intros path Hpath. apply Hf. intros ev Hin.
      rewrite Forall_forall in Hok.
      destruct (Hok _ Hin) as [->|[d ->]]; simpl; congruence.
    + intros _ rest Hflt. revert Hblock.
      unfold py_open, fs_call. eff_unfold. rewrite Hflt.
      intros [= <- <-]. by injection Hrun as <- _.
  - intros [= <- <-]. simpl. split_and!; [done|done| | | |done].
    + exists []. by rewrite app_nil_r.
    + apply grows_at_refl.
    + done.
Qed.

(** X11.  On a mounted card without I/O faults [log_sensor_data] answers
    [True] and adds to its file the header, when the file is missing or
    empty, and then one row: the timestamp and the values, joined with
    commas.  A file that has text already gets the row alone. *)
Theorem log_sensor_data_result local_time data columns w :
  dl_mounted w = true → faults (dl_card w) = [] →
  ∃ w',
    log_sensor_data str_value local_time data columns w = (Ok true, w')
    ∧ faults (dl_card w') = []
    ∧ file_content (dl_card w') SENSOR_DATA_PATH
      = match file_content (dl_card w) SENSOR_DATA_PATH with
        | "" => datalog_header columns
                +:+ datalog_row str_value local_time data
        | old => old +:+ datalog_row str_value local_time data
        end.
Proof.
  intros Hm Hff. rewrite log_sensor_data_run, Hm.
  rewrite eff_bind_run, (py_open_append_ff _ _ Hff).
  rewrite eff_bind_run, py_tell_append. cbn [fst snd].
  rewrite file_content_opened.
  destruct (file_content (dl_card w) SENSOR_DATA_PATH) as [|c old] eqn:Hold.
  - change (Z.of_nat (String.length "") =? 0) with true. cbv iota.
    rewrite eff_bind_run, py_write_ff by done.
    rewrite py_write_ff by done.
    eexists. split_and!; [done|done|]. unfold file_content at 1. simpl.
    rewrite lookup_insert_eq. simpl. unfold file_content at 1. simpl.
    rewrite lookup_insert_eq. simpl.
    by rewrite file_content_opened, Hold.
  - replace (Z.of_nat (String.length (String c old)) =? 0) with false
      by (symmetry; apply Z.eqb_neq; simpl; lia).
    cbv iota. rewrite eff_bind_run.
    unfold mret at 1, eff_ret at 1, Eff.ret at 1.
    rewrite py_write_ff by done.
    eexists. split_and!; [done|done|]. unfold file_content at 1. simpl.
    rewrite lookup_insert_eq. simpl.
    by rewrite file_content_opened, Hold.
Qed.

(** X12.  [shutdown_sd_card] never raises and never touches a file.
    Given a card object it leaves nothing mounted on [/sd], whether the
    unmount went through or was refused (the refusal is printed, not
    raised); [log_sensor_data] called after it answers [False] and
    writes nothing.  Given [None] it only prints and the mount state
    stays. *)
Theorem shutdown_sd_card_unmounts (sd : option sd_ref) (w : datalog_world) :
  ∃ w1,
    shutdown_sd_card sd w = (Ok tt, w1)
    ∧ dl_card w1 = dl_card w
    ∧ dl_mounted w1 = match sd with
                      | Some _ => false
                      | None => dl_mounted w
                      end
    ∧ dl_console w1
      = dl_console w
        ++ [LogUnmounting;
            match sd with
            | None => LogUnmountNone
            | Some _ => if dl_mounted w then LogUnmounted
                        else LogUnmountError (OSError EINVAL)
            end]
    ∧ (is_Some sd →
       ∀ local_time data columns, ∃ w2,
         log_sensor_data str_value local_time data columns w1 = (Ok false, w2)
         ∧ dl_card w2 = dl_card w
         ∧ dl_mounted w2 = false).
Proof.
  destruct sd as [sd|].
  - destruct w as [[] c con]; eexists; (split; [reflexivity|]); simpl;
      rewrite <- ?app_assoc; (split_and!; [done|done|done|]);
      intros _ local_time data columns; rewrite log_sensor_data_run; simpl;
      by eexists.
  - eexists. split; [reflexivity|]. simpl. rewrite <- app_assoc.
    split_and!; [done|done|done|]. by intros [? [=]].
Qed.

End DatalogFacts.

Lemma log_sensor_data_appends_witness :
  let w := mk_datalog true
             (mk_fs {[ SENSOR_DATA_PATH := "Timestamp,t" +:+ newline ]}
                [false; true] []) [] in
  let run := log_sensor_data id (mk_time 2025 1 1 12 0 5) ["21.5"] ["t"] w in
  run.1 = Raise (OSError EIO)
  ∧ dl_mounted run.2 = true
  ∧ grows_at SENSOR_DATA_PATH (dl_card w) (dl_card run.2).
Proof.
  intros w run.
  destruct (log_sensor_data_appends id (mk_time 2025 1 1 12 0 5) ["21.5"]
              ["t"] w run.1 run.2 eq_refl) as (Hm & _ & _ & Hgrow & _).
  split_and!; [reflexivity|exact Hm|exact Hgrow].
Defined.

Lemma log_sensor_data_result_witness :
  let w := mk_datalog true (mk_fs ∅ [] []) [] in
  let t := mk_time 2025 1 1 12 0 5 in
  dl_mounted w = true
  ∧ faults (dl_card w) = []
  ∧ ∃ w',
      log_sensor_data id t ["21.5"; "40"] ["t"; "h"] w = (Ok true, w')
      ∧ file_content (dl_card w') SENSOR_DATA_PATH
        = "Timestamp,t,h" +:+ newline
          +:+ "2025-01-01 12:00:05,21.5,40" +:+ newline.
Proof.
  intros w t. split_and!; [reflexivity|reflexivity|].
  destruct (log_sensor_data_result id t ["21.5"; "40"] ["t"; "h"] w
              eq_refl eq_refl) as (w' & Hrun & _ & Hcontent).
  exists w'. split; [exact Hrun|exact Hcontent].
Defined.

Lemma shutdown_sd_card_unmounts_witness :
  let w := mk_datalog true
             (mk_fs {[ SENSOR_DATA_PATH := "Timestamp,t" +:+ newline ]} [] [])
             [] in
  ∃ w1 w2,
    shutdown_sd_card (Some SDCard) w = (Ok tt, w1)
    ∧ log_sensor_data id (mk_time 2025 1 1 12 0 5) ["21.5"] ["t"] w1
      = (Ok false, w2)
    ∧ dl_card w2 = dl_card w.
Proof.
  intros w.
  destruct (shutdown_sd_card_unmounts id (Some SDCard) w)
    as (w1 & Hrun & _ & _ & _ & Hlog).
  destruct (Hlog (ex_intro _ SDCard eq_refl) (mk_time 2025 1 1 12 0 5)
              ["21.5"] ["t"]) as (w2 & Hrun2 & Hcard & _).
  exists w1, w2. split_and!; [exact Hrun|exact Hrun2|exact Hcard].
Defined.

(** ** The Notecard *)

Section NotecardFacts.

Context {C : Type}.
Context (transaction : C → request → res response * C).
Context (exc_lineno : exn → res nat).
Context (exc_class_name : exn → string).
Context (exc_args : exn → list string).

Lemma transactions_app (tr1 tr2 : list nc_event) :
  transactions (tr1 ++ tr2) = transactions tr1 ++ transactions tr2.
Proof. apply List.filter_app. Qed.

Ltac nc_unfold :=
  unfold send_data_to_notecard, sync_notecard_now, send_sensor_data,
    sync_notecard, NotecardExceptionInfo, Transaction, nc_print, nc_sleep,
    nc_emit;
  eff_unfold.

(** X13.  [send_data_to_notecard] and [sync_notecard_now] never raise,
    whatever the Notecard answers and whatever happens while the
    exception message is built.  Each makes exactly one transaction (the
    [note.add] request with the timestamp and the record as body, and
    [hub.sync]), touches no file, and waits 5 seconds exactly when the
    transaction failed and the message could be built. *)
Theorem notecard_senders_never_raise (card : card_ref) (timestamp : string)
    (flat_dict : flat_record) (w : nc_world C) :
  one_transaction transaction exc_lineno
    (ReqNoteAdd true "data.qo"
       {[ "timestamp" := BodyStr timestamp; "data" := BodyDict flat_dict ]})
    w
    (send_data_to_notecard transaction exc_lineno exc_class_name exc_args
       card timestamp flat_dict w)
  ∧ one_transaction transaction exc_lineno ReqHubSync w
      (sync_notecard_now transaction exc_lineno exc_class_name exc_args
         card w).
Proof.
  split; unfold one_transaction; nc_unfold;
    destruct (transaction (nc_card w) _) as [[rsp|e] c]; simpl.
  1, 3: split_and!; [done..|]; exists []; split_and!; [done|done| |done];
    (split; [by intros ?%elem_of_nil|by intros [[=] _]]).
  all: destruct (exc_lineno e) as [n|e']; simpl;
    (split_and!; [done..|]); eexists; rewrite <- !app_assoc;
    (split_and!; [reflexivity|done| |done]).
  1, 3: split; [done|]; intros _; set_solver.
  all: split; [|by intros [_ [=]]];
    intros [[=]|[]%elem_of_nil]%elem_of_cons.
Qed.

(** X14.  [send_test_message] never raises and touches no file.  It
    answers [False] only when the [note.add] transaction failed and the
    message on the failure could not be built; then it makes no second
    transaction.  In every other case, also when the Notecard refused
    the note or the sync, it goes on to [hub.sync] and answers [True]. *)
Theorem send_test_message_result (card : card_ref) (t : time_tuple)
    (w : nc_world C) :
  let req := ReqNoteAdd true "data.qo" (test_body t) in
  let answer := transaction (nc_card w) req in
  let gave_up := info_fails exc_lineno answer.1 in
  ∃ w',
    send_test_message transaction exc_lineno exc_class_name exc_args card t w
    = (Ok (negb gave_up), w')
    ∧ nc_flash w' = nc_flash w
    ∧ transactions (nc_trace w')
      = transactions (nc_trace w)
        ++ NcTransaction req
           :: (if gave_up then [] else [NcTransaction ReqHubSync])
    ∧ nc_card w'
      = (if gave_up then answer.2 else (transaction answer.2 ReqHubSync).2)
    ∧ (NcSleep 2 ∈ nc_trace w' ↔ gave_up = false ∨ NcSleep 2 ∈ nc_trace w).
Proof.
  intros req answer gave_up. subst gave_up answer req.
  unfold send_test_message. nc_unfold. simpl.
  destruct (transaction (nc_card w) _) as [[rsp|e] c]; simpl;
    [|destruct (exc_lineno e) as [n|e']; simpl].
  1, 2: destruct (transaction c ReqHubSync) as [[rsp2|e2] c2]; simpl;
    [|destruct (exc_lineno e2) as [n2|e2']; simpl].
  all: eexists; (split; [reflexivity|]); simpl; split_and!;
    [done|rewrite !transactions_app; simpl; by rewrite <- !app_assoc|done|].
  all: set_solver.
Qed.

End NotecardFacts.

Section OtaFacts.

Context {C : Type}.
Context (transaction : C → request → res response * C).

(** X15.  [check_ota_update] never answers [True]: it answers [False],
    raises, or restarts the board.  It touches no file but [/main.py],
    and that one only when the Notecard offers a program; then it opens
    it for writing.  If the open fails the files are as before; if the
    write fails the old program is gone and [/main.py] is left empty,
    the error is raised and the board is not restarted; otherwise
    [/main.py] holds the program offered and the board is restarted
    after a wait of 2 seconds. *)
Theorem check_ota_update_flash (card : card_ref) (w : nc_world C)
    (r : res ota_outcome) (w' : nc_world C) :
  check_ota_update transaction card w = (r, w') →
  r ≠ Ok (OtaReturned true)
  ∧ (∀ path, path ≠ MAIN_PY →
             files (nc_flash w') !! path = files (nc_flash w) !! path)
  ∧ (∃ evs, nc_trace w' = nc_trace w ++ evs
            ∧ (NcReset ∈ evs ↔ r = Ok OtaRestarted)
            ∧ (r = Ok OtaRestarted →
               ∃ before, evs = before ++ [NcSleep 2; NcReset]))
  ∧ match firmware_offer transaction (nc_card w) with
    | None => nc_flash w' = nc_flash w ∧ r ≠ Ok OtaRestarted
    | Some code =>
        match faults (nc_flash w) with
        | true :: _ =>
            r = Raise (OSError EIO)
            ∧ files (nc_flash w') = files (nc_flash w)
            ∧ fs_trace (nc_flash w')
              = fs_trace (nc_flash w) ++ [FsOpen MAIN_PY ModeW]
        | false :: true :: _ =>
            r = Raise (OSError EIO)
            ∧ files (nc_flash w') !! MAIN_PY = Some ""
            ∧ fs_trace (nc_flash w')
              = fs_trace (nc_flash w)
                ++ [FsOpen MAIN_PY ModeW; FsWrite MAIN_PY code]
        | _ =>
            r = Ok OtaRestarted
            ∧ files (nc_flash w') !! MAIN_PY = Some code
            ∧ fs_trace (nc_flash w')
              = fs_trace (nc_flash w)
                ++ [FsOpen MAIN_PY ModeW; FsWrite MAIN_PY code]
        end
    end.
Proof.
  unfold check_ota_update, firmware_offer, machine_reset, on_flash,
    Transaction, nc_print, nc_sleep, nc_emit.
  eff_unfold. simpl.
  assert (∀ (tr : list nc_event) evs out,
            NcReset ∉ evs → out ≠ Ok OtaRestarted →
            ∃ evs', tr ++ evs = tr ++ evs'
                    ∧ (NcReset ∈ evs' ↔ out = Ok OtaRestarted)
                    ∧ (out = Ok OtaRestarted →
                       ∃ before, evs' = before ++ [NcSleep 2; NcReset]))
    as Hquiet.
  { intros tr evs out Hno Hout. exists evs. split_and!; [done| |done].
    split; [done|]. by intros ?. }
  destruct (transaction (nc_card w) _) as [[rsp1|e1] c1]; simpl.
  2: { intros [= <- <-]. simpl. rewrite <- !app_assoc.
       split; [|split; [|split]]; [done|done| |done].
       apply Hquiet; [set_solver|done]. }
  destruct (transaction c1 ReqHubFirmware) as [[[pending body2]|e2] c2]; simpl.
  2: { intros [= <- <-]. simpl. rewrite <- !app_assoc.
       split; [|split; [|split]]; [done|done| |done].
       apply Hquiet; [set_solver|done]. }
  destruct pending as [[]|]; simpl.
  2, 3: intros [= <- <-]; simpl; rewrite <- !app_assoc;
    (split; [|split; [|split]];
     [done|done| |by destruct (transaction c2 _) as [[] ?]]);
    apply Hquiet; [set_solver|done].
  destruct (transaction c2 ReqHubFirmwareGet) as [[[p3 body3]|e3] c3]; simpl.
  2: { intros [= <- <-]. simpl. rewrite <- !app_assoc.
       split; [|split; [|split]]; [done|done| |done].
       apply Hquiet; [set_solver|done]. }
  destruct body3 as [[|a code]|]; simpl.
  1, 3: intros [= <- <-]; simpl; rewrite <- !app_assoc;
    (split; [|split; [|split]]; [done|done| |done]);
    apply Hquiet; [set_solver|done].
  unfold py_open, py_write, fs_call, set_file. eff_unfold.
  destruct (nc_flash w) as [fl flt tr] eqn:Hflash. simpl.
  assert (∀ (tr0 : list nc_event) before,
            ∃ evs', tr0 ++ before ++ [NcSleep 2; NcReset] = tr0 ++ evs'
                    ∧ (NcReset ∈ evs'
                       ↔ Ok OtaRestarted = Ok OtaRestarted :> res ota_outcome)
                    ∧ (Ok OtaRestarted = Ok OtaRestarted :> res ota_outcome →
                       ∃ before', evs' = before' ++ [NcSleep 2; NcReset]))
    as Hreset.
  { intros tr0 before. eexists. split_and!; [done| |by eexists].
    split; [done|]. intros _. set_solver. }
  destruct flt as [|[] [|[] rest]]; simpl; intros [= <- <-]; simpl;
    rewrite <- ?app_assoc; (split; [|split; [|split]]); try done.
  all: try (intros path Hpath; by rewrite !lookup_insert_ne).
  all: try (apply Hquiet; [set_solver|done]).
  all: try (split_and!; [done| |done]; unfold file_content; simpl;
            by rewrite !lookup_insert_eq).
  all: try (simpl; apply (Hreset _ [_; _; _; _; _; _; _; _])).
Qed.

End OtaFacts.

Lemma check_ota_update_flash_witness :
  let c := [Ok (mk_rsp None None); Ok (mk_rsp (Some true) None);
            Ok (mk_rsp None (Some "print(1)"))] in
  let w := mk_nc c (mk_fs {[ MAIN_PY := "import old" ]} [false; true] []) [] in
  let run := check_ota_update script_transaction Notecard w in
  run.1 = Raise (OSError EIO)
  ∧ files (nc_flash run.2) !! MAIN_PY = Some ""
  ∧ fs_trace (nc_flash run.2)
    = [FsOpen MAIN_PY ModeW; FsWrite MAIN_PY "print(1)"].
Proof.
  intros c w run.
  exact (proj2 (proj2 (proj2 (check_ota_update_flash script_transaction
                                Notecard w run.1 run.2 eq_refl)))).
Defined.
